(** * Verification of the cnd / okteto activation core

    A shallow embedding of the Go sources of the repository and the proofs of
    the properties stated about them.  The file is organised as the sources
    are: one module per Go package, definitions first, theorems afterwards.

    Conventions of the embedding:
    - a Go pointer [*T] is an [option] of a location in a store ([None] is the
      nil pointer); structs reached through pointers live in that store, so
      mutation through an alias is visible through every alias;
    - a Go slice is a [list] (a nil slice and an empty slice are both [[]],
      the sources only ever take [len] of them or range over them);
    - a Go map is an [option (gmap K V)], [None] being the nil map;
    - a Go [int] is a [Z] (no arithmetic of the modelled code can overflow);
    - a Go [error] is an [option] of an error value, [None] being [nil];
    - a run-time panic (nil dereference, write to a nil map) is the outcome
      [Panic] of the [exec] monad. *)

From Stdlib Require Import ZArith Lia Ascii String.
From stdpp Require Import base option list strings gmap fin_maps pretty countable.

Open Scope string_scope.
Open Scope Z_scope.

(** ** Outcomes of Go code *)

Inductive exec (A : Type) : Type :=
  | Done (a : A)
  | Panic.
Arguments Done {A} a.
Arguments Panic {A}.

#[global] Instance exec_ret : MRet exec := fun _ a => Done a.
#[global] Instance exec_bind : MBind exec := fun _ _ f m =>
  match m with
  | Done a => f a
  | Panic => Panic
  end.

(** Error values.  [Errorf] is a value built by [fmt.Errorf] or [errors.New];
    the next constructors are the sentinel values and the [UserError] struct
    of package [errors], which the sources compare with [==]; [PathError] is
    the [*os.PathError] that the file operations of package [os] return. *)
Inductive goerror : Type :=
  | Errorf (msg : string)
  | ErrLostConnection
  | ErrCommandFailed
  | ErrNotFound
  | ErrSyncFrozen
  | UserError (E : goerror) (Hint : string)
  | PathError (Op Path : string) (Err : goerror).

Definition error : Type := option goerror.

#[global] Instance goerror_eq_dec : EqDecision goerror.
Proof. solve_decision. Defined.

(** [fmt.Sprintf("%d", i)] *)
Definition Sprintf_d (i : Z) : string := pretty i.

(** The line feed that a Go string literal writes [\n]. *)
Definition newline : string := String "010"%char "".

(** Locations of heap-allocated structs, and pointers to them. *)
Abbreviation loc := positive.
Abbreviation ptr := (option positive).

(** ** Package [k8s.io/apimachinery/pkg/api/resource] (the part used) *)

Module resource.

Inductive Format : Type := DecimalSI | BinarySI.

(** A quantity as a number of thousandths of the unit, with the format it
    was written in. *)
Record Quantity : Type := mkQuantity { milli : Z; format : Format }.

#[global] Instance Format_eq_dec : EqDecision Format.
Proof. solve_decision. Defined.
#[global] Instance Quantity_eq_dec : EqDecision Quantity.
Proof. solve_decision. Defined.

Definition digit_of (c : ascii) : option Z :=
  let n := Z.of_nat (nat_of_ascii c) in
  if bool_decide (48 <= n <= 57) then Some (n - 48) else None.

(** Reads the leading decimal digits of [s]; returns their value, how many
    there were, and the rest of the string. *)
Fixpoint digits (s : string) (acc : Z) (n : nat) : Z * nat * string :=
  match s with
  | String c s' =>
      match digit_of c with
      | Some d => digits s' (10 * acc + d) (S n)
      | None => (acc, n, s)
      end
  | EmptyString => (acc, n, s)
  end.

(** What the library answers on a string. *)
Definition library : Type := string → Quantity * error.

(** [ParseQuantity].  The package is a library that is not part of the
    sources.  Its answer is computed here on the strings of the kind the
    sources write: an unsigned integer of at most nine digits followed by
    one of the suffixes none, [m], [Ki], [Mi], [Gi].  On every other string
    the answer is the library's own, [lib]. *)
Definition ParseQuantity (lib : library) (s : string) : Quantity * error :=
  let '(v, n, suffix) := digits s 0 0 in
  if bool_decide (1 ≤ n ≤ 9)%nat then
    if String.eqb suffix "" then (mkQuantity (v * 1000) DecimalSI, None)
    else if String.eqb suffix "m" then (mkQuantity v DecimalSI, None)
    else if String.eqb suffix "Ki" then (mkQuantity (v * 1000 * 2 ^ 10) BinarySI, None)
    else if String.eqb suffix "Mi" then (mkQuantity (v * 1000 * 2 ^ 20) BinarySI, None)
    else if String.eqb suffix "Gi" then (mkQuantity (v * 1000 * 2 ^ 30) BinarySI, None)
    else lib s
  else lib s.

(** A library that answers its format error on whatever it is asked. *)
Definition format_errors : library :=
  fun _ => (mkQuantity 0 DecimalSI,
            Some (Errorf "quantities must match the regular expression")).

End resource.

(** ** Package [path] (the part used): [Clean] and [Join] on slash-separated
    paths, as the documentation of the package describes them. *)

Module path.

(** The elements of a path: what stands between its slashes. *)
Fixpoint elements (s : string) (current : string) : list string :=
  match s with
  | EmptyString => [current]
  | String c s' =>
      if Ascii.eqb c "/" then current :: elements s' ""
      else elements s' (current +:+ String c "")
  end.

(** One element more on the cleaned path [out], which is held last element
    first: an empty element and [.] are dropped, [..] removes the element
    before it, stays when there is none to remove, and is dropped at the
    root. *)
Definition clean_step (rooted : bool) (out : list string) (e : string) : list string :=
  if bool_decide (e = "" ∨ e = ".") then out
  else if bool_decide (e = "..") then
    match out with
    | top :: rest => if bool_decide (top = "..") then e :: out else rest
    | [] => if rooted then [] else [e]
    end
  else e :: out.

Definition Clean (p : string) : string :=
  if bool_decide (p = "") then "."
  else
    let rooted := String.prefix "/" p in
    let out := rev (foldl (clean_step rooted) [] (elements p "")) in
    let body := String.concat "/" out in
    if rooted then "/" +:+ body
    else if bool_decide (body = "") then "." else body.

(** [Join]: empty elements are ignored, the result is cleaned, and joining
    nothing but empty elements gives the empty string. *)
Definition Join (elem : list string) : string :=
  let parts := filter (fun e => e ≠ "") elem in
  if bool_decide (parts = []) then "" else Clean (String.concat "/" parts).

(** [Dir]: all but the last element, cleaned. *)
Definition Dir (p : string) : string :=
  match rev (elements p "") with
  | _ :: (_ :: _) as before => Clean (String.concat "/" (rev before) +:+ "/")
  | _ => "."
  end.

(** [Base]: the last element, trailing slashes apart; [.] for the empty
    path and [/] for a path of slashes. *)
Definition Base (p : string) : string :=
  if bool_decide (p = "") then "."
  else match rev (filter (fun e => e ≠ "") (elements p "")) with
       | e :: _ => e
       | [] => "/"
       end.

Definition IsAbs (p : string) : bool := String.prefix "/" p.

(** [filepath.Abs] in the working directory [cwd]. *)
Definition Abs (cwd p : string) : string :=
  if IsAbs p then Clean p else Join [cwd; p].

End path.

(** ** Package [pkg/model] : the manifest model (pkg/model/dev.go) *)

Module model.

Definition oktetoSyncthingMountPath : string := "/var/syncthing".
Definition oktetoMarkerPathVariable : string := "OKTETO_MARKER_PATH".
Definition oktetoRemotePortVariable : string := "OKTETO_REMOTE_PORT".
Definition OktetoVolumeName : string := "okteto".
Definition OktetoAutoCreateAnnotation : string := "dev.okteto.com/auto-create".
Definition OktetoRestartAnnotation : string := "dev.okteto.com/restart".
Definition OktetoInitContainer : string := "okteto-init".
Definition DefaultImage : string := "okteto/desk:latest".

(** [apiv1.PullPolicy] is a string type. *)
Definition PullPolicy : Type := string.
Definition PullAlways : PullPolicy := "Always".
Definition PullIfNotPresent : PullPolicy := "IfNotPresent".
Definition PullNever : PullPolicy := "Never".

Record Volume : Type := mkVolume { v_SubPath : string; v_MountPath : string }.

Record Capabilities : Type := mkCapabilities { cap_Add : list string; cap_Drop : list string }.

Record SecurityContextT : Type := mkSecurityContext {
  RunAsUser : option Z;
  RunAsGroup : option Z;
  FSGroup : option Z;
  sc_Capabilities : option Capabilities
}.

Record EnvVar : Type := mkEnvVar { e_Name : string; e_Value : string }.

Record ForwardT : Type := mkForward { f_Local : Z; f_Remote : Z }.

Record RemoteForwardT : Type := mkRemoteForward { rf_Remote : Z; rf_Local : Z }.

Definition ResourceList : Type := option (gmap string resource.Quantity).

Record ResourceRequirements : Type := mkResourceRequirements {
  Limits : ResourceList;
  Requests : ResourceList
}.

(** The [Dev] struct.  [Services] holds pointers: [[]*Dev]. *)
Record Dev := mkDev {
  Name : string;
  Labels : option (gmap string string);
  Annotations : option (gmap string string);
  Namespace : string;
  Container : string;
  Image : string;
  ImagePullPolicy : PullPolicy;
  Environment : list EnvVar;
  Command : list string;
  WorkDir : string;
  MountPath : string;
  SubPath : string;
  Volumes : list Volume;
  SecurityContext : option SecurityContextT;
  Forward : list ForwardT;
  RemoteForward : list RemoteForwardT;
  RemotePort : Z;
  Resources : ResourceRequirements;
  DevPath : string;
  DevDir : string;
  Services : list ptr
}.

Definition set_Labels (v : option (gmap string string)) (d : Dev) : Dev :=
  mkDev (Name d) v (Annotations d) (Namespace d) (Container d) (Image d) (ImagePullPolicy d) (Environment d) (Command d) (WorkDir d) (MountPath d) (SubPath d) (Volumes d) (SecurityContext d) (Forward d) (RemoteForward d) (RemotePort d) (Resources d) (DevPath d) (DevDir d) (Services d).
Definition set_Annotations (v : option (gmap string string)) (d : Dev) : Dev :=
  mkDev (Name d) (Labels d) v (Namespace d) (Container d) (Image d) (ImagePullPolicy d) (Environment d) (Command d) (WorkDir d) (MountPath d) (SubPath d) (Volumes d) (SecurityContext d) (Forward d) (RemoteForward d) (RemotePort d) (Resources d) (DevPath d) (DevDir d) (Services d).
Definition set_Namespace (v : string) (d : Dev) : Dev :=
  mkDev (Name d) (Labels d) (Annotations d) v (Container d) (Image d) (ImagePullPolicy d) (Environment d) (Command d) (WorkDir d) (MountPath d) (SubPath d) (Volumes d) (SecurityContext d) (Forward d) (RemoteForward d) (RemotePort d) (Resources d) (DevPath d) (DevDir d) (Services d).
Definition set_Container (v : string) (d : Dev) : Dev :=
  mkDev (Name d) (Labels d) (Annotations d) (Namespace d) v (Image d) (ImagePullPolicy d) (Environment d) (Command d) (WorkDir d) (MountPath d) (SubPath d) (Volumes d) (SecurityContext d) (Forward d) (RemoteForward d) (RemotePort d) (Resources d) (DevPath d) (DevDir d) (Services d).
Definition set_Image (v : string) (d : Dev) : Dev :=
  mkDev (Name d) (Labels d) (Annotations d) (Namespace d) (Container d) v (ImagePullPolicy d) (Environment d) (Command d) (WorkDir d) (MountPath d) (SubPath d) (Volumes d) (SecurityContext d) (Forward d) (RemoteForward d) (RemotePort d) (Resources d) (DevPath d) (DevDir d) (Services d).
Definition set_ImagePullPolicy (v : PullPolicy) (d : Dev) : Dev :=
  mkDev (Name d) (Labels d) (Annotations d) (Namespace d) (Container d) (Image d) v (Environment d) (Command d) (WorkDir d) (MountPath d) (SubPath d) (Volumes d) (SecurityContext d) (Forward d) (RemoteForward d) (RemotePort d) (Resources d) (DevPath d) (DevDir d) (Services d).
Definition set_Command (v : list string) (d : Dev) : Dev :=
  mkDev (Name d) (Labels d) (Annotations d) (Namespace d) (Container d) (Image d) (ImagePullPolicy d) (Environment d) v (WorkDir d) (MountPath d) (SubPath d) (Volumes d) (SecurityContext d) (Forward d) (RemoteForward d) (RemotePort d) (Resources d) (DevPath d) (DevDir d) (Services d).
Definition set_WorkDir (v : string) (d : Dev) : Dev :=
  mkDev (Name d) (Labels d) (Annotations d) (Namespace d) (Container d) (Image d) (ImagePullPolicy d) (Environment d) (Command d) v (MountPath d) (SubPath d) (Volumes d) (SecurityContext d) (Forward d) (RemoteForward d) (RemotePort d) (Resources d) (DevPath d) (DevDir d) (Services d).
Definition set_MountPath (v : string) (d : Dev) : Dev :=
  mkDev (Name d) (Labels d) (Annotations d) (Namespace d) (Container d) (Image d) (ImagePullPolicy d) (Environment d) (Command d) (WorkDir d) v (SubPath d) (Volumes d) (SecurityContext d) (Forward d) (RemoteForward d) (RemotePort d) (Resources d) (DevPath d) (DevDir d) (Services d).
Definition set_Volumes (v : list Volume) (d : Dev) : Dev :=
  mkDev (Name d) (Labels d) (Annotations d) (Namespace d) (Container d) (Image d) (ImagePullPolicy d) (Environment d) (Command d) (WorkDir d) (MountPath d) (SubPath d) v (SecurityContext d) (Forward d) (RemoteForward d) (RemotePort d) (Resources d) (DevPath d) (DevDir d) (Services d).
Definition set_Forward (v : list ForwardT) (d : Dev) : Dev :=
  mkDev (Name d) (Labels d) (Annotations d) (Namespace d) (Container d) (Image d) (ImagePullPolicy d) (Environment d) (Command d) (WorkDir d) (MountPath d) (SubPath d) (Volumes d) (SecurityContext d) v (RemoteForward d) (RemotePort d) (Resources d) (DevPath d) (DevDir d) (Services d).
Definition set_RemoteForward (v : list RemoteForwardT) (d : Dev) : Dev :=
  mkDev (Name d) (Labels d) (Annotations d) (Namespace d) (Container d) (Image d) (ImagePullPolicy d) (Environment d) (Command d) (WorkDir d) (MountPath d) (SubPath d) (Volumes d) (SecurityContext d) (Forward d) v (RemotePort d) (Resources d) (DevPath d) (DevDir d) (Services d).
Definition set_RemotePort (v : Z) (d : Dev) : Dev :=
  mkDev (Name d) (Labels d) (Annotations d) (Namespace d) (Container d) (Image d) (ImagePullPolicy d) (Environment d) (Command d) (WorkDir d) (MountPath d) (SubPath d) (Volumes d) (SecurityContext d) (Forward d) (RemoteForward d) v (Resources d) (DevPath d) (DevDir d) (Services d).
Definition set_Services (v : list ptr) (d : Dev) : Dev :=
  mkDev (Name d) (Labels d) (Annotations d) (Namespace d) (Container d) (Image d) (ImagePullPolicy d) (Environment d) (Command d) (WorkDir d) (MountPath d) (SubPath d) (Volumes d) (SecurityContext d) (Forward d) (RemoteForward d) (RemotePort d) (Resources d) (DevPath d) (DevDir d) v.

(** The store of [Dev] structs. *)
Abbreviation heap := (gmap loc Dev).

Definition deref (h : heap) (p : ptr) : exec Dev :=
  match p with
  | Some l => match h !! l with Some d => Done d | None => Panic end
  | None => Panic
  end.

(** [*p = d] for a pointer that was dereferenced before. *)
Definition store (h : heap) (p : ptr) (d : Dev) : heap :=
  match p with
  | Some l => <[l := d]> h
  | None => h
  end.

(** [len(m)] of a map; 0 for the nil map. *)
Definition map_len {V} (m : option (gmap string V)) : nat :=
  match m with Some m => size m | None => 0%nat end.

(** The struct declared in pkg/model/translation.go, as [ToTranslationRule]
    fills it. *)
Record VolumeMount : Type := mkVolumeMount {
  vm_Name : string; vm_MountPath : string; vm_SubPath : string
}.

Record TranslationRule : Type := mkTranslationRule {
  Marker : string;
  r_Container : string;
  r_Image : string;
  r_ImagePullPolicy : PullPolicy;
  r_Environment : list EnvVar;
  r_Command : list string;
  Args : list string;
  Healthchecks : bool;
  r_WorkDir : string;
  r_Volumes : list VolumeMount;
  r_SecurityContext : option SecurityContextT;
  r_Resources : ResourceRequirements
}.

(** Library functions the package calls and that are not part of it. *)
Record externals : Type := mkExternals {
  (** [yaml.UnmarshalStrict(bytes, dev)]: fills the struct at the location
      and allocates the nested services, or fails with a message. *)
  yaml_UnmarshalStrict : list Byte.byte → loc → heap → heap + string;
  os_ExpandEnv : string → string;
  path_Join : list string → string;
  strings_Split : string → string → list string;
  strings_TrimSuffix : string → string → string;
  strings_TrimSpace : string → string;
  strings_Replace : string → string → string → Z → string
}.

Section WithExternals.
Context (X : externals).

(** lines 201-248.  The [if] statements of [setDefaults], one by one;
    the first six are applied to the Dev itself, the last five of them
    to every service as well. *)
Definition default_command (d : Dev) : Dev :=
  if bool_decide (length (Command d) = 0%nat) then set_Command ["sh"] d else d.

Definition default_paths (d : Dev) : Dev :=
  if bool_decide (MountPath d = "" ∧ WorkDir d = "")
  then set_WorkDir "/okteto" (set_MountPath "/okteto" d) else d.

Definition default_pull_policy (d : Dev) : Dev :=
  if bool_decide (ImagePullPolicy d = "") then set_ImagePullPolicy PullAlways d else d.

Definition default_mountpath (d : Dev) : Dev :=
  if bool_decide (WorkDir d ≠ "" ∧ MountPath d = "")
  then set_MountPath (WorkDir d) d else d.

Definition default_labels (d : Dev) : Dev :=
  if bool_decide (Labels d = None) then set_Labels (Some ∅) d else d.

Definition default_annotations (d : Dev) : Dev :=
  if bool_decide (Annotations d = None) then set_Annotations (Some ∅) d else d.

Definition service_defaults_1 (s : Dev) : Dev :=
  default_annotations (default_labels (default_mountpath
    (default_pull_policy (default_paths s)))).

Definition service_defaults_2 (s : Dev) : Dev :=
  set_Services [] (set_Volumes [] (set_RemoteForward [] (set_Forward []
    (set_Namespace "" s)))).

(** The loop [for _, s := range dev.Services] of [setDefaults]. *)
Fixpoint setDefaults_services (h : heap) (ss : list ptr) : exec (heap * error) :=
  match ss with
  | [] => Done (h, None)
  | s :: rest =>
      d ← deref h s;
      let d := service_defaults_1 d in
      if bool_decide (Name d ≠ "" ∧ (0 < map_len (Labels d))%nat)
      then Done (store h s d,
                 Some (Errorf ("'name' and 'labels' cannot be defined at the same time for service '"
                               +:+ Name d +:+ "'")))
      else setDefaults_services (store h s (service_defaults_2 d)) rest
  end.

Definition dev_defaults (d : Dev) : Dev :=
  service_defaults_1 (default_command d).

Definition setDefaults (h : heap) (dev : ptr) : exec (heap * error) :=
  d ← deref h dev;
  let d := dev_defaults d in
  setDefaults_services (store h dev d) (Services d).

(** The empty struct literal of [Read], lines 161-171. *)
Definition Read_init : Dev :=
  mkDev "" None None "" "" "" "" [] [] "" "" "" [] None [] [] 0
        (mkResourceRequirements (Some ∅) (Some ∅)) "" "" [].

(** The message built at lines 173-188 from the decoder's error. *)
Definition Read_error_message (e : string) : string :=
  if String.prefix "yaml: unmarshal errors:" e
  then
    let l := strings_Split X e (String "010" "") in
    let body := foldl (fun sb li =>
                  let e := strings_TrimSuffix X li "in type model.Dev" in
                  let e := strings_TrimSpace X e in
                  sb +:+ "    - " +:+ e +:+ String "010" "")
                ("Invalid manifest:" +:+ String "010" "") (drop 1 l) in
    body +:+ "    See https://okteto.com/docs/reference/manifest for details"
  else
    let msg := strings_Replace X e "yaml: unmarshal errors:" "invalid manifest:" 1 in
    strings_TrimSuffix X msg "in type model.Dev".

(** lines 159-199.  The fresh struct is allocated at location 1 of an
    otherwise empty store; the result is the store and the pair the Go
    function returns. *)
Definition Read (bytes : list Byte.byte) : exec (heap * (ptr * error)) :=
  let l : loc := 1%positive in
  let dev : ptr := Some l in
  let h : heap := {[ l := Read_init ]} in
  match yaml_UnmarshalStrict X bytes l h with
  | inr e => Done (h, (None, Some (Errorf (Read_error_message e))))
  | inl h =>
      d ← deref h dev;
      let h := if bool_decide (0 < String.length (Image d))%nat
               then store h dev (set_Image (os_ExpandEnv X (Image d)) d) else h in
      '(h, err) ← setDefaults h dev;
      match err with
      | Some e => Done (h, (None, Some e))
      | None => Done (h, (dev, None))
      end
  end.

(** lines 360-371 *)
Definition fullSubPath (h : heap) (dev : ptr) (i : Z) (subPath : string) : exec string :=
  d ← deref h dev;
  if bool_decide (subPath = "")
  then Done (path_Join X [Name d; "data-" +:+ Sprintf_d i])
  else Done (path_Join X [Name d; "data-0"; subPath]).

Definition syncthingSubPath (h : heap) (dev : ptr) : exec string :=
  d ← deref h dev;
  Done (path_Join X [Name d; "syncthing"]).

(** lines 491-502 *)
Definition RemoteModeEnabled (h : heap) (dev : ptr) : exec bool :=
  match dev with
  | None => Done false
  | Some _ =>
      d ← deref h dev;
      if bool_decide (0 < RemotePort d) then Done true
      else Done (bool_decide (0 < length (RemoteForward d))%nat)
  end.

(** The loop [for i, v := range dev.Volumes] of [ToTranslationRule]. *)
Fixpoint rule_volumes (h : heap) (main : ptr) (i : Z) (vs : list Volume)
    (acc : list VolumeMount) : exec (list VolumeMount) :=
  match vs with
  | [] => Done acc
  | v :: vs =>
      sp ← fullSubPath h main (i + 1) (v_SubPath v);
      rule_volumes h main (i + 1) vs
        (acc ++ [mkVolumeMount OktetoVolumeName (v_MountPath v) sp])%list
  end.

(** lines 373-435 *)
Definition ToTranslationRule (h : heap) (dev main : ptr) : exec TranslationRule :=
  d ← deref h dev;
  sp0 ← fullSubPath h main 0 (SubPath d);
  let Volumes0 := [mkVolumeMount OktetoVolumeName (MountPath d) sp0] in
  if bool_decide (main = dev)
  then
    let Environment1 := (Environment d ++
      [mkEnvVar oktetoMarkerPathVariable (path_Join X [MountPath d; DevPath d])])%list in
    ssp ← syncthingSubPath h dev;
    let Volumes1 := (Volumes0 ++
      [mkVolumeMount OktetoVolumeName oktetoSyncthingMountPath ssp])%list in
    remote ← RemoteModeEnabled h main;
    let Args1 : list string := if (remote : bool) then ["-r"] else [] in
    vols ← rule_volumes h main 0 (Volumes d) Volumes1;
    Done (mkTranslationRule (DevPath d) (Container d) (Image d) (ImagePullPolicy d)
            Environment1 ["/var/okteto/bin/start.sh"] Args1 false (WorkDir d) vols
            (SecurityContext d) (Resources d))
  else
    let Command1 : list string := if bool_decide (0 < length (Command d))%nat then Command d else [] in
    vols ← rule_volumes h main 0 (Volumes d) Volumes0;
    Done (mkTranslationRule "" (Container d) (Image d) (ImagePullPolicy d)
            (Environment d) Command1 [] true (WorkDir d) vols
            (SecurityContext d) (Resources d)).

(** lines 437-447 *)
Definition UpdateNamespace (h : heap) (dev : ptr) (namespace : string)
    : exec (heap * error) :=
  if bool_decide (namespace = "") then Done (h, None)
  else
    d ← deref h dev;
    if bool_decide (Namespace d ≠ "" ∧ Namespace d ≠ namespace)
    then Done (h, Some (Errorf ("the namespace in the okteto manifest '" +:+ Namespace d
                                +:+ "' does not match the namespace '" +:+ namespace +:+ "'")))
    else Done (store h dev (set_Namespace namespace d), None).

(** lines 335-338 *)
Definition GetVolumeTemplateName (i : Z) : string := "pvc-" +:+ Sprintf_d i.

End WithExternals.

(** *** The rest of pkg/model/dev.go *)

Definition set_DevPath (v : string) (d : Dev) : Dev :=
  mkDev (Name d) (Labels d) (Annotations d) (Namespace d) (Container d) (Image d) (ImagePullPolicy d) (Environment d) (Command d) (WorkDir d) (MountPath d) (SubPath d) (Volumes d) (SecurityContext d) (Forward d) (RemoteForward d) (RemotePort d) (Resources d) v (DevDir d) (Services d).
Definition set_DevDir (v : string) (d : Dev) : Dev :=
  mkDev (Name d) (Labels d) (Annotations d) (Namespace d) (Container d) (Image d) (ImagePullPolicy d) (Environment d) (Command d) (WorkDir d) (MountPath d) (SubPath d) (Volumes d) (SecurityContext d) (Forward d) (RemoteForward d) (RemotePort d) (Resources d) (DevPath d) v (Services d).

Definition errBadName : goerror :=
  Errorf "Invalid name: must consist of lower case alphanumeric characters or '-', and must start and end with an alphanumeric character".

(** The bytes of a string. *)
Definition chars (s : string) : list ascii := list_ascii_of_string s.

(** [strings.HasPrefix] and [strings.HasSuffix] *)
Definition strings_HasPrefix (s pre : string) : bool :=
  bool_decide (chars pre `prefix_of` chars s).
Definition strings_HasSuffix (s suf : string) : bool :=
  bool_decide (chars suf `suffix_of` chars s).

(** A byte that [ValidKubeNameRegex], the expression [[^a-z0-9\-]+], matches:
    anything but a lower case letter, a digit or the hyphen.  The bytes of a
    character that is not ASCII are all in that case, so the expression
    matches a string exactly when it matches one of its bytes. *)
Definition outside_kube_name (c : ascii) : bool :=
  let n := nat_of_ascii c in
  negb (bool_decide (97 ≤ n ≤ 122)%nat || bool_decide (48 ≤ n ≤ 57)%nat
        || bool_decide (n = 45)%nat).

Definition ValidKubeNameRegex_MatchString (s : string) : bool :=
  existsb outside_kube_name (chars s).

(** lines 280-289 *)
Definition validatePullPolicy (pullPolicy : PullPolicy) : error :=
  if bool_decide (pullPolicy = PullAlways) then None
  else if bool_decide (pullPolicy = PullIfNotPresent) then None
  else if bool_decide (pullPolicy = PullNever) then None
  else Some (Errorf "supported values for 'imagePullPolicy' are: 'Always', 'IfNotPresent' or 'Never'").

(** The loop [for _, s := range dev.Services] of [validate]. *)
Fixpoint validate_services (h : heap) (ss : list ptr) : exec error :=
  match ss with
  | [] => Done None
  | s :: rest =>
      d ← deref h s;
      match validatePullPolicy (ImagePullPolicy d) with
      | Some e => Done (Some e)
      | None => validate_services h rest
      end
  end.

(** lines 250-278 *)
Definition validate (h : heap) (dev : ptr) : exec error :=
  d ← deref h dev;
  if bool_decide (Name d = "") then Done (Some (Errorf "Name cannot be empty"))
  else if ValidKubeNameRegex_MatchString (Name d) then Done (Some errBadName)
  else if strings_HasPrefix (Name d) "-" || strings_HasSuffix (Name d) "-"
  then Done (Some errBadName)
  else if bool_decide (SubPath d ≠ "")
  then Done (Some (Errorf "'subpath' is not supported in the main dev container"))
  else
    match validatePullPolicy (ImagePullPolicy d) with
    | Some e => Done (Some e)
    | None => validate_services h (Services d)
    end.

(** What [Get] asks of the file system. *)
Record files : Type := mkFiles {
  ioutil_ReadFile : string → list Byte.byte + goerror;
  filepath_Abs : string → string + goerror;
  filepath_Dir : string → string;
  filepath_Base : string → string
}.

(** lines 134-157 *)
Definition Get (X : externals) (F : files) (devPath : string) : exec (heap * (ptr * error)) :=
  match ioutil_ReadFile F devPath with
  | inr e => Done (∅, (None, Some e))
  | inl b =>
      '(h, (dev, err)) ← Read X b;
      match err with
      | Some e => Done (h, (None, Some e))
      | None =>
          err ← validate h dev;
          match err with
          | Some e => Done (h, (None, Some e))
          | None =>
              d ← deref h dev;
              match filepath_Abs F (filepath_Dir F devPath) with
              | inr e => Done (store h dev (set_DevDir "" d), (None, Some e))
              | inl dir =>
                  let d := set_DevDir dir d in
                  let d := set_DevPath (filepath_Base F devPath) d in
                  Done (store h dev d, (dev, None))
              end
          end
      end
  end.

(** lines 291-306 *)
Definition LoadRemote (h : heap) (dev : ptr) : exec heap :=
  d ← deref h dev;
  let d := if bool_decide (RemotePort d = 0) then set_RemotePort 2222 d else d in
  let d := set_Forward (Forward d ++ [mkForward (RemotePort d) 22])%list d in
  Done (store h dev d).

(** [m[k] = v] on a map of the struct; writing to the nil map panics. *)
Definition map_assign (m : option (gmap string string)) (k v : string)
    : exec (option (gmap string string)) :=
  match m with
  | Some m => Done (Some (<[k := v]> m))
  | None => Panic
  end.

(** The loop [for _, s := range dev.Services] of [LoadForcePull]. *)
Fixpoint LoadForcePull_services (h : heap) (ss : list ptr) (restartUUID : string)
    : exec heap :=
  match ss with
  | [] => Done h
  | s :: rest =>
      d ← deref h s;
      let d := set_ImagePullPolicy PullAlways d in
      a ← map_assign (Annotations d) OktetoRestartAnnotation restartUUID;
      LoadForcePull_services (store h s (set_Annotations a d)) rest restartUUID
  end.

(** lines 308-318; [restartUUID] is the value [uuid.NewV4] draws. *)
Definition LoadForcePull (h : heap) (dev : ptr) (restartUUID : string) : exec heap :=
  d ← deref h dev;
  let d := set_ImagePullPolicy PullAlways d in
  a ← map_assign (Annotations d) OktetoRestartAnnotation restartUUID;
  let d := set_Annotations a d in
  LoadForcePull_services (store h dev d) (Services d) restartUUID.

(** lines 320-327: [n[0:52]] keeps the first 52 bytes. *)
Definition GetStatefulSetName (h : heap) (dev : ptr) : exec string :=
  d ← deref h dev;
  let n := "okteto-" +:+ Name d in
  Done (if bool_decide (52 < String.length n)%nat then String.substring 0 52 n else n).

(** lines 329-333 *)
Definition GetPodName (h : heap) (dev : ptr) : exec string :=
  n ← GetStatefulSetName h dev;
  Done (n +:+ "-0").

(** lines 340-345 *)
Definition GetVolumeName (h : heap) (dev : ptr) (i : Z) : exec string :=
  let volumeName := GetVolumeTemplateName i in
  podName ← GetPodName h dev;
  Done (volumeName +:+ "-" +:+ podName).


End model.

(** ** Package [k8s.io/api/core/v1] (the structs the sources build) *)

Module apiv1.

Definition ReadWriteOnce : string := "ReadWriteOnce".
Definition PullIfNotPresent : string := "IfNotPresent".

Record ResourceRequirements : Type := mkResourceRequirements {
  Limits : option (gmap string resource.Quantity);
  Requests : option (gmap string resource.Quantity)
}.

Record PersistentVolumeClaimSpec : Type := mkPersistentVolumeClaimSpec {
  AccessModes : list string;
  pvc_Resources : ResourceRequirements
}.

(** [ObjectMeta] of a claim template carries a name only. *)
Record PersistentVolumeClaim : Type := mkPersistentVolumeClaim {
  pvc_Name : string;
  pvc_Spec : PersistentVolumeClaimSpec
}.

Record VolumeMount : Type := mkVolumeMount { vm_Name : string; vm_MountPath : string }.

Record ContainerPort : Type := mkContainerPort { ContainerPort_ : Z }.

(** A container: the fields the sources write, and the environment as a
    field they never touch. *)
Record Container : Type := mkContainer {
  c_Name : string;
  c_Image : string;
  c_ImagePullPolicy : string;
  c_Command : list string;
  c_Args : list string;
  c_WorkingDir : string;
  c_VolumeMounts : list VolumeMount;
  c_Ports : list ContainerPort;
  c_Env : list (string * string)
}.

Record Volume : Type := mkVolume { vol_Name : string }.

#[global] Instance VolumeMount_eq_dec : EqDecision VolumeMount.
Proof. solve_decision. Defined.
#[global] Instance ContainerPort_eq_dec : EqDecision ContainerPort.
Proof. solve_decision. Defined.
#[global] Instance Container_eq_dec : EqDecision Container.
Proof. solve_decision. Defined.
#[global] Instance Volume_eq_dec : EqDecision Volume.
Proof. solve_decision. Defined.

End apiv1.

(** ** Package [k8s] : the stateful-set translation (unnamed/part_005) *)

Module k8s.
Import model.

(** One iteration of the loop of [translateVolumeClaimTemplates]: the claim
    appended for index [i]. *)
Definition volumeClaim (quantDisk : resource.Quantity) (i : Z) : apiv1.PersistentVolumeClaim :=
  apiv1.mkPersistentVolumeClaim (GetVolumeTemplateName i)
    (apiv1.mkPersistentVolumeClaimSpec [apiv1.ReadWriteOnce]
       (apiv1.mkResourceRequirements None (Some {[ "storage" := quantDisk ]}))).

(** [for i := 0; i <= n; i++ { result = append(result, ...) }], with the
    fuel that bounds the number of iterations. *)
Fixpoint claims_loop (fuel : nat) (quantDisk : resource.Quantity) (i n : Z)
    (result : list apiv1.PersistentVolumeClaim) : option (list apiv1.PersistentVolumeClaim) :=
  if bool_decide (i <= n) then
    match fuel with
    | O => None
    | S fuel => claims_loop fuel quantDisk (i + 1) n (result ++ [volumeClaim quantDisk i])%list
    end
  else Some result.

(** lines 172-194.  [None] inside [Done] would be a loop that did not end
    within [len(dev.Volumes) + 2] tests of its condition. *)
Definition translateVolumeClaimTemplates (lib : resource.library) (h : heap) (dev : ptr)
    : exec (option (list apiv1.PersistentVolumeClaim)) :=
  let quantDisk := fst (resource.ParseQuantity lib "10Gi") in
  d ← deref h dev;
  let n := Z.of_nat (length (Volumes d)) in
  Done (claims_loop (S (S (length (Volumes d)))) quantDisk 0 n []).

End k8s.

(** ** Package [k8s], continued: the stateful set (unnamed/part_005)

    In this file a declared volume of the Dev is its mount path (the loops
    write [MountPath: v]); the mount path of a [model.Volume] stands for it. *)

Module k8s_set.
Import model k8s.

Definition oktetoSyncLabel : string := "syncthing.okteto.com".
Definition syncImageTag : string := "okteto/syncthing:1.2.2".
Definition syncTCPPort : Z := 22000.
Definition syncGUIPort : Z := 8384.
Definition oktetoContainer : string := "okteto".
Definition oktetoSecretVolume : string := "okteto-secret".
Definition oktetoMount : string := "/var/okteto".

(** A container as this file builds it: with its resources. *)
Record Container : Type := mkContainer {
  c_Name : string;
  c_Image : string;
  c_ImagePullPolicy : string;
  c_Command : list string;
  c_Resources : apiv1.ResourceRequirements;
  c_VolumeMounts : list apiv1.VolumeMount;
  c_Ports : list apiv1.ContainerPort
}.

Record PodSecurityContext : Type := mkPodSecurityContext {
  psc_RunAsUser : option Z;
  psc_RunAsGroup : option Z;
  psc_FSGroup : option Z
}.

(** A pod volume backed by a secret. *)
Record SecretVolume : Type := mkSecretVolume { sv_Name : string; sv_SecretName : string }.

(** The fields of the deployment that [translate] copies. *)
Record DeploymentPod : Type := mkDeploymentPod {
  dp_SecurityContext : option PodSecurityContext;
  dp_ImagePullSecrets : list string;
  dp_NodeSelector : option (gmap string string);
  dp_Affinity : option string
}.

Record StatefulSet : Type := mkStatefulSet {
  ss_Name : string;
  ss_Namespace : string;
  ss_ServiceName : string;
  ss_PodManagementPolicy : string;
  ss_Replicas : Z;
  ss_MatchLabels : gmap string string;
  ss_TemplateLabels : gmap string string;
  ss_TerminationGracePeriodSeconds : Z;
  ss_SecurityContext : option PodSecurityContext;
  ss_ImagePullSecrets : list string;
  ss_InitContainers : list Container;
  ss_Containers : list Container;
  ss_Volumes : list SecretVolume;
  ss_NodeSelector : option (gmap string string);
  ss_Affinity : option string;
  ss_VolumeClaimTemplates : list apiv1.PersistentVolumeClaim
}.

(** Calls that leave the package. *)
Record helpers : Type := mkHelpers {
  filepath_Join : list string → string;
  secrets_GetSecretName : Dev → string;
  resource_library : resource.library
}.

Definition quantity (H : helpers) (s : string) : resource.Quantity :=
  fst (resource.ParseQuantity (resource_library H) s).

(** The loop [for i, v := range dev.Volumes] of [translateInitContainer]. *)
Fixpoint init_mounts (i : Z) (vs : list Volume) (acc : list apiv1.VolumeMount)
    : list apiv1.VolumeMount :=
  match vs with
  | [] => acc
  | v :: vs =>
      init_mounts (i + 1) vs
        (acc ++ [apiv1.mkVolumeMount (GetVolumeTemplateName (i + 1)) (v_MountPath v)])%list
  end.

(** lines 126-170 *)
Definition translateInitContainer (H : helpers) (h : heap) (dev : ptr) : exec Container :=
  d ← deref h dev;
  let source := filepath_Join H [MountPath d; "*"] in
  let target := if bool_decide (SubPath d ≠ "")
                then filepath_Join H ["/okteto/init"; SubPath d] else "/okteto/init" in
  Done (mkContainer OktetoInitContainer (Image d) ""
          ["sh"; "-c";
           "(ls -A /okteto/init | grep -v lost+found || mkdir -p " +:+ target
           +:+ " && cp -Rf " +:+ source +:+ " " +:+ target
           +:+ "); touch /okteto/init/" +:+ DevPath d]
          (apiv1.mkResourceRequirements
             (Some {[ "memory" := quantity H "16Mi"; "cpu" := quantity H "50m" ]})
             (Some {[ "memory" := quantity H "16Mi"; "cpu" := quantity H "50m" ]}))
          (init_mounts 0 (Volumes d)
             [apiv1.mkVolumeMount (GetVolumeTemplateName 0) "/okteto/init"])
          []).

(** lines 30-124; [policy] is the pull policy of the dev container [c] of
    the deployment [d]. *)
Definition translate (H : helpers) (h : heap) (dev : ptr) (d : DeploymentPod)
    (policy : string) : exec (option StatefulSet) :=
  initContainer ← translateInitContainer H h dev;
  dv ← deref h dev;
  name ← GetStatefulSetName h dev;
  let sidecar :=
    mkContainer oktetoContainer syncImageTag policy []
      (apiv1.mkResourceRequirements
         (Some {[ "memory" := quantity H "256Mi"; "cpu" := quantity H "500m" ]})
         (Some {[ "memory" := quantity H "64Mi"; "cpu" := quantity H "50m" ]}))
      [apiv1.mkVolumeMount oktetoSecretVolume "/var/syncthing/secret/";
       apiv1.mkVolumeMount (GetVolumeTemplateName 0) oktetoMount]
      [apiv1.mkContainerPort syncGUIPort; apiv1.mkContainerPort syncTCPPort] in
  let securityContext :=
    match SecurityContext dv with
    | Some sc => Some (mkPodSecurityContext (RunAsUser sc) (RunAsGroup sc) (FSGroup sc))
    | None => dp_SecurityContext d
    end in
  claims ← translateVolumeClaimTemplates (resource_library H) h dev;
  Done ((fun claims : list apiv1.PersistentVolumeClaim =>
           mkStatefulSet name (Namespace dv) name "Parallel" 1
             {[ oktetoSyncLabel := Name dv ]} {[ oktetoSyncLabel := Name dv ]}
             0 securityContext (dp_ImagePullSecrets d)
             [initContainer] [sidecar]
             [mkSecretVolume oktetoSecretVolume (secrets_GetSecretName H dv)]
             (dp_NodeSelector d) (dp_Affinity d) claims)
          <$> (claims : option (list apiv1.PersistentVolumeClaim))).

(** Helpers to run the translation with: the library answers its format
    error on the strings that are not computed. *)
Definition plain_helpers : helpers :=
  mkHelpers path.Join (fun d => "okteto-" +:+ Name d) resource.format_errors.

End k8s_set.

(** ** Package [model] of cnd : the swap manifest (model/dev.go)

    The file holds the [Dev] of the first versions of the tool and, after it,
    the translation of a deployment ([Deployment] and its helpers). *)

Module cnd_model.

(** The part of [appsv1.Deployment] that [Deployment] reads or writes. *)
Record ObjectMeta : Type := mkObjectMeta {
  om_Name : string;
  om_Labels : option (gmap string string)
}.

Record LabelSelector : Type := mkLabelSelector {
  MatchLabels : option (gmap string string)
}.

Record PodSpec : Type := mkPodSpec {
  Containers : list apiv1.Container;
  Volumes : list apiv1.Volume
}.

Record PodTemplateSpec : Type := mkPodTemplateSpec {
  t_ObjectMeta : ObjectMeta;
  t_Spec : PodSpec
}.

(** [Selector] is a pointer. *)
Record K8sDeployment : Type := mkK8sDeployment {
  d_ObjectMeta : ObjectMeta;
  Selector : option LabelSelector;
  Template : PodTemplateSpec
}.

Record deployment : Type := mkdeployment {
  File : string;
  Container : string;
  Image : string;
  Command : list string;
  Args : list string
}.

Record mount : Type := mkmount { Source : string; Target : string }.

(** [swap] also has a [Service] field, of a type declared in a file that
    is not part of the sources at hand; nothing here reads it. *)
Record swap : Type := mkswap { Deployment_ : deployment }.

Record Dev : Type := mkDev {
  Name : string;
  Swap : swap;
  Mount : mount
}.

(** What the package asks of the operating system. *)
Record system : Type := mkSystem {
  os_Getwd : string;
  path_Join : list string → string;
  (** [os.Open] at a path: [None] when the file opens, and otherwise the
      error, which is a [*os.PathError] that names the path. *)
  os_Open : string → error;
  (** What [dec.Decode(&d)] leaves in [d] for the file at a path.  The error
      of [Decode] is dropped (line 124). *)
  decoded : string → K8sDeployment
}.

(** [labels["cnd"] = name], with the map created when it is nil (lines
    127-133 and 142-148). *)
Definition set_cnd_label (name : string) (labels : option (gmap string string))
    : option (gmap string string) :=
  match labels with
  | None => Some {[ "cnd" := name ]}
  | Some m => Some (<["cnd" := name]> m)
  end.

(** lines 163-179 *)
Definition updateCndContainer (dev : Dev) (c : apiv1.Container) : apiv1.Container :=
  apiv1.mkContainer
    (apiv1.c_Name c)
    (Image (Deployment_ (Swap dev)))
    apiv1.PullIfNotPresent
    (Command (Deployment_ (Swap dev)))
    (Args (Deployment_ (Swap dev)))
    (Target (Mount dev))
    (apiv1.c_VolumeMounts c ++ [apiv1.mkVolumeMount "cnd-sync" (Target (Mount dev))])%list
    (apiv1.c_Ports c)
    (apiv1.c_Env c).

(** The loop of lines 150-155: the first container that matches is
    updated, the others are left alone. *)
Fixpoint update_first (dev : Dev) (cs : list apiv1.Container) : list apiv1.Container :=
  match cs with
  | [] => []
  | c :: cs =>
      if bool_decide (apiv1.c_Name c = Container (Deployment_ (Swap dev)) ∨
                      Container (Deployment_ (Swap dev)) = "")
      then updateCndContainer dev c :: cs
      else c :: update_first dev cs
  end.

Definition syncthingContainer : apiv1.Container :=
  apiv1.mkContainer "cnd-syncthing" "okteto/syncthing:latest" "" [] [] ""
    [apiv1.mkVolumeMount "cnd-sync" "/var/cnd-sync"]
    [apiv1.mkContainerPort 8384; apiv1.mkContainerPort 22000] [].

(** lines 181-203 *)
Definition createSyncthingContainer (spec : PodSpec) : PodSpec :=
  mkPodSpec (Containers spec ++ [syncthingContainer])%list (Volumes spec).

(** lines 205-214 *)
Definition createSyncthingVolume (spec : PodSpec) : PodSpec :=
  mkPodSpec (Containers spec) (Volumes spec ++ [apiv1.mkVolume "cnd-sync"])%list.

(** lines 126-160 of [Deployment]: what is done to the decoded deployment.
    Writing to the nil [MatchLabels] of a selector panics. *)
Definition translate (dev : Dev) (d : K8sDeployment) : exec K8sDeployment :=
  let meta := mkObjectMeta (Name dev) (set_cnd_label (Name dev) (om_Labels (d_ObjectMeta d))) in
  selector ←
    match Selector d with
    | None => Done (Some (mkLabelSelector (Some {[ "cnd" := Name dev ]})))
    | Some s =>
        match MatchLabels s with
        | None => Panic
        | Some m => Done (Some (mkLabelSelector (Some (<["cnd" := Name dev]> m))))
        end
    end;
  let tmeta := mkObjectMeta (Name dev)
                 (set_cnd_label (Name dev) (om_Labels (t_ObjectMeta (Template d)))) in
  let spec := t_Spec (Template d) in
  let spec := mkPodSpec (update_first dev (Containers spec)) (Volumes spec) in
  let spec := createSyncthingContainer spec in
  let spec := createSyncthingVolume spec in
  Done (mkK8sDeployment meta selector (mkPodTemplateSpec tmeta spec)).

(** The container that the loop of lines 150-155 looks for. *)
Definition selected (dev : Dev) (c : apiv1.Container) : Prop :=
  apiv1.c_Name c = Container (Deployment_ (Swap dev)) ∨
  Container (Deployment_ (Swap dev)) = "".

(** The path [Deployment] opens (lines 117-118). *)
Definition deployment_path (S : system) (dev : Dev) : string :=
  path_Join S [os_Getwd S; File (Deployment_ (Swap dev))].

(** lines 115-161 *)
Definition Deployment (S : system) (dev : Dev) : exec (option K8sDeployment * error) :=
  let cwd := os_Getwd S in
  let file := path_Join S [cwd; File (Deployment_ (Swap dev))] in
  match os_Open S file with
  | Some err => Done (None, Some err)
  | None =>
      d ← translate dev (decoded S file);
      Done (Some d, None)
  end.

(** The deployment file of [dev] opens and holds the deployment [d]. *)
Definition holds (S : system) (dev : Dev) (d : K8sDeployment) : Prop :=
  os_Open S (deployment_path S dev) = None ∧ decoded S (deployment_path S dev) = d.

(** *** Reading the manifest (lines 30-94) *)

(** [os.Stat]: the file information (here whether the path is a
    directory), the error that [os.IsNotExist] recognises, or another
    error. *)
Inductive stat_result : Type :=
  | Info (isDir : bool)
  | NotExist
  | OtherError.

(** What reading the manifest asks of the libraries. *)
Record disk : Type := mkDisk {
  ioutil_ReadFile : string → list Byte.byte + goerror;
  (** [yaml.Unmarshal(b, &dev)]: the struct after decoding into it, or the
      error *)
  yaml_Unmarshal : list Byte.byte → Dev → Dev + goerror;
  os_Stat : string → stat_result;
  filepath_IsAbs : string → bool;
  path_Dir : string → string
}.

(** lines 30-45.  With an error of [os.Stat] that is not a missing file,
    [file] is nil, and [file.Mode()] panics. *)
Definition validate (K : disk) (dev : Dev) : exec error :=
  match os_Stat K (Source (Mount dev)) with
  | NotExist => Done (Some (Errorf "Source mount folder does not exists"))
  | OtherError => Panic
  | Info isDir =>
      if negb isDir then Done (Some (Errorf "Source mount folder is not a directory"))
      else if bool_decide (File (Deployment_ (Swap dev)) = "")
      then Done (Some (Errorf "Swap deployment file cannot be empty"))
      else if bool_decide (Image (Deployment_ (Swap dev)) = "")
      then Done (Some (Errorf "Swap deployment image cannot be empty"))
      else Done None
  end.

(** The struct [loadDev] decodes into (lines 60-71). *)
Definition loadDev_init : Dev :=
  mkDev "" (mkswap (mkdeployment "" "" "" ["tail"] ["-f"; "/dev/null"]))
    (mkmount "." "/src").

(** lines 59-83 *)
Definition loadDev (K : disk) (b : list Byte.byte) : exec (option Dev * error) :=
  match yaml_Unmarshal K b loadDev_init with
  | inr err => Done (None, Some err)
  | inl dev =>
      err ← validate K dev;
      match err with
      | Some _ => Done (None, err)
      | None => Done (Some dev, None)
      end
  end.

(** lines 85-94 *)
Definition fixPath (K : disk) (S : system) (dev : Dev) (originalPath : string) : Dev :=
  if negb (filepath_IsAbs K (Source (Mount dev))) then
    if filepath_IsAbs K originalPath
    then mkDev (Name dev) (Swap dev)
           (mkmount (path_Join S [path_Dir K originalPath; Source (Mount dev)])
                    (Target (Mount dev)))
    else mkDev (Name dev) (Swap dev)
           (mkmount (path_Join S [os_Getwd S; path_Dir K originalPath; Source (Mount dev)])
                    (Target (Mount dev)))
  else dev.

(** lines 47-57.  The error of [loadDev] is dropped, and [d.fixPath] is
    called on what it returned: on a nil [d] it panics. *)
Definition ReadDev (K : disk) (S : system) (devPath : string) : exec (option Dev * error) :=
  match ioutil_ReadFile K devPath with
  | inr err => Done (None, Some err)
  | inl b =>
      '(d, _) ← loadDev K b;
      match d with
      | None => Panic
      | Some dev => Done (Some (fixPath K S dev devPath), None)
      end
  end.

End cnd_model.

(** ** Package [cmd] : the [up] command (unnamed/part_003) *)

Module cmd.

(** The states written to the state file.  The constants and
    [updateStateFile] are declared in a file of the package that is not
    part of the sources at hand; the names are the ones [up.go] uses. *)
Inductive ActivationState : Type :=
  | activating | starting | attaching | pulling
  | startingSync | synchronizing | ready | failed.

#[global] Instance ActivationState_eq_dec : EqDecision ActivationState.
Proof. solve_decision. Defined.

(** A receive of the [select] of [WaitUntilExitOrInterrupt]: which channel
    delivered, and what. *)
Inductive event : Type :=
  | Running_ (err : error)
  | ErrChan_ (err : error)
  | Disconnect_.

(** What one goroutine does that others can observe, in program order.
    Log lines are recorded where a property speaks of them; the spinner,
    which only draws on the terminal, is left out. *)
Inductive action : Type :=
  | UpdateStateFile (s : ActivationState)
  | GoReporter                        (* go func() { ... } of devMode, lines 399-412 *)
  | ReporterSend (message : string)   (* reporter <- message, inside MonitorDevPod *)
  | ReporterClose                     (* the deferred close(reporter) *)
  | GoCleanCommand
  | GoRunCommand                      (* go func() { <-cleaned; Running <- runCommand() } *)
  | GoMonitor
  | ForwarderAdd (local remote : Z)
  | ForwarderStart
  | Recv (e : event)
  | Println
  | LogInfo (s : string)
  | LogInfof (s : string) (e : goerror)
  | LogYellow (e : goerror)           (* log.Yellow(err.Error()) *)
  | LogYellowText (s : string)
  | LogSuccess (s : string)
  | Shutdown.

Definition ClusterPort : Z := 22000.
Definition GUIPort : Z := 8384.

(** The fields of [syncthing.Syncthing] that [up.go] reads. *)
Record Syncthing : Type := mkSyncthing {
  RemotePort : Z;
  RemoteGUIPort : Z;
  LogPath : string;
  Type_ : string
}.

(** Modelled from the spec: the port-forward manager of package [forward]
    is not part of the sources at hand.  It owns the registered pairs
    local port / remote port, in the order of registration, and [Add]
    fails if the local port is already registered. *)
Record PortForwardManager : Type := mkPortForwardManager { ports : list (Z * Z) }.

Definition NewPortForwardManager : PortForwardManager := mkPortForwardManager [].

Definition PortForwardManager_Add (p : PortForwardManager) (local remote : Z)
    : PortForwardManager * error :=
  if bool_decide (local ∈ (ports p).*1)
  then (p, Some (Errorf ("port " +:+ pretty local +:+ " is already registered")))
  else (mkPortForwardManager (ports p ++ [(local, remote)])%list, None).

(** [UpContext].  The context owns its [Dev], which is held by value
    ([None] is the nil pointer).  [trace] is what the goroutine running the
    command has done so far. *)
Record UpContext : Type := mkUpContext {
  Dev : option model.Dev;
  isSwap : bool;
  retry : bool;
  Pod : string;
  Forwarder : option PortForwardManager;
  Sy : option Syncthing;
  remotePort : Z;
  success : bool;
  trace : list action
}.

Definition set_Dev (v : option model.Dev) (up : UpContext) : UpContext :=
  mkUpContext v (isSwap up) (retry up) (Pod up) (Forwarder up) (Sy up) (remotePort up) (success up) (trace up).
Definition set_retry (v : bool) (up : UpContext) : UpContext :=
  mkUpContext (Dev up) (isSwap up) v (Pod up) (Forwarder up) (Sy up) (remotePort up) (success up) (trace up).
Definition set_Pod (v : string) (up : UpContext) : UpContext :=
  mkUpContext (Dev up) (isSwap up) (retry up) v (Forwarder up) (Sy up) (remotePort up) (success up) (trace up).
Definition set_Forwarder (v : option PortForwardManager) (up : UpContext) : UpContext :=
  mkUpContext (Dev up) (isSwap up) (retry up) (Pod up) v (Sy up) (remotePort up) (success up) (trace up).
Definition set_Sy (v : option Syncthing) (up : UpContext) : UpContext :=
  mkUpContext (Dev up) (isSwap up) (retry up) (Pod up) (Forwarder up) v (remotePort up) (success up) (trace up).
Definition set_success (v : bool) (up : UpContext) : UpContext :=
  mkUpContext (Dev up) (isSwap up) (retry up) (Pod up) (Forwarder up) (Sy up) (remotePort up) v (trace up).
Definition set_trace (v : list action) (up : UpContext) : UpContext :=
  mkUpContext (Dev up) (isSwap up) (retry up) (Pod up) (Forwarder up) (Sy up) (remotePort up) (success up) v.

(** What the cluster, the synchroniser and the user do during one cycle:
    the results of the calls that leave the package. *)
Record world : Type := mkWorld {
  getCurrentDeployment : (string * bool) + goerror;   (* d.Name, create *)
  IsOktetoAllowed : bool;
  volumes_Create : error;
  GetDevContainer : option apiv1.Container;
  IsDevModeOn : bool;
  syncthing_New : Syncthing + goerror;
  secrets_Create : error;
  GetTranslations : list string + goerror;             (* the names, as ranged over *)
  TranslateDevMode : error;
  Deploy : string → bool → error;
  services_Create : error;
  GetDevPod : error;
  MonitorDevPod : list string * (string + goerror);    (* messages reported; pod name *)
  Forwarder_Start : error;
  ssh_AddEntry : error;
  Sy_Run : error;
  WaitForPing_local : error;
  WaitForPing_remote : error;
  WaitForScanning : error;
  WaitForCompletion : error;
  UpdateConfig : error;
  Restart : error;
  pods_Exists_after_sync : bool;
  pods_Exists_after_wait : bool;
  select_events : list event
}.

(** *** Statements and function bodies *)

Inductive outcome (A : Type) : Type :=
  | Ret (a : A) (up : UpContext)          (* goes on with the next statement *)
  | Return_ (e : error) (up : UpContext)  (* a [return e] of the function *)
  | Blocked (up : UpContext)              (* waits on a channel for good *)
  | Crash.
Arguments Ret {A} a up.
Arguments Return_ {A} e up.
Arguments Blocked {A} up.
Arguments Crash {A}.

Definition M (A : Type) : Type := UpContext → outcome A.

Definition ret {A} (a : A) : M A := fun up => Ret a up.

Definition bind {A B} (m : M A) (f : A → M B) : M B := fun up =>
  match m up with
  | Ret a up' => f a up'
  | Return_ e up' => Return_ e up'
  | Blocked up' => Blocked up'
  | Crash => Crash
  end.

Notation "x <- m ;; k" := (bind m (fun x => k))
  (at level 99, m at level 98, k at level 99, right associativity).
Notation "m ;;; k" := (bind m (fun _ => k))
  (at level 99, k at level 99, right associativity).

Definition return_ {A} (e : error) : M A := fun up => Return_ e up.

(** [if err != nil { return err }] *)
Definition check (e : error) : M unit :=
  match e with Some _ => return_ e | None => ret tt end.

(** Calling a function: its body runs to a [return]. *)
Definition call (body : M unit) : M error := fun up =>
  match body up with
  | Ret _ up' => Ret None up'
  | Return_ e up' => Ret e up'
  | Blocked up' => Blocked up'
  | Crash => Crash
  end.

(** [defer f()] followed by the rest of the function. *)
Definition defer_ {A} (f : UpContext → UpContext) (rest : M A) : M A := fun up =>
  match rest up with
  | Ret a up' => Ret a (f up')
  | Return_ e up' => Return_ e (f up')
  | Blocked up' => Blocked up'
  | Crash => Crash
  end.

Definition get : M UpContext := fun up => Ret up up.
Definition modify (f : UpContext → UpContext) : M unit := fun up => Ret tt (f up).
Definition crash {A} : M A := fun _ => Crash.

Definition record (a : action) (up : UpContext) : UpContext :=
  set_trace (trace up ++ [a])%list up.
Definition emit (a : action) : M unit := modify (record a).

Definition updateStateFile (s : ActivationState) : M unit := emit (UpdateStateFile s).

(** [for _, x := range l { body x }] *)
Fixpoint for_range {A} (l : list A) (body : A → M unit) : M unit :=
  match l with
  | [] => ret tt
  | x :: l => body x ;;; for_range l body
  end.

(** [up.Dev], dereferenced. *)
Definition theDev : M model.Dev := fun up =>
  match Dev up with Some d => Ret d up | None => Crash end.

Definition theSy : M Syncthing := fun up =>
  match Sy up with Some s => Ret s up | None => Crash end.

(** lines 67-73 *)
Definition remoteModeEnabled (up : UpContext) : bool :=
  match Dev up with
  | None => false
  | Some d => bool_decide (0 < model.RemotePort d)
  end.

(** [up.Forwarder.Add(local, remote)] with its [if err != nil]. *)
Definition Forwarder_Add (local remote : Z) : M unit :=
  emit (ForwarderAdd local remote) ;;;
  up <- get ;;
  match Forwarder up with
  | None => crash
  | Some p =>
      let '(p', err) := PortForwardManager_Add p local remote in
      modify (set_Forwarder (Some p')) ;;; check err
  end.

(** lines 419-445 of [devMode]: the forwards are registered and started. *)
Definition devMode_forwards (w : world) (dev : model.Dev) (sy : Syncthing) : M unit :=
  emit GoCleanCommand ;;;
  modify (set_Forwarder (Some NewPortForwardManager)) ;;;
  for_range (model.Forward dev) (fun f =>
    Forwarder_Add (model.f_Local f) (model.f_Remote f)) ;;;
  Forwarder_Add (RemotePort sy) ClusterPort ;;;
  Forwarder_Add (RemoteGUIPort sy) GUIPort ;;;
  emit ForwarderStart ;;;
  check (Forwarder_Start w) ;;;
  up <- get ;;
  (if remoteModeEnabled up then check (ssh_AddEntry w) else ret tt) ;;;
  return_ None.

(** lines 392-445 of [devMode]: the pod is awaited, with the goroutine that
    reports its progress, then the forwards are set up. *)
Definition devMode_pod (w : world) (dev : model.Dev) (sy : Syncthing) : M unit :=
  check (GetDevPod w) ;;;
  defer_ (record ReporterClose) (
    emit GoReporter ;;;
    for_range (fst (MonitorDevPod w)) (fun m => emit (ReporterSend m)) ;;;
    match snd (MonitorDevPod w) with
    | inr e => return_ (Some e)
    | inl pod =>
        modify (set_Pod pod) ;;;
        devMode_forwards w dev sy
    end).

(** lines 351-390 of [devMode]: the synchroniser handle, the secret and the
    translated deployments. *)
Definition devMode_deploy (w : world) (dev : model.Dev) (d_Name : string) (create : bool)
    : M Syncthing :=
  match syncthing_New w with
  | inr e => return_ (Some e)
  | inl sy =>
      modify (set_Sy (Some sy)) ;;;
      check (secrets_Create w) ;;;
      match GetTranslations w with
      | inr e => return_ (Some e)
      | inl tr =>
          check (TranslateDevMode w) ;;;
          for_range tr (fun name =>
            if bool_decide (name = d_Name) then check (Deploy w name create)
            else check (Deploy w name false)) ;;;
          (if create && bool_decide (length (model.Services dev) = 0%nat)
           then check (services_Create w) else ret tt) ;;;
          ret sy
      end
  end.

(** lines 322-446 *)
Definition devMode (w : world) (d_Name : string) (create : bool) : M unit :=
  updateStateFile activating ;;;
  (if IsOktetoAllowed w then ret tt
   else return_ (Some (Errorf "`okteto up` is not allowed in this namespace"))) ;;;
  check (volumes_Create w) ;;;
  dev <- theDev ;;
  match GetDevContainer w with
  | None => return_ (Some (Errorf ("Container '" +:+ model.Container dev
              +:+ "' does not exist in deployment '" +:+ model.Name dev +:+ "'")))
  | Some devContainer =>
      let dev := model.set_Container (apiv1.c_Name devContainer) dev in
      let dev := if bool_decide (model.Image dev = "")
                 then model.set_Image (apiv1.c_Image devContainer) dev else dev in
      modify (set_Dev (Some dev)) ;;;
      up <- get ;;
      (if retry up && negb (IsDevModeOn w)
       then return_ (Some (Errorf "Development environment has been deactivated"))
       else ret tt) ;;;
      updateStateFile starting ;;;
      sy <- devMode_deploy w dev d_Name create ;;
      devMode_pod w dev sy
  end.

(** lines 460-486 *)
Definition startLocalSyncthing (w : world) : M unit :=
  updateStateFile startingSync ;;;
  _ <- theSy ;;
  check (Sy_Run w) ;;;
  check (WaitForPing_local w) ;;;
  match WaitForPing_remote w with
  | Some _ => return_ (Some (UserError
                (Errorf "Failed to connect to the synchronization service")
                ("If you are using a non-root container, set the securityContext.runAsUser, securityContext.runAsGroup and securityContext.fsGroup fields in your Okteto manifest (https://okteto.com/docs/reference/manifest/index.html#securityContext-object-optional)."
                 +:+ newline
                 +:+ "    Run 'okteto down -v' to reset the synchronization service and try again.")))
  | None =>
      check (WaitForScanning w) ;;;
      return_ None
  end.

(** lines 488-535.  The goroutine that draws the progress bar writes to the
    terminal only. *)
Definition synchronizeFiles (w : world) : M unit :=
  updateStateFile synchronizing ;;;
  sy <- theSy ;;
  match WaitForCompletion w with
  | Some err =>
      if bool_decide (err = ErrSyncFrozen)
      then return_ (Some (UserError err
             ("Help us improve okteto by filing an issue in https://github.com/okteto/okteto/issues/new."
              +:+ newline
              +:+ "    Please include your syncthing log ("
              +:+ LogPath sy +:+ ") if possible.")))
      else return_ (Some err)
  | None =>
      modify (set_Sy (Some (mkSyncthing (RemotePort sy) (RemoteGUIPort sy) (LogPath sy)
                              "sendreceive"))) ;;;
      check (UpdateConfig w) ;;;
      emit GoMonitor ;;;
      return_ (Restart w)
  end.

(** lines 448-458 *)
Definition sync (w : world) : M unit :=
  err <- call (startLocalSyncthing w) ;;
  check err ;;;
  err <- call (synchronizeFiles w) ;;
  check err ;;;
  return_ None.

(** lines 299-320.  The function is run on the receives its [select]
    makes, in order; [None] is a wait that none of them ended.  A nil error
    on [ErrChan] has no [Error] method to call. *)
Inductive wait_result : Type :=
  | Returned (err : error)
  | Waiting
  | Panicked.

Fixpoint WaitUntilExitOrInterrupt (events : list event) : wait_result * list action :=
  match events with
  | [] => (Waiting, [])
  | Running_ err :: _ =>
      match err with
      | Some e =>
          (Returned (Some ErrCommandFailed),
           [Recv (Running_ err); Println; LogInfof "Command execution error: %s" e])
      | None =>
          (Returned None,
           [Recv (Running_ err); Println;
            LogInfo "Command finished execution without any errors"])
      end
  | ErrChan_ err :: events =>
      match err with
      | Some e =>
          let '(r, out) := WaitUntilExitOrInterrupt events in
          (r, Recv (ErrChan_ err) :: LogYellow e :: out)
      | None => (Panicked, [Recv (ErrChan_ err)])
      end
  | Disconnect_ :: _ =>
      (Returned (Some ErrLostConnection), [Recv Disconnect_])
  end.

(** The call [up.WaitUntilExitOrInterrupt()] inside [Activate]. *)
Definition wait (w : world) : M error := fun up =>
  let '(r, out) := WaitUntilExitOrInterrupt (select_events w) in
  let up' := set_trace (trace up ++ out)%list up in
  match r with
  | Returned e => Ret e up'
  | Waiting => Blocked up'
  | Panicked => Crash
  end.

(** How one turn of the loop of [Activate] ends: [continue], or a value
    sent to [up.Exit]. *)
Inductive turn_end : Type :=
  | Continue
  | Exit (e : error).

Definition ReconnectingNotice : string :=
  "Connection lost to your development environment, reconnecting...".

(** lines 194-260: one turn of the loop of [Activate]. *)
Definition Activate_turn (w : world) : M turn_end :=
  match getCurrentDeployment w with
  | inr e => ret (Exit (Some e))
  | inl (d_Name, create) =>
      err <- call (devMode w d_Name create) ;;
      match err with
      | Some _ => ret (Exit err)
      | None =>
          emit (LogSuccess "Development environment activated") ;;;
          err <- call (sync w) ;;
          match err with
          | Some _ =>
              if negb (pods_Exists_after_sync w)
              then emit (LogYellowText ReconnectingNotice) ;;; emit Shutdown ;;; ret Continue
              else ret (Exit err)
          | None =>
              modify (set_success true) ;;;
              modify (set_retry true) ;;;
              emit GoRunCommand ;;;
              prevError <- wait w ;;
              if bool_decide (prevError ≠ None) &&
                 (bool_decide (prevError = Some ErrLostConnection) ||
                  (bool_decide (prevError = Some ErrCommandFailed) &&
                   negb (pods_Exists_after_wait w)))
              then emit (LogYellowText ReconnectingNotice) ;;; emit Shutdown ;;; ret Continue
              else ret (Exit prevError)
          end
      end
  end.

(** One activation cycle as the state file sees it: a turn of [Activate],
    and the [up.updateStateFile(failed)] of [RunUp] (lines 152-159) when the
    turn sends an error to [up.Exit]. *)
Definition cycle (w : world) : M turn_end :=
  r <- Activate_turn w ;;
  match r with
  | Exit (Some _) => updateStateFile failed ;;; ret r
  | _ => ret r
  end.

Definition trace_of {A} (o : outcome A) : option (list action) :=
  match o with
  | Ret _ up | Return_ _ up | Blocked up => Some (trace up)
  | Crash => None
  end.

(** *** The goroutines that write the state file

    The goroutine started by [devMode] (lines 399-412) writes [attaching],
    then receives from [reporter] until it gets the empty string, writing
    [pulling] for every message that starts with [Pulling].  The goroutine
    started by [Activate] (lines 237-240) writes [ready] on entering
    [runCommand] (line 559); the command it then runs ends before
    [Running] delivers. *)
Inductive reporter_state : Type :=
  | RNone                  (* not started *)
  | RStart                 (* started, about to write [attaching] *)
  | RReceive               (* at [message = <-reporter] *)
  | RHave (message : string)   (* holds a message it has not looked at *)
  | RDone.

Inductive runner_state : Type :=
  | NotStarted
  | Started                (* about to write [ready] *)
  | Running.

Record config : Type := mkConfig {
  todo : list action;          (* what the goroutine of [Activate] still has to do *)
  reporter : reporter_state;
  closed : bool;               (* [reporter] channel closed *)
  runner : runner_state;
  file : list ActivationState  (* the values written to the state file, oldest first *)
}.

Inductive thread : Type := TMain | TReporter | TRunner.

(** One step of the goroutine the scheduler picks; [None] if that goroutine
    cannot move (it is blocked, done, or not started). *)
Definition step (t : thread) (c : config) : option config :=
  match t with
  | TMain =>
      match todo c with
      | [] => None
      | a :: rest =>
          match a with
          | UpdateStateFile s =>
              Some (mkConfig rest (reporter c) (closed c) (runner c) (file c ++ [s])%list)
          | GoReporter =>
              Some (mkConfig rest RStart (closed c) (runner c) (file c))
          | ReporterSend m =>
              match reporter c with
              | RReceive => Some (mkConfig rest (RHave m) (closed c) (runner c) (file c))
              | _ => None
              end
          | ReporterClose =>
              Some (mkConfig rest (reporter c) true (runner c) (file c))
          | GoRunCommand =>
              Some (mkConfig rest (reporter c) (closed c) Started (file c))
          | Recv (Running_ _) =>
              match runner c with
              | Running => Some (mkConfig rest (reporter c) (closed c) (runner c) (file c))
              | _ => None
              end
          | _ => Some (mkConfig rest (reporter c) (closed c) (runner c) (file c))
          end
      end
  | TReporter =>
      match reporter c with
      | RStart =>
          Some (mkConfig (todo c) RReceive (closed c) (runner c) (file c ++ [attaching])%list)
      | RReceive =>
          if closed c then Some (mkConfig (todo c) (RHave "") (closed c) (runner c) (file c))
          else None
      | RHave m =>
          if bool_decide (m = "") then
            Some (mkConfig (todo c) RDone (closed c) (runner c) (file c))
          else if String.prefix "Pulling" m then
            Some (mkConfig (todo c) RReceive (closed c) (runner c) (file c ++ [pulling])%list)
          else
            Some (mkConfig (todo c) RReceive (closed c) (runner c) (file c))
      | RNone | RDone => None
      end
  | TRunner =>
      match runner c with
      | Started =>
          Some (mkConfig (todo c) (reporter c) (closed c) Running (file c ++ [ready])%list)
      | _ => None
      end
  end.

(** A schedule is the list of the goroutines picked, in order. *)
Fixpoint run (schedule : list thread) (c : config) : option config :=
  match schedule with
  | [] => Some c
  | t :: schedule =>
      match step t c with
      | Some c' => run schedule c'
      | None => None
      end
  end.

Definition initial (main : list action) : config :=
  mkConfig main RNone false NotStarted [].

(** The order the states are to respect; [failed] may follow any of them. *)
Definition rank (s : ActivationState) : nat :=
  match s with
  | activating => 0 | starting => 1 | attaching => 2 | pulling => 3
  | startingSync => 4 | synchronizing => 5 | ready => 6 | failed => 7
  end%nat.

Fixpoint no_regression (l : list ActivationState) : bool :=
  match l with
  | [] => true
  | s :: l' =>
      match l' with
      | [] => true
      | s' :: _ => bool_decide (rank s ≤ rank s')%nat && no_regression l'
      end
  end.

(** The context [RunUp] starts with (lines 130-133). *)
Definition RunUp_context (dev : model.Dev) : UpContext :=
  mkUpContext (Some dev) false false "" None None 0 false [].

End cmd.

(** ** Package [encoding/json] (the part used)

    JSON values, the compact text that [json.Marshal] writes for them and
    the reading of that text back.  The package is a library that is not
    part of the sources; the text is JSON as RFC 8259 defines it, without
    white space.  Fractions and exponents of numbers are left out: the
    values encoded in this development hold integers only. *)

Module json.

Inductive value : Type :=
  | Null
  | Bool (b : bool)
  | Number (n : Z)
  | Str (s : string)
  | Array (l : list value)
  | Object (l : list (string * value)).

Definition quote : ascii := "034"%char.
Definition backslash : ascii := "\"%char.

Definition hex_char (n : N) : ascii :=
  match n with
  | 0 => "0" | 1 => "1" | 2 => "2" | 3 => "3" | 4 => "4" | 5 => "5" | 6 => "6"
  | 7 => "7" | 8 => "8" | 9 => "9" | 10 => "a" | 11 => "b" | 12 => "c"
  | 13 => "d" | 14 => "e" | _ => "f"
  end%char%N.

Definition hex_val (c : ascii) : option N :=
  let n := N_of_ascii c in
  if bool_decide (48 ≤ n ≤ 57)%N then Some (n - 48)%N
  else if bool_decide (97 ≤ n ≤ 102)%N then Some (n - 87)%N
  else if bool_decide (65 ≤ n ≤ 70)%N then Some (n - 55)%N
  else None.

(** A character inside a string literal: the quote, the backslash and the
    control characters are escaped. *)
Definition escape (c : ascii) : string :=
  if bool_decide (c = quote) then String backslash (String quote "")
  else if bool_decide (c = backslash) then String backslash (String backslash "")
  else if bool_decide (N_of_ascii c < 32)%N then
    String backslash
      (String "u" (String "0" (String "0"
         (String (hex_char (N_of_ascii c / 16)) (String (hex_char (N_of_ascii c mod 16)) "")))))
  else String c "".

Fixpoint escape_all (s : string) : string :=
  match s with
  | EmptyString => ""
  | String c s => escape c +:+ escape_all s
  end.

Definition print_string (s : string) : string :=
  String quote (escape_all s +:+ String quote "").

(** The members of an array or of an object are separated by commas. *)
Fixpoint print (v : value) : string :=
  match v with
  | Null => "null"
  | Bool true => "true"
  | Bool false => "false"
  | Number n => pretty n
  | Str s => print_string s
  | Array l => "[" +:+ String.concat "," (map print l) +:+ "]"
  | Object l =>
      "{" +:+
      String.concat "," (map (fun kv => print_string kv.1 +:+ ":" +:+ print kv.2) l)
      +:+ "}"
  end.

(** *** Reading *)

Definition digit_val (c : ascii) : option N :=
  let n := N_of_ascii c in
  if bool_decide (48 ≤ n ≤ 57)%N then Some (n - 48)%N else None.

(** The leading digits of [s], after the value [acc] of those read. *)
Fixpoint read_digits (acc : N) (s : string) : N * string :=
  match s with
  | String c r =>
      match digit_val c with
      | Some d => read_digits (10 * acc + d) r
      | None => (acc, s)
      end
  | EmptyString => (acc, s)
  end.

(** A text that does not go on with a digit. *)
Definition ends_number (rest : string) : Prop :=
  match rest with
  | EmptyString => True
  | String c _ => digit_val c = None
  end.

(** A string literal after its opening quote: the characters up to the
    closing quote, and what follows it. *)
Fixpoint read_string (s : string) : option (string * string) :=
  match s with
  | EmptyString => None
  | String c r =>
      if bool_decide (c = quote) then Some ("", r)
      else if bool_decide (c = backslash) then
        match r with
        | String e r =>
            if bool_decide (e = "u"%char) then
              match r with
              | String h1 (String h2 (String h3 (String h4 r))) =>
                  match hex_val h1, hex_val h2, hex_val h3, hex_val h4 with
                  | Some 0%N, Some 0%N, Some a, Some b =>
                      '(str, rest) ← read_string r;
                      Some (String (ascii_of_N (16 * a + b)) str, rest)
                  | _, _, _, _ => None
                  end
              | _ => None
              end
            else
              c' ← (if bool_decide (e = quote) then Some quote
                    else if bool_decide (e = backslash) then Some backslash
                    else if bool_decide (e = "/"%char) then Some "/"%char
                    else if bool_decide (e = "b"%char) then Some "008"%char
                    else if bool_decide (e = "f"%char) then Some "012"%char
                    else if bool_decide (e = "n"%char) then Some "010"%char
                    else if bool_decide (e = "r"%char) then Some "013"%char
                    else if bool_decide (e = "t"%char) then Some "009"%char
                    else None);
              '(str, rest) ← read_string r;
              Some (String c' str, rest)
        | EmptyString => None
        end
      else
        '(str, rest) ← read_string r;
        Some (String c str, rest)
  end.

Definition read_number (s : string) : option (value * string) :=
  match s with
  | String c r =>
      if bool_decide (c = "-"%char) then
        match r with
        | String d _ =>
            if bool_decide (is_Some (digit_val d))
            then let '(n, rest) := read_digits 0 r in Some (Number (- Z.of_N n), rest)
            else None
        | EmptyString => None
        end
      else if bool_decide (is_Some (digit_val c))
      then let '(n, rest) := read_digits 0 s in Some (Number (Z.of_N n), rest)
      else None
  | EmptyString => None
  end.

(** A value at the head of [s], and what follows it.  [fuel] bounds the
    number of values read. *)
Fixpoint parse (fuel : nat) (s : string) : option (value * string) :=
  match fuel with
  | O => None
  | S fuel =>
      match s with
      | String "n" (String "u" (String "l" (String "l" r))) => Some (Null, r)
      | String "t" (String "r" (String "u" (String "e" r))) => Some (Bool true, r)
      | String "f" (String "a" (String "l" (String "s" (String "e" r)))) =>
          Some (Bool false, r)
      | String "[" (String "]" r) => Some (Array [], r)
      | String "[" r => '(l, rest) ← parse_elements fuel r; Some (Array l, rest)
      | String "{" (String "}" r) => Some (Object [], r)
      | String "{" r => '(l, rest) ← parse_members fuel r; Some (Object l, rest)
      | String c r =>
          if bool_decide (c = quote)
          then '(str, rest) ← read_string r; Some (Str str, rest)
          else read_number s
      | EmptyString => None
      end
  end
with parse_elements (fuel : nat) (s : string) : option (list value * string) :=
  match fuel with
  | O => None
  | S fuel =>
      '(v, r) ← parse fuel s;
      match r with
      | String "," r => '(l, rest) ← parse_elements fuel r; Some (v :: l, rest)
      | String "]" r => Some ([v], r)
      | _ => None
      end
  end
with parse_members (fuel : nat) (s : string) : option (list (string * value) * string) :=
  match fuel with
  | O => None
  | S fuel =>
      match s with
      | String c r =>
          if bool_decide (c = quote) then
            '(k, r) ← read_string r;
            match r with
            | String ":" r =>
                '(v, r) ← parse fuel r;
                match r with
                | String "," r =>
                    '(l, rest) ← parse_members fuel r; Some ((k, v) :: l, rest)
                | String "}" r => Some ([(k, v)], r)
                | _ => None
                end
            | _ => None
            end
          else None
      | EmptyString => None
      end
  end.

(** The value that the whole of [s] is the text of. *)
Definition read (s : string) : option value :=
  match parse (S (String.length s)) s with
  | Some (v, EmptyString) => Some v
  | _ => None
  end.

(** The number of values in a value. *)
Fixpoint size (v : value) : nat :=
  match v with
  | Array l => S (foldr (fun x n => S (size x + n)) O l)
  | Object l => S (foldr (fun x n => S (size x.2 + n)) O l)
  | _ => 1
  end.

(** The text of [v], read with enough fuel, gives [v] and leaves what
    follows the text. *)
Definition read_back (v : value) : Prop :=
  ∀ fuel rest, (size v ≤ fuel)%nat → ends_number rest →
    parse fuel (print v +:+ rest) = Some (v, rest).

(** The member [k] of an object. *)
Fixpoint member (k : string) (l : list (string * value)) : option value :=
  match l with
  | [] => None
  | (k', v) :: l => if String.eqb k' k then Some v else member k l
  end.

Definition as_string (v : value) : option string :=
  match v with Str s => Some s | _ => None end.
Definition as_number (v : value) : option Z :=
  match v with Number n => Some n | _ => None end.
Definition as_array (v : value) : option (list value) :=
  match v with Array l => Some l | _ => None end.
Definition as_object (v : value) : option (list (string * value)) :=
  match v with Object l => Some l | _ => None end.

End json.

(** ** The overlay: translation and restoration of a deployment

    The translator that captures the original pod specification in an
    annotation, and the restoration that [down] performs from it, belong to
    package [deployments], which is not part of the sources at hand (its
    callers are: [up.go] calls [GetTranslations], [TranslateDevMode] and
    [Deploy]).  This module follows the specification, sections 3, 4.1 and 6;
    the annotation is JSON text, written and read by the module [json]. *)

Module overlay.

Definition OriginalSpecAnnotation : string := "dev.okteto.com/original-spec".
Definition RestartAnnotation : string := "dev.okteto.com/restart".

Record VolumeMount : Type := mkVolumeMount {
  vm_Name : string; vm_MountPath : string; vm_SubPath : string
}.

Record Container : Type := mkContainer {
  c_Name : string;
  c_Image : string;
  c_ImagePullPolicy : string;
  c_Command : list string;
  c_Args : list string;
  c_WorkingDir : string;
  c_Env : list (string * string);
  c_VolumeMounts : list VolumeMount;
  c_Ports : list Z;
  c_Requests : list (string * string);
  c_Limits : list (string * string);
  (** the liveness and readiness probes, [None] when there is none *)
  c_Probes : option string
}.

(** A pod volume: backed by a persistent volume claim or by a secret. *)
Inductive Volume : Type :=
  | ClaimVolume (name claim : string)
  | SecretVolume (name secret : string).

Record PodSpec : Type := mkPodSpec {
  InitContainers : list Container;
  Containers : list Container;
  Volumes : list Volume
}.

(** A deployment: its metadata and the pod specification of its template.
    Annotations are seen as they are serialised: no annotations and an
    empty map are the same. *)
Record Deployment : Type := mkDeployment {
  d_Name : string;
  d_Namespace : string;
  d_Annotations : gmap string string;
  d_Spec : PodSpec
}.

(** The part of a DevSpec the translator reads.  A service is a DevSpec
    without services of its own (section 3), so the fields that a DevSpec
    and its services share are a record of their own. *)
Record ContainerSpec : Type := mkContainerSpec {
  s_Name : string;
  (** the annotations of the manifest; a forced pull stores its restart
      UUID here ([LoadForcePull], pkg/model/dev.go lines 308-318) *)
  s_Annotations : gmap string string;
  s_Container : string;
  s_Image : string;
  s_ImagePullPolicy : string;
  s_Environment : list (string * string);
  s_Command : list string;
  s_WorkDir : string;
  s_MountPath : string;
  s_SubPath : string;
  s_Volumes : list (string * string);      (* sub-path, mount path *)
  s_RemotePort : Z;
  s_RemoteForward : list (Z * Z);
  s_DevPath : string
}.

Record DevSpec : Type := mkDevSpec {
  s_Main : ContainerSpec;
  s_Services : list ContainerSpec
}.

(** *** The JSON of a pod specification

    The text is the one of [json.print]: objects with the field names of
    the Kubernetes API, and [json.read] to read it back. *)

Definition mount_json (m : VolumeMount) : json.value :=
  json.Object [("name", json.Str (vm_Name m)); ("mountPath", json.Str (vm_MountPath m));
               ("subPath", json.Str (vm_SubPath m))].

Definition json_mount (v : json.value) : option VolumeMount :=
  o ← json.as_object v;
  n ← json.member "name" o ≫= json.as_string;
  p ← json.member "mountPath" o ≫= json.as_string;
  sp ← json.member "subPath" o ≫= json.as_string;
  Some (mkVolumeMount n p sp).

Definition strings_json (l : list string) : json.value := json.Array (json.Str <$> l).
Definition json_strings (v : json.value) : option (list string) :=
  l ← json.as_array v; mapM json.as_string l.

(** Environment variables: [{"name": ..., "value": ...}]. *)
Definition env_json (l : list (string * string)) : json.value :=
  json.Array ((fun kv => json.Object [("name", json.Str kv.1); ("value", json.Str kv.2)]) <$> l).
Definition json_env (v : json.value) : option (list (string * string)) :=
  l ← json.as_array v;
  mapM (fun x =>
    o ← json.as_object x;
    k ← json.member "name" o ≫= json.as_string;
    w ← json.member "value" o ≫= json.as_string;
    Some (k, w)) l.

(** A resource list: an object from resource name to quantity. *)
Definition resources_json (l : list (string * string)) : json.value :=
  json.Object ((fun kv => (kv.1, json.Str kv.2)) <$> l).
Definition json_resources (v : json.value) : option (list (string * string)) :=
  l ← json.as_object v;
  mapM (fun kv : string * json.value => w ← json.as_string kv.2; Some (kv.1, w)) l.

Definition ports_json (l : list Z) : json.value :=
  json.Array ((fun p => json.Object [("containerPort", json.Number p)]) <$> l).
Definition json_ports (v : json.value) : option (list Z) :=
  l ← json.as_array v;
  mapM (fun x => o ← json.as_object x; json.member "containerPort" o ≫= json.as_number) l.

Definition probes_json (p : option string) : json.value :=
  match p with Some s => json.Str s | None => json.Null end.
Definition json_probes (v : json.value) : option (option string) :=
  match v with
  | json.Null => Some None
  | json.Str s => Some (Some s)
  | _ => None
  end.

Definition container_json (c : Container) : json.value :=
  json.Object
    [("name", json.Str (c_Name c)); ("image", json.Str (c_Image c));
     ("imagePullPolicy", json.Str (c_ImagePullPolicy c));
     ("command", strings_json (c_Command c)); ("args", strings_json (c_Args c));
     ("workingDir", json.Str (c_WorkingDir c)); ("env", env_json (c_Env c));
     ("volumeMounts", json.Array (mount_json <$> c_VolumeMounts c));
     ("ports", ports_json (c_Ports c));
     ("resources", json.Object [("requests", resources_json (c_Requests c));
                                ("limits", resources_json (c_Limits c))]);
     ("probes", probes_json (c_Probes c))].

Definition json_container (v : json.value) : option Container :=
  o ← json.as_object v;
  name ← json.member "name" o ≫= json.as_string;
  image ← json.member "image" o ≫= json.as_string;
  policy ← json.member "imagePullPolicy" o ≫= json.as_string;
  command ← json.member "command" o ≫= json_strings;
  args ← json.member "args" o ≫= json_strings;
  dir ← json.member "workingDir" o ≫= json.as_string;
  env ← json.member "env" o ≫= json_env;
  ms ← json.member "volumeMounts" o ≫= json.as_array;
  mounts ← mapM json_mount ms;
  ports ← json.member "ports" o ≫= json_ports;
  res ← json.member "resources" o ≫= json.as_object;
  requests ← json.member "requests" res ≫= json_resources;
  limits ← json.member "limits" res ≫= json_resources;
  probes ← json.member "probes" o ≫= json_probes;
  Some (mkContainer name image policy command args dir env mounts ports requests limits
          probes).

Definition volume_json (v : Volume) : json.value :=
  match v with
  | ClaimVolume name claim =>
      json.Object [("name", json.Str name);
                   ("persistentVolumeClaim", json.Object [("claimName", json.Str claim)])]
  | SecretVolume name secret =>
      json.Object [("name", json.Str name);
                   ("secret", json.Object [("secretName", json.Str secret)])]
  end.

Definition json_volume (v : json.value) : option Volume :=
  o ← json.as_object v;
  name ← json.member "name" o ≫= json.as_string;
  match json.member "persistentVolumeClaim" o with
  | Some source =>
      src ← json.as_object source;
      claim ← json.member "claimName" src ≫= json.as_string;
      Some (ClaimVolume name claim)
  | None =>
      src ← json.member "secret" o ≫= json.as_object;
      secret ← json.member "secretName" src ≫= json.as_string;
      Some (SecretVolume name secret)
  end.

Definition spec_json (p : PodSpec) : json.value :=
  json.Object [("initContainers", json.Array (container_json <$> InitContainers p));
               ("containers", json.Array (container_json <$> Containers p));
               ("volumes", json.Array (volume_json <$> Volumes p))].

Definition json_spec (v : json.value) : option PodSpec :=
  o ← json.as_object v;
  ics ← json.member "initContainers" o ≫= json.as_array;
  inits ← mapM json_container ics;
  cs ← json.member "containers" o ≫= json.as_array;
  containers ← mapM json_container cs;
  vs ← json.member "volumes" o ≫= json.as_array;
  volumes ← mapM json_volume vs;
  Some (mkPodSpec inits containers volumes).

(** Modelled from the spec: the [JSON annotation] of step 2 of section 4.1,
    which holds the original pod specification: [json.Marshal] and
    [json.Unmarshal] at type [PodSpec]. *)
Definition marshal (p : PodSpec) : string := json.print (spec_json p).
Definition unmarshal (s : string) : option PodSpec := json.read s ≫= json_spec.

Definition RemoteModeEnabled (s : ContainerSpec) : bool :=
  bool_decide (0 < s_RemotePort s) || bool_decide (0 < length (s_RemoteForward s))%nat.

(** Modelled from the spec: step 1 of section 4.1, [select the target
    container: explicit name if provided; otherwise the first container],
    and the tie-break [if the same container name appears multiple times,
    only the first match is mutated].  The function applies [f] to the
    target; [None] when there is no target. *)
Fixpoint patch_target (name : string) (f : Container → Container) (cs : list Container)
    : option (list Container) :=
  match cs with
  | [] => None
  | c :: cs =>
      if bool_decide (name = "" ∨ c_Name c = name) then Some (f c :: cs)
      else (fun cs' => c :: cs') <$> patch_target name f cs
  end.

Definition sub_path (main s : ContainerSpec) : string :=
  if bool_decide (s_SubPath s = "") then s_Name main +:+ "/data-0"
  else s_Name main +:+ "/data-0/" +:+ s_SubPath s.

(** Modelled from the spec: step 3 of section 4.1, the dev-container patch:
    [replace image/command/args/workdir; append the volume mount onto the
    shared claim at mountPath with sub-path <name>/data-0[/<subPath>];
    append env vars for marker path and (if remote) remote port; set
    healthchecks off on the main container; force
    command=["/var/okteto/bin/start.sh"] with args=["-r"] when remote mode is
    enabled].  For a service (step 7) the healthchecks are kept and the
    command is the service's own. *)
Definition dev_patch (main s : ContainerSpec) (is_main : bool) (c : Container) : Container :=
  let mounts := (c_VolumeMounts c ++
                 [mkVolumeMount "okteto" (s_MountPath s) (sub_path main s)])%list in
  if is_main then
    mkContainer (c_Name c)
      (if bool_decide (s_Image s = "") then c_Image c else s_Image s)
      (s_ImagePullPolicy s)
      ["/var/okteto/bin/start.sh"]
      (if RemoteModeEnabled s then ["-r"] else [])
      (s_WorkDir s)
      (c_Env c ++ s_Environment s ++
       [("OKTETO_MARKER_PATH", s_MountPath s +:+ "/" +:+ s_DevPath s)] ++
       (if RemoteModeEnabled s
        then [("OKTETO_REMOTE_PORT", pretty (s_RemotePort s))] else []))%list
      mounts (c_Ports c) (c_Requests c) (c_Limits c) None
  else
    mkContainer (c_Name c)
      (if bool_decide (s_Image s = "") then c_Image c else s_Image s)
      (s_ImagePullPolicy s)
      (s_Command s) []
      (s_WorkDir s)
      (c_Env c ++ s_Environment s)%list
      mounts (c_Ports c) (c_Requests c) (c_Limits c) (c_Probes c).

(** Modelled from the spec: step 4 of section 4.1, the synchroniser
    sidecar: [standardised image, requests 50m/64Mi, limits 500m/256Mi,
    ports 22000 (cluster sync) and 8384 (GUI), mounts the secret volume at
    /var/syncthing/secret and the shared claim at /var/okteto]. *)
Definition sidecar : Container :=
  mkContainer "okteto" "okteto/syncthing:1.2.2" "" [] [] "" []
    [mkVolumeMount "okteto-secret" "/var/syncthing/secret" "";
     mkVolumeMount "okteto" "/var/okteto" ""]
    [22000; 8384]
    [("cpu", "50m"); ("memory", "64Mi")]
    [("cpu", "500m"); ("memory", "256Mi")] None.

(** Modelled from the spec: step 5 of section 4.1, the init container
    [whose command creates per-DevPath marker files and copies initial
    content from the image into the persistent claim the first time]. *)
Definition init_container (s : ContainerSpec) : Container :=
  mkContainer "okteto-init" (s_Image s) "" 
    ["sh"; "-c";
     "(ls /okteto/init | grep -v lost+found || cp -Rf " +:+ s_MountPath s
     +:+ "/* /okteto/init); touch /okteto/init/" +:+ s_DevPath s]
    [] "" [] [mkVolumeMount "okteto" "/okteto/init" ""] [] [] [] None.

(** Modelled from the spec: the volumes of the overlay, [a persistent
    volume claim template attached; a secret volume carrying the
    synchroniser's TLS material], and step 6, one claim [pvc-<i>] per extra
    declared volume. *)
Definition overlay_volumes (s : ContainerSpec) : list Volume :=
  ([ClaimVolume "okteto" "pvc-0"; SecretVolume "okteto-secret" ("okteto-" +:+ s_Name s)] ++
   imap (fun i _ => ClaimVolume ("okteto-" +:+ pretty (S i)) ("pvc-" +:+ pretty (S i)))
        (s_Volumes s))%list.

(** Step 7: the services, one after the other, each on its own target. *)
Fixpoint patch_services (main : ContainerSpec) (ss : list ContainerSpec) (cs : list Container)
    : option (list Container) :=
  match ss with
  | [] => Some cs
  | s :: ss =>
      cs ← patch_target (s_Container s) (dev_patch main s false) cs;
      patch_services main ss cs
  end.

Definition translate_spec (s : DevSpec) (p : PodSpec) : option PodSpec :=
  let m := s_Main s in
  cs ← patch_target (s_Container m) (dev_patch m m true) (Containers p);
  cs ← patch_services m (s_Services s) cs;
  Some (mkPodSpec (InitContainers p ++ [init_container m])%list
                  (cs ++ [sidecar])%list
                  (Volumes p ++ overlay_volumes m)%list).

(** Modelled from the spec: the restart annotation of section 3, [an
    annotation dev.okteto.com/restart (a fresh UUID) when force-pull is
    requested].  The UUID of a forced pull is the one in the annotations of
    the DevSpec. *)
Definition with_restart (s : DevSpec) (annotations : gmap string string)
    : gmap string string :=
  match s_Annotations (s_Main s) !! RestartAnnotation with
  | Some uuid => <[RestartAnnotation := uuid]> annotations
  | None => annotations
  end.

(** Modelled from the spec: the translation, with step 2 of section 4.1,
    [before first translation, capture the original PodSpec as a JSON
    annotation on the deployment so that down can restore it exactly].  A
    deployment that already carries the annotation keeps it. *)
Definition translate (d : Deployment) (s : DevSpec) : option Deployment :=
  p ← translate_spec s (d_Spec d);
  let annotations :=
    match d_Annotations d !! OriginalSpecAnnotation with
    | Some _ => d_Annotations d
    | None => <[OriginalSpecAnnotation := marshal (d_Spec d)]> (d_Annotations d)
    end in
  Some (mkDeployment (d_Name d) (d_Namespace d) (with_restart s annotations) p).

(** Modelled from the spec: the restoration of [down], [the original is
    restored from an annotation that captured it], the annotation being
    [removed by restore].  [None] when there is nothing to restore from. *)
Definition restore (d : Deployment) : option Deployment :=
  a ← d_Annotations d !! OriginalSpecAnnotation;
  p ← unmarshal a;
  Some (mkDeployment (d_Name d) (d_Namespace d)
          (delete OriginalSpecAnnotation (d_Annotations d)) p).

(** A container that [name] selects. *)
Definition has_target (name : string) (cs : list Container) : Prop :=
  name = "" ∧ cs ≠ [] ∨ name ∈ c_Name <$> cs.

(** A valid pair: the deployment is an original one (it carries no captured
    specification) and has the containers the DevSpec and its services
    select. *)
Definition valid (d : Deployment) (s : DevSpec) : Prop :=
  d_Annotations d !! OriginalSpecAnnotation = None ∧
  has_target (s_Container (s_Main s)) (Containers (d_Spec d)) ∧
  ∀ sv, sv ∈ s_Services s → has_target (s_Container sv) (Containers (d_Spec d)).

End overlay.

Module overlay_fixtures.
Import overlay.

(** Scenario S1 of the specification: DevSpec [api] with image [node:16],
    and a deployment [api] with one container [api]. *)
Definition spec_api : DevSpec :=
  mkDevSpec
    (mkContainerSpec "api" ∅ "" "node:16" "Always" [] ["sh"] "/okteto" "/okteto" "" [] 0 []
       "okteto.yml")
    [].

(** The same DevSpec after [up --pull]: the restart annotation is set. *)
Definition spec_api_pull : DevSpec :=
  mkDevSpec
    (mkContainerSpec "api" {[ RestartAnnotation := "6ba7b810-9dad-11d1-80b4-00c04fd430c8" ]}
       "" "node:16" "Always" [] ["sh"] "/okteto" "/okteto" "" [] 0 [] "okteto.yml")
    [].

Definition deployment_api : Deployment :=
  mkDeployment "api" "dev" {[ "team" := "backend" ]}
    (mkPodSpec []
       [mkContainer "api" "api:1.0" "Always" ["/bin/api"] [] "" [("PORT", "3000")] []
          [3000] [] [] (Some "GET /healthz")]
       []).

(** What [restore] gives after the forced pull. *)
Definition restored_after_pull : Deployment :=
  mkDeployment "api" "dev"
    (<[ RestartAnnotation := "6ba7b810-9dad-11d1-80b4-00c04fd430c8" ]> {[ "team" := "backend" ]})
    (d_Spec deployment_api).

End overlay_fixtures.

(** ** Vocabulary of the statements and the fixtures of the examples *)

Module fixtures.
Import model.

(** A service as [setDefaults] leaves it: no namespace, no forwards, no
    reverse forwards, no volumes, no services of its own. *)
Definition service_stripped (s : Dev) : Prop :=
  Namespace s = "" ∧ Forward s = [] ∧ RemoteForward s = [] ∧
  Volumes s = [] ∧ Services s = [].

(** Externals whose decoder reads the manifest as the struct [d] with the
    services [ss] (allocated at locations 2, 3, ...), and whose [path.Join]
    is the one of package [path]; the manifests of the fixtures have
    nothing for the other string functions to change. *)
Definition alloc_services (ss : list Dev) (h : heap) : heap :=
  foldr (fun '(i, s) h => <[Pos.of_nat (2 + i) := s]> h) h (imap (fun i s => (i, s)) ss).

Definition service_ptrs (ss : list Dev) : list ptr :=
  imap (fun i _ => Some (Pos.of_nat (2 + i))) ss.

Definition decoder_of (d : Dev) (ss : list Dev) : externals :=
  mkExternals
    (fun _ l h => inl (<[l := set_Services (service_ptrs ss) d]> (alloc_services ss h)))
    (fun s => s)
    path.Join
    (fun s _ => [s])
    (fun s _ => s)
    (fun s => s)
    (fun s _ _ _ => s).

(** [mountpath: /app] and nothing else. *)
Definition manifest_mountpath_only : Dev := set_MountPath "/app" Read_init.

(** [workdir: /src], [command: [bash]], one service named [worker] that
    declares a namespace, a forward and a volume. *)
Definition manifest_service : Dev :=
  set_Volumes [mkVolume "" "/data"] (set_Forward [mkForward 8080 80]
    (set_Namespace "other" (mkDev "worker" None None "" "" "" "" [] [] "" "" "" [] None
       [] [] 0 (mkResourceRequirements None None) "" "" []))).

Definition manifest_workdir : Dev :=
  set_Command ["bash"] (set_WorkDir "/src" Read_init).

(** A store with one Dev in namespace [dev] at location 1 and a service at
    location 2. *)
Definition heap_two : heap :=
  <[2%positive := manifest_service]>
    {[ 1%positive := set_RemotePort 2222 (set_Namespace "dev" manifest_workdir) ]}.

End fixtures.

Module runs.
Import model fixtures.

(** The stores [Read] ends with on the fixtures. *)
Definition heap_of (r : exec (heap * (ptr * error))) : heap :=
  match r with Done (h, _) => h | Panic => ∅ end.

Definition read_mountpath_only : heap :=
  heap_of (Read (decoder_of manifest_mountpath_only []) []).

Definition read_with_service : heap :=
  heap_of (Read (decoder_of manifest_workdir [manifest_service]) []).

End runs.

Module worlds.
Import cmd.

(** The Dev of scenario S1 of the specification: one forward 8080:3000. *)
Definition dev_api : model.Dev :=
  model.set_Forward [model.mkForward 8080 3000]
    (model.mkDev "api" (Some ∅) (Some ∅) "dev" "" "node:16" "Always" [] ["sh"]
       "/okteto" "/okteto" "" [] None [] [] 0
       (model.mkResourceRequirements (Some ∅) (Some ∅)) "okteto.yml" "/src" []).

Definition container_api : apiv1.Container :=
  apiv1.mkContainer "api" "api:1.0" "Always" [] [] "" [] [] [].

Definition sy_local : Syncthing := mkSyncthing 50001 50002 "/home/u/.okteto/dev/api/syncthing.log" "sendonly".

(** Everything succeeds; the pod monitor reports the messages [msgs]; the
    select of the wait receives [events]. *)
Definition happy (msgs : list string) (events : list event) : world :=
  mkWorld (inl ("api", false)) true None (Some container_api) true (inl sy_local) None
    (inl ["api"]) None (fun _ _ => None) None None (msgs, inl "api-7d9c") None None
    None None None None None None None true true events.

(** The pod is already running: the monitor has nothing to report, and the
    command later ends without an error. *)
Definition quiet : world := happy [] [Running_ None].

(** The usual run: attaching, pulling, starting, then the command ends. *)
Definition usual : world :=
  happy ["Pulling image node:16"; "Starting container"] [Running_ None].

(** The context [devMode] leaves in the quiet world. *)
Definition after_devMode_quiet : UpContext :=
  match call (devMode quiet "api" false) (RunUp_context dev_api) with
  | Ret _ up => up
  | _ => RunUp_context dev_api
  end.

Definition main_of (w : world) (dev : model.Dev) : list action :=
  default [] (trace_of (cycle w (RunUp_context dev))).

End worlds.

Module observe.
Import cmd.

(** The receives of messages on [ErrChan], and what the wait does on them. *)
Definition on_errors (msgs : list goerror) : list event :=
  (fun e => ErrChan_ (Some e)) <$> msgs.

Definition yellow (msgs : list goerror) : list action :=
  msgs ≫= (fun e => [Recv (ErrChan_ (Some e)); LogYellow e]).

(** The calls of [Forwarder.Add] recorded in a trace, in order. *)
Definition forward_adds (l : list action) : list (Z * Z) :=
  omap (fun a => match a with ForwarderAdd lo re => Some (lo, re) | _ => None end) l.

(** The values a goroutine writes to the state file, in order. *)
Definition state_writes (l : list action) : list ActivationState :=
  omap (fun a => match a with UpdateStateFile s => Some s | _ => None end) l.

Definition user_forwards (dev : model.Dev) : list (Z * Z) :=
  (fun f => (model.f_Local f, model.f_Remote f)) <$> model.Forward dev.

End observe.

Module schedules.
Import cmd.

(** In the quiet world: the goroutine of [Activate] runs up to and including
    the write of [startingSync] before the reporter goroutine, started
    during [devMode], gets to run at all. *)
Definition late_reporter : list thread :=
  (replicate 11 TMain ++ replicate 3 TReporter ++ replicate 3 TMain ++
   [TRunner] ++ replicate 3 TMain)%list.

(** In the quiet world: every goroutine runs as soon as it is started. *)
Definition prompt_reporter : list thread :=
  (replicate 3 TMain ++ [TReporter] ++ replicate 6 TMain ++ replicate 2 TReporter ++
   replicate 5 TMain ++ [TRunner] ++ replicate 3 TMain)%list.

End schedules.

Module cnd_fixtures.
Import cnd_model.

Definition yaml_result : Type := (Dev + goerror)%type.

(** The swap manifest of the README: container [api] of [deploy.yml] is
    swapped for [node:16]. *)
Definition dev_api : Dev :=
  mkDev "api"
    (mkswap (mkdeployment "deploy.yml" "api" "node:16" ["tail"] ["-f"; "/dev/null"]))
    (mkmount "." "/src").

Definition original_api : K8sDeployment :=
  mkK8sDeployment (mkObjectMeta "api" (Some {[ "app" := "api" ]}))
    (Some (mkLabelSelector (Some {[ "app" := "api" ]})))
    (mkPodTemplateSpec (mkObjectMeta "" (Some {[ "app" := "api" ]}))
       (mkPodSpec [apiv1.mkContainer "api" "api:1.0" "Always" ["/bin/api"] [] "" [] [] []]
                  [])).

(** A machine whose working directory is [/home/u/api] and where
    [deploy.yml] holds the deployment [d]; no other file exists. *)
Definition serving (d : K8sDeployment) : system :=
  mkSystem "/home/u/api" path.Join
    (fun p => if bool_decide (p = "/home/u/api/deploy.yml") then None
              else Some (PathError "open" p (Errorf "no such file or directory")))
    (fun _ => d).

Definition result_of (r : exec (option K8sDeployment * error)) : K8sDeployment :=
  match r with Done (Some d, _) => d | _ => original_api end.

Definition translated_once : K8sDeployment :=
  result_of (Deployment (serving original_api) dev_api).
Definition translated_twice : K8sDeployment :=
  result_of (Deployment (serving translated_once) dev_api).

(** A disk where the manifest [cnd.yml] decodes to [d], and where [/home/u/api]
    is a directory and nothing else exists. *)
Definition manifest_disk (d : yaml_result) : disk :=
  mkDisk
    (fun p => if bool_decide (path.Abs "/home/u/api" p = "/home/u/api/cnd.yml") then inl []
              else inr (PathError "open" p (Errorf "no such file or directory")))
    (fun _ _ => d)
    (fun p => if bool_decide (path.Abs "/home/u/api" p = "/home/u/api") then Info true
              else if bool_decide (path.Abs "/home/u/api" p = "/home/u/api/cnd.yml")
              then Info false else NotExist)
    path.IsAbs path.Dir.

(** The mount that [updateCndContainer] appends for [dev_api]. *)
Definition sync_mount : apiv1.VolumeMount := apiv1.mkVolumeMount "cnd-sync" "/src".

End cnd_fixtures.

Module model_vocab.
Import model.

(** The three pull policies [validatePullPolicy] accepts. *)
Definition supported_policy (p : PullPolicy) : Prop :=
  p = "Always" ∨ p = "IfNotPresent" ∨ p = "Never".

(** A service that declares a name and labels at once. *)
Definition name_and_labels (d : Dev) : Prop :=
  Name d ≠ "" ∧ (0 < map_len (Labels d))%nat.

(** What [LoadForcePull] leaves in a struct. *)
Definition force_pulled (restartUUID : string) (d : Dev) : Prop :=
  ImagePullPolicy d = PullAlways ∧
  ∃ a, Annotations d = Some a ∧ a !! OktetoRestartAnnotation = Some restartUUID.

(** A file system with one manifest, [okteto.yml] in the working directory
    [/src]. *)
Definition one_manifest : files :=
  mkFiles (fun p => if bool_decide (path.Abs "/src" p = "/src/okteto.yml") then inl []
                    else inr (PathError "open" p (Errorf "no such file or directory")))
          (fun p => inl (path.Abs "/src" p)) path.Dir path.Base.

(** [name: api], [image: node:16], one service [worker]. *)
Definition manifest_api : Dev :=
  mkDev "api" None None "" "" "node:16" "" [] [] "" "" "" [mkVolume "" "/cache"] None
    [mkForward 8080 3000] [] 0 (mkResourceRequirements (Some ∅) (Some ∅)) "" "" [].

(** A service that declares both a name and labels. *)
Definition service_conflict : Dev :=
  mkDev "worker" (Some {[ "app" := "worker" ]}) None "" "" "" "" [] [] "" "" "" [] None
    [] [] 0 (mkResourceRequirements None None) "" "" [].

(** The store the decoder of [fixtures.decoder_of] produces. *)
Definition decoded (d : Dev) (ss : list Dev) : heap :=
  <[1%positive := set_Services (fixtures.service_ptrs ss) d]>
    (fixtures.alloc_services ss {[ 1%positive := Read_init ]}).

Definition get_api : heap :=
  runs.heap_of (Get (fixtures.decoder_of manifest_api [fixtures.manifest_service])
                  one_manifest "okteto.yml").

Definition read_api : heap :=
  runs.heap_of (Read (fixtures.decoder_of manifest_api [fixtures.manifest_service]) []).

End model_vocab.

(** ** What the goroutine of [Activate] adds to its trace

    The statements of package [cmd] are followed through the events that
    other goroutines depend on: the writes to the state file, the start of
    the reporter goroutine, what is sent to it, the close of its channel,
    and the start of the goroutine that runs the command. *)

Module cmd_logic.
Import cmd.

Inductive mark : Type :=
  | Wrote (s : ActivationState)
  | ReporterStarted
  | Sent (message : string)
  | ReporterClosed
  | RunnerStarted.

#[global] Instance mark_eq_dec : EqDecision mark.
Proof. solve_decision. Defined.

Definition mark_of (a : action) : option mark :=
  match a with
  | UpdateStateFile s => Some (Wrote s)
  | GoReporter => Some ReporterStarted
  | ReporterSend m => Some (Sent m)
  | ReporterClose => Some ReporterClosed
  | GoRunCommand => Some RunnerStarted
  | _ => None
  end.

Definition marks (l : list action) : list mark := omap mark_of l.

Definition wrote (m : mark) : option ActivationState :=
  match m with Wrote s => Some s | _ => None end.

(** How a statement ends. *)
Inductive kind (A : Type) : Type :=
  | KRet (a : A)
  | KReturn (e : error)
  | KBlocked.
Arguments KRet {A} a.
Arguments KReturn {A} e.
Arguments KBlocked {A}.

(** [adds m Q]: whenever [m] ends, the trace has grown by some actions whose
    marks, with the way [m] ended, satisfy [Q]. *)
Definition adds {A} (m : M A) (Q : kind A → list mark → Prop) : Prop :=
  ∀ up,
    match m up with
    | Ret a up' => ∃ l, trace up' = (trace up ++ l)%list ∧ Q (KRet a) (marks l)
    | Return_ e up' => ∃ l, trace up' = (trace up ++ l)%list ∧ Q (KReturn e) (marks l)
    | Blocked up' => ∃ l, trace up' = (trace up ++ l)%list ∧ Q KBlocked (marks l)
    | Crash => True
    end.

(** A statement that leaves no mark, and that returns from the function
    with an error only. *)
Definition silent {A} : kind A → list mark → Prop := fun k ms =>
  ms = [] ∧ match k with KRet _ => True | KReturn e => e ≠ None | KBlocked => False end.

(** A statement that leaves no mark and goes on to the next one. *)
Definition quiet {A} : kind A → list mark → Prop := fun k ms =>
  ms = [] ∧ ∃ a, k = KRet a.

(** The marks of the reporter goroutine's life: it is started, the pod
    monitor sends it the messages, and its channel is closed. *)
Definition reporter_marks (messages : list string) : list mark :=
  (ReporterStarted :: (Sent <$> messages) ++ [ReporterClosed])%list.

(** The marks of a cycle in which nothing fails, stage by stage. *)
Definition stages (w : world) : list (list mark) :=
  [ [Wrote activating]; [Wrote starting]; reporter_marks (fst (MonitorDevPod w));
    [Wrote startingSync]; [Wrote synchronizing]; [RunnerStarted] ].

Definition upto (n : nat) (w : world) : list mark := concat (take n (stages w)).

Definition returns {A} (P : error → list mark → Prop) : kind A → list mark → Prop :=
  fun k ms => ∃ e, k = KReturn e ∧ P e ms.

(** How far a turn of [Activate] got, by the way it ended: a turn that
    reconnects has been through [devMode] and into [sync]; a turn that
    waits, or ends without an error, has been through every stage. *)
Definition reached (k : kind turn_end) (n : nat) : Prop :=
  match k with
  | KReturn _ => False
  | KBlocked => n = 6%nat
  | KRet Continue => (4 ≤ n ≤ 6)%nat
  | KRet (Exit None) => n = 6%nat
  | KRet (Exit (Some _)) => (n ≤ 6)%nat
  end.

Definition turn_marks (w : world) : kind turn_end → list mark → Prop :=
  fun k ms => ∃ n, ms = upto n w ∧ reached k n.

(** A cycle adds [failed] when the turn ends with an error. *)
Definition cycle_marks (w : world) : kind turn_end → list mark → Prop :=
  fun k ms => ∃ n,
    ms = (upto n w ++ match k with
                      | KRet (Exit (Some _)) => [Wrote failed]
                      | _ => []
                      end)%list ∧
    reached k n.

(** [precedes x y ms]: every [y] of [ms] has an [x] before it. *)
Definition precedes (x y : mark) (ms : list mark) : Prop :=
  ∀ p q, ms = (p ++ y :: q)%list → x ∈ p.

Fixpoint precedesb (x y : mark) (ms : list mark) : bool :=
  match ms with
  | [] => true
  | z :: ms =>
      if bool_decide (z = y) then false
      else if bool_decide (z = x) then true
      else precedesb x y ms
  end.

(** The state that must have been written before [s] is. *)
Definition before (s : ActivationState) : option ActivationState :=
  match s with
  | activating | failed => None
  | starting => Some activating
  | attaching | pulling | startingSync => Some starting
  | synchronizing => Some startingSync
  | ready => Some synchronizing
  end.

(** What has to come before a mark: the goroutines are started after the
    state they follow has been written. *)
Definition order_of (y : mark) : option mark :=
  match y with
  | Wrote s => Wrote <$> before s
  | ReporterStarted => Some (Wrote starting)
  | RunnerStarted => Some (Wrote synchronizing)
  | Sent _ | ReporterClosed => None
  end.

(** Every state of the file has the state it follows before it. *)
Definition ordered (f : list ActivationState) : Prop :=
  ∀ f1 s f2 s0, f = (f1 ++ s :: f2)%list → before s = Some s0 → s0 ∈ f1.

(** What holds of a configuration reached from [initial main]. *)
Definition invariant (main : list action) (c : config) : Prop :=
  (∃ past, main = (past ++ todo c)%list ∧
     (∀ s, Wrote s ∈ marks past → s ∈ file c) ∧
     (reporter c ≠ RNone → ReporterStarted ∈ marks past) ∧
     (runner c ≠ NotStarted → RunnerStarted ∈ marks past)) ∧
  ordered (file c).

Definition action_of (m : mark) : option action :=
  match m with
  | ReporterStarted => Some GoReporter
  | Sent s => Some (ReporterSend s)
  | ReporterClosed => Some ReporterClose
  | Wrote _ | RunnerStarted => None
  end.

(** The actions of a trace that concern the reporter goroutine. *)
Definition is_reporter (a : action) : bool :=
  match a with
  | GoReporter | ReporterSend _ | ReporterClose => true
  | _ => false
  end.

Definition reporter_actions (l : list action) : list action :=
  filter (fun a => is_reporter a = true) l.

End cmd_logic.

(** * Theorems *)

(** ** Package [pkg/model] *)

Section ModelProofs.
Import model.
Context (X : externals).

Lemma deref_Some (h : heap) (p : ptr) (d : Dev) :
  deref h p = Done d ↔ ∃ l, p = Some l ∧ h !! l = Some d.
Proof.
  unfold deref. split.
  - destruct p as [l|]; [|done]. destruct (h !! l) eqn:E; [|done].
    intros [= ->]. eauto.
  - intros (l & -> & ->). done.
Qed.

Lemma bind_Done {A B} (a : A) (f : A → exec B) : (Done a ≫= f) = f a.
Proof. reflexivity. Qed.

Lemma Done_inj {A} (a b : A) : Done a = Done b → a = b.
Proof. by intros [=]. Qed.

Lemma bind_Panic {A B} (f : A → exec B) : (Panic ≫= f) = Panic.
Proof. reflexivity. Qed.

Lemma fullSubPath_total (h : heap) (main : ptr) (m : Dev) (i : Z) (sp : string) :
  deref h main = Done m → ∃ s, fullSubPath X h main i sp = Done s.
Proof.
  intros Hm. unfold fullSubPath. rewrite Hm, bind_Done.
  destruct (bool_decide (sp = "")); eauto.
Qed.

(** The loop over the volumes of a rule cannot fail once [main] is a live
    pointer. *)
Lemma rule_volumes_total (h : heap) (main : ptr) (m : Dev) (vs : list Volume) :
  deref h main = Done m →
  ∀ i acc, ∃ r, rule_volumes X h main i vs acc = Done r.
Proof.
  intros Hm. induction vs as [|v vs IH]; intros i acc; simpl.
  - eauto.
  - destruct (fullSubPath_total h main m (i + 1) (v_SubPath v) Hm) as [sp ->].
    rewrite bind_Done. apply IH.
Qed.

(** C10.  [UpdateNamespace] with the empty string changes nothing and
    returns nil, whatever the receiver.  With a non-empty [ns] it returns an
    error exactly when the Dev has a non-empty namespace different from
    [ns]; on error the store (hence the Namespace field) is unchanged;
    otherwise the Namespace field becomes [ns] and nothing else changes. *)
Theorem UpdateNamespace_spec (h : heap) (p : ptr) (ns : string) :
  (ns = "" → UpdateNamespace h p ns = Done (h, None)) ∧
  (∀ l d, p = Some l → h !! l = Some d → ns ≠ "" →
     ∃ h' err, UpdateNamespace h p ns = Done (h', err) ∧
       (err ≠ None ↔ Namespace d ≠ "" ∧ Namespace d ≠ ns) ∧
       (err ≠ None → h' = h) ∧
       (err = None → h' = <[l := set_Namespace ns d]> h ∧
                     Namespace (set_Namespace ns d) = ns)).
Proof.
  split.
  - intros ->. reflexivity.
  - intros l d -> Hl Hns. unfold UpdateNamespace.
    rewrite bool_decide_eq_false_2 by done. simpl. rewrite Hl. simpl.
    case_bool_decide as Hc.
    + eexists _, _. split; [reflexivity|]. split; [|split]; [|done|done].
      split; [intros _; exact Hc|done].
    + eexists _, _. split; [reflexivity|]. split; [|split]; [|done|done].
      split; [done|]. intros Hd. contradiction.
Qed.

(** C6.  The rule of the main dev container ([main == dev]) has the
    healthchecks off, the command [/var/okteto/bin/start.sh], and the
    arguments [-r] exactly when remote mode is enabled (a positive
    [RemotePort] or at least one reverse forward); the rule of any other
    (service) container keeps the healthchecks on. *)
Theorem ToTranslationRule_main_and_service (h : heap) (dev main : ptr) (d m : Dev) :
  deref h dev = Done d →
  deref h main = Done m →
  ∃ r, ToTranslationRule X h dev main = Done r ∧
    (main = dev →
       Healthchecks r = false ∧
       r_Command r = ["/var/okteto/bin/start.sh"] ∧
       (Args r = ["-r"] ↔ (0 < RemotePort d ∨ (0 < length (RemoteForward d))%nat))) ∧
    (main ≠ dev → Healthchecks r = true).
Proof.
  intros Hd Hm. unfold ToTranslationRule. rewrite Hd, bind_Done.
  destruct (fullSubPath_total h main m 0 (SubPath d) Hm) as [sp0 ->].
  rewrite bind_Done. case_bool_decide as Heq.
  - subst dev. assert (m = d) as -> by congruence.
    unfold syncthingSubPath. rewrite Hd, !bind_Done.
    unfold RemoteModeEnabled. destruct main as [l|]; [|done].
    rewrite Hd, bind_Done.
    case_bool_decide as Hport; [|case_bool_decide as Hfw]; rewrite bind_Done;
      (match goal with |- context [rule_volumes X h ?p ?i ?vs ?acc] =>
         destruct (rule_volumes_total h p d vs Hd i acc) as [vols ->] end);
      rewrite bind_Done; (eexists; split; [reflexivity|]); (split; [|done]);
      intros _; simpl; (split; [done|split; [done|]]).
    + split; [auto|done].
    + split; [auto|done].
    + split; [done|]. intros [?|?]; contradiction.
  - destruct (rule_volumes_total h main m (Volumes d) Hm 0
      [mkVolumeMount OktetoVolumeName (MountPath d) sp0]) as [vols ->].
    rewrite bind_Done. eexists. split; [reflexivity|]. split; [done|]. done.
Qed.

End ModelProofs.

Section ReadProofs.
Import model fixtures.
Context (X : externals).

Lemma service_defaults_2_stripped (d : Dev) : service_stripped (service_defaults_2 d).
Proof. repeat split. Qed.

(** What the defaults of a service do to the command, the mount path and
    the work directory. *)
Lemma service_defaults_1_paths (d : Dev) :
  Command (service_defaults_1 d) = Command d ∧
  MountPath (service_defaults_1 d) ≠ "" ∧
  (MountPath d ≠ "" →
     MountPath (service_defaults_1 d) = MountPath d ∧
     WorkDir (service_defaults_1 d) = WorkDir d) ∧
  (MountPath d = "" → WorkDir d = "" →
     MountPath (service_defaults_1 d) = "/okteto" ∧
     WorkDir (service_defaults_1 d) = "/okteto") ∧
  (MountPath d = "" → WorkDir d ≠ "" →
     MountPath (service_defaults_1 d) = WorkDir d ∧
     WorkDir (service_defaults_1 d) = WorkDir d).
Proof.
  unfold service_defaults_1.
  assert (H5 : ∀ x, Command (default_annotations x) = Command x ∧
                    MountPath (default_annotations x) = MountPath x ∧
                    WorkDir (default_annotations x) = WorkDir x)
    by (intros x; unfold default_annotations; by case_bool_decide).
  assert (H4 : ∀ x, Command (default_labels x) = Command x ∧
                    MountPath (default_labels x) = MountPath x ∧
                    WorkDir (default_labels x) = WorkDir x)
    by (intros x; unfold default_labels; by case_bool_decide).
  assert (H2 : ∀ x, Command (default_pull_policy x) = Command x ∧
                    MountPath (default_pull_policy x) = MountPath x ∧
                    WorkDir (default_pull_policy x) = WorkDir x)
    by (intros x; unfold default_pull_policy; by case_bool_decide).
  assert (H3 : ∀ x, Command (default_mountpath x) = Command x ∧
                    WorkDir (default_mountpath x) = WorkDir x ∧
                    (MountPath x ≠ "" → MountPath (default_mountpath x) = MountPath x) ∧
                    (MountPath x = "" → MountPath (default_mountpath x) = WorkDir x)).
  { intros x. unfold default_mountpath. case_bool_decide as Hc; simpl.
    - by destruct Hc as [_ ->].
    - split; [done|]. split; [done|]. split; [done|]. intros Hm.
      destruct (decide (WorkDir x = "")) as [Hw|Hw]; [congruence|].
      exfalso. by apply Hc. }
  assert (H1 : Command (default_paths d) = Command d ∧
               (MountPath d ≠ "" → MountPath (default_paths d) = MountPath d ∧
                                   WorkDir (default_paths d) = WorkDir d) ∧
               (MountPath d = "" → WorkDir d = "" →
                  MountPath (default_paths d) = "/okteto" ∧
                  WorkDir (default_paths d) = "/okteto") ∧
               (MountPath d = "" → WorkDir d ≠ "" →
                  MountPath (default_paths d) = "" ∧ WorkDir (default_paths d) = WorkDir d)).
  { unfold default_paths. case_bool_decide as Hc; simpl.
    - destruct Hc as [Hm Hw]. split; [done|]. split; [congruence|].
      split; [done|]. congruence.
    - split; [done|]. split; [done|]. split; [|done].
      intros Hm Hw. exfalso. by apply Hc. }
  set (d1 := default_paths d) in *. clearbody d1.
  destruct (H2 d1) as (C2 & M2 & W2). set (d2 := default_pull_policy d1) in *. clearbody d2.
  destruct (H3 d2) as (C3 & W3 & M3 & M3'). set (d3 := default_mountpath d2) in *. clearbody d3.
  destruct (H4 d3) as (C4 & M4 & W4). set (d4 := default_labels d3) in *. clearbody d4.
  destruct (H5 d4) as (C5 & M5 & W5). set (d5 := default_annotations d4) in *. clearbody d5.
  clear H2 H3 H4 H5. destruct H1 as (C1 & K1 & K2 & K3).
  rewrite C5, C4, C3, C2, M5, M4, W5, W4, W3, W2.
  destruct (decide (MountPath d = "")) as [Hm|Hm];
    [destruct (decide (WorkDir d = "")) as [Hw|Hw]|].
  - destruct (K2 Hm Hw) as [E1 E2]. rewrite M3 by congruence. rewrite M2, E1, E2.
    repeat split; try done.
  - destruct (K3 Hm Hw) as [E1 E2]. rewrite M3' by congruence. rewrite W2, E2.
    split; [done|]. split; [done|]. split; [done|]. split; [done|]. done.
  - destruct (K1 Hm) as [E1 E2]. rewrite M3 by congruence. rewrite M2, E1, E2.
    split; [done|]. split; [done|]. split; [done|]. split; [done|]. done.
Qed.

Lemma service_defaults_1_keeps (d : Dev) :
  Command (service_defaults_1 d) = Command d ∧
  (MountPath d ≠ "" →
     MountPath (service_defaults_1 d) = MountPath d ∧
     WorkDir (service_defaults_1 d) = WorkDir d).
Proof. destruct (service_defaults_1_paths d) as (? & ? & ? & _). done. Qed.

Lemma setDefaults_services_cons (h : heap) (s : ptr) (rest : list ptr) :
  setDefaults_services h (s :: rest) =
  d ← deref h s;
  if bool_decide (Name (service_defaults_1 d) ≠ "" ∧
                  (0 < map_len (Labels (service_defaults_1 d)))%nat)
  then Done (store h s (service_defaults_1 d),
             Some (Errorf ("'name' and 'labels' cannot be defined at the same time for service '"
                           +:+ Name (service_defaults_1 d) +:+ "'")))
  else setDefaults_services (store h s (service_defaults_2 (service_defaults_1 d))) rest.
Proof. reflexivity. Qed.

(** What the loop over the services establishes when it ends without an
    error: every service it went through is stripped, every struct of the
    final store is either stripped or untouched, and no struct disappears. *)
Lemma setDefaults_services_inv (ss : list ptr) :
  ∀ (h h' : heap),
  setDefaults_services h ss = Done (h', None) →
  (∀ s, s ∈ ss → ∃ l sd, s = Some l ∧ h' !! l = Some sd ∧ service_stripped sd) ∧
  (∀ l d', h' !! l = Some d' → service_stripped d' ∨ h !! l = Some d') ∧
  (∀ l, is_Some (h !! l) → is_Some (h' !! l)).
Proof.
  induction ss as [|s rest IH]; intros h h' Hrun.
  - injection Hrun as ->. repeat split; [|auto..].
    intros s Hs. by apply elem_of_nil in Hs.
  - rewrite setDefaults_services_cons in Hrun.
    destruct (deref h s) as [d|] eqn:Hd; [|done].
    rewrite bind_Done in Hrun. apply deref_Some in Hd as (l0 & -> & Hl0).
    case_bool_decide as Herr; [done|]. cbn [store] in Hrun.
    apply IH in Hrun as (HA & HB & HC).
    assert (∃ sd, h' !! l0 = Some sd ∧ service_stripped sd) as (sd0 & Hsd0 & Hst0).
    { destruct (HC l0) as [sd Hsd]; [rewrite lookup_insert_eq; eauto|].
      exists sd. split; [done|]. destruct (HB _ _ Hsd) as [?|Hin]; [done|].
      rewrite lookup_insert_eq in Hin. apply (inj Some) in Hin as <-.
      apply service_defaults_2_stripped. }
    repeat split.
    + intros s Hs. apply elem_of_cons in Hs as [->|Hs]; [eauto|by apply HA].
    + intros l d' Hl. destruct (HB _ _ Hl) as [?|Hin]; [by left|].
      destruct (decide (l0 = l)) as [->|Hne].
      * left. congruence.
      * right. by rewrite lookup_insert_ne in Hin.
    + intros l Hl. apply HC. destruct (decide (l0 = l)) as [->|Hne].
      * rewrite lookup_insert_eq. eauto.
      * by rewrite lookup_insert_ne.
Qed.

(** The loop never touches the command of a struct, nor the mount path and
    work directory of a struct whose mount path is already set. *)
Lemma setDefaults_services_keeps (ss : list ptr) :
  ∀ (h h' : heap) (err : error),
  setDefaults_services h ss = Done (h', err) →
  ∀ l d', h' !! l = Some d' →
    ∃ d0, h !! l = Some d0 ∧ Command d' = Command d0 ∧
          (MountPath d0 ≠ "" → MountPath d' = MountPath d0 ∧ WorkDir d' = WorkDir d0).
Proof.
  induction ss as [|s rest IH]; intros h h' err Hrun l d' Hl.
  - injection Hrun as -> _. eauto.
  - rewrite setDefaults_services_cons in Hrun.
    destruct (deref h s) as [d|] eqn:Hd; [|done].
    rewrite bind_Done in Hrun. apply deref_Some in Hd as (l0 & -> & Hl0).
    destruct (service_defaults_1_keeps d) as (Hc & Hm).
    case_bool_decide as Herr; cbn [store] in Hrun.
    + apply Done_inj, pair_equal_spec in Hrun as [<- _].
      destruct (decide (l0 = l)) as [->|Hne].
      * rewrite lookup_insert_eq in Hl. apply (inj Some) in Hl as <-. eauto.
      * rewrite lookup_insert_ne in Hl by done. eauto.
    + destruct (IH _ _ _ Hrun _ _ Hl) as (d1 & Hd1 & Hc1 & Hm1).
      destruct (decide (l0 = l)) as [->|Hne].
      * rewrite lookup_insert_eq in Hd1. apply (inj Some) in Hd1 as <-.
        exists d. split; [done|]. split; [by rewrite Hc1|].
        intros Hne. destruct (Hm Hne) as [Hm' Hw'].
        change (MountPath (service_defaults_2 (service_defaults_1 d)))
          with (MountPath (service_defaults_1 d)) in Hm1.
        change (WorkDir (service_defaults_2 (service_defaults_1 d)))
          with (WorkDir (service_defaults_1 d)) in Hm1.
        destruct Hm1 as [-> ->]; [congruence|]. done.
      * rewrite lookup_insert_ne in Hd1 by done. eauto.
Qed.

Lemma deref_insert (h : heap) (l : loc) (d : Dev) :
  deref (<[l := d]> h) (Some l) = Done d.
Proof. unfold deref. by rewrite lookup_insert_eq. Qed.

(** A successful [Read] went through the decoder, the expansion of the
    image and [setDefaults]. *)
Lemma Read_success_inv (bytes : list Byte.byte) (h : heap) (p : ptr) :
  Read X bytes = Done (h, (p, None)) →
  ∃ h0 d0 d1,
    yaml_UnmarshalStrict X bytes 1%positive {[ 1%positive := Read_init ]} = inl h0 ∧
    h0 !! 1%positive = Some d0 ∧
    p = Some 1%positive ∧
    Command d1 = Command d0 ∧ MountPath d1 = MountPath d0 ∧ WorkDir d1 = WorkDir d0 ∧
    setDefaults_services (<[1%positive := dev_defaults d1]> (<[1%positive := d1]> h0))
      (Services (dev_defaults d1)) = Done (h, None).
Proof.
  unfold Read. intros Hrun. cbv zeta in Hrun.
  destruct (yaml_UnmarshalStrict X bytes 1%positive _) as [h0|e] eqn:Hy; [|discriminate Hrun].
  destruct (deref h0 (Some 1%positive)) as [d0|] eqn:Hd0; [|discriminate Hrun].
  rewrite bind_Done in Hrun.
  apply deref_Some in Hd0 as (l & [= <-] & Hd0).
  exists h0, d0.
  set (d1 := if bool_decide (0 < String.length (Image d0))%nat
             then set_Image (os_ExpandEnv X (Image d0)) d0 else d0).
  assert (Hh1 : (if bool_decide (0 < String.length (Image d0))%nat
                 then store h0 (Some 1%positive) (set_Image (os_ExpandEnv X (Image d0)) d0)
                 else h0) = <[1%positive := d1]> h0).
  { subst d1. case_bool_decide; [done|]. by rewrite insert_id. }
  rewrite Hh1 in Hrun. unfold setDefaults in Hrun.
  rewrite deref_insert, bind_Done in Hrun. cbn [store] in Hrun.
  destruct (setDefaults_services _ _) as [[h2 err]|] eqn:Hs; [|discriminate Hrun].
  rewrite bind_Done in Hrun. destruct err as [e|]; [discriminate Hrun|].
  injection Hrun as -> <-.
  exists d1. repeat split; try done; subst d1; by case_bool_decide.
Qed.

(** C7.  In the Dev of a successful [Read], every entry of [Services] points
    to a struct with an empty Namespace and empty Forward, RemoteForward,
    Volumes and Services lists. *)
Theorem Read_services_stripped (bytes : list Byte.byte) (h : heap) (p : ptr) :
  Read X bytes = Done (h, (p, None)) →
  ∃ l d, p = Some l ∧ h !! l = Some d ∧
    ∀ s, s ∈ Services d →
      ∃ ls sd, s = Some ls ∧ h !! ls = Some sd ∧
        Namespace sd = "" ∧ Forward sd = [] ∧ RemoteForward sd = [] ∧
        Volumes sd = [] ∧ Services sd = [].
Proof.
  intros Hrun.
  apply Read_success_inv in Hrun as (h0 & d0 & d1 & _ & _ & -> & _ & _ & _ & Hloop).
  apply setDefaults_services_inv in Hloop as (HA & HB & HC).
  destruct (HC 1%positive) as [d Hd]; [rewrite lookup_insert_eq; eauto|].
  exists 1%positive, d. split; [done|]. split; [done|].
  destruct (HB _ _ Hd) as [Hst|Hin].
  - destruct Hst as (_ & _ & _ & _ & ->). intros s Hs. by apply elem_of_nil in Hs.
  - rewrite lookup_insert_eq in Hin. apply (inj Some) in Hin as <-.
    intros s Hs. destruct (HA s Hs) as (ls & sd & -> & Hsd & Hst).
    exists ls, sd. by repeat split; try apply Hst.
Qed.

Lemma dev_defaults_spec (d : Dev) :
  Command (dev_defaults d) ≠ [] ∧ MountPath (dev_defaults d) ≠ "" ∧
  (Command d = [] → Command (dev_defaults d) = ["sh"]) ∧
  (MountPath d = "" → WorkDir d = "" →
     MountPath (dev_defaults d) = "/okteto" ∧ WorkDir (dev_defaults d) = "/okteto") ∧
  (MountPath d = "" → WorkDir d ≠ "" →
     MountPath (dev_defaults d) = WorkDir (dev_defaults d) ∧
     WorkDir (dev_defaults d) = WorkDir d) ∧
  (WorkDir (dev_defaults d) = "" ↔ WorkDir d = "" ∧ MountPath d ≠ "").
Proof.
  unfold dev_defaults.
  assert (H0 : MountPath (default_command d) = MountPath d ∧
               WorkDir (default_command d) = WorkDir d ∧
               Command (default_command d) ≠ [] ∧
               (Command d = [] → Command (default_command d) = ["sh"])).
  { unfold default_command. case_bool_decide as Hc; simpl.
    - split; [done|]. split; [done|]. split; [discriminate|done].
    - split; [done|]. split; [done|]. split.
      + intros Hn. rewrite Hn in Hc. by apply Hc.
      + intros Hn. rewrite Hn in Hc. exfalso. by apply Hc. }
  destruct H0 as (M0 & W0 & C0 & C0').
  destruct (service_defaults_1_paths (default_command d)) as (C & Mne & K1 & K2 & K3).
  rewrite M0, W0 in K1, K2, K3. rewrite C.
  split; [done|]. split; [done|]. split; [done|]. split; [done|].
  split.
  - intros Hm Hw. destruct (K3 Hm Hw) as [-> ->]. done.
  - destruct (decide (MountPath d = "")) as [Hm|Hm];
      [destruct (decide (WorkDir d = "")) as [Hw|Hw]|].
    + destruct (K2 Hm Hw) as [_ ->]. split; [done|]. by intros [_ ?].
    + destruct (K3 Hm Hw) as [_ ->]. split; [done|]. by intros [? _].
    + destruct (K1 Hm) as [_ ->]. split; [done|]. by intros [? _].
Qed.

(** C9, as the code has it.  The Dev of a successful [Read] has a non-empty
    command and a non-empty mount path; an undeclared command becomes
    [sh]; with neither mountpath nor workdir declared both become
    [/okteto]; with only workdir declared the mount path is the work
    directory.  The work directory is empty in exactly one case: the
    manifest declares a mountpath and no workdir. *)
Theorem Read_defaults (bytes : list Byte.byte) (h : heap) (p : ptr) :
  Read X bytes = Done (h, (p, None)) →
  ∃ h0 d0 l d,
    yaml_UnmarshalStrict X bytes 1%positive {[ 1%positive := Read_init ]} = inl h0 ∧
    h0 !! 1%positive = Some d0 ∧ p = Some l ∧ h !! l = Some d ∧
    Command d ≠ [] ∧ MountPath d ≠ "" ∧
    (Command d0 = [] → Command d = ["sh"]) ∧
    (MountPath d0 = "" → WorkDir d0 = "" → MountPath d = "/okteto" ∧ WorkDir d = "/okteto") ∧
    (MountPath d0 = "" → WorkDir d0 ≠ "" → MountPath d = WorkDir d ∧ WorkDir d = WorkDir d0) ∧
    (WorkDir d = "" ↔ WorkDir d0 = "" ∧ MountPath d0 ≠ "").
Proof.
  intros Hrun.
  apply Read_success_inv in Hrun as (h0 & d0 & d1 & Hy & Hd0 & -> & HC & HM & HW & Hloop).
  destruct (setDefaults_services_inv _ _ _ Hloop) as (_ & _ & Hdom).
  destruct (Hdom 1%positive) as [d Hd]; [rewrite lookup_insert_eq; eauto|].
  destruct (setDefaults_services_keeps _ _ _ _ Hloop _ _ Hd) as (d6 & Hd6 & Hc & Hm).
  rewrite lookup_insert_eq in Hd6. apply (inj Some) in Hd6 as <-.
  destruct (dev_defaults_spec d1) as (S1 & S2 & S3 & S4 & S5 & S6).
  destruct (Hm S2) as [Hm1 Hm2].
  exists h0, d0, 1%positive, d. rewrite Hc, Hm1, Hm2, <- HC, <- HM, <- HW.
  split_and!; done.
Qed.

End ReadProofs.

(** *** The theorems of [pkg/model] on the fixtures *)

Section ModelExamples.
Import model fixtures runs.

Lemma Read_with_service_run :
  Read (decoder_of manifest_workdir [manifest_service]) [] =
  Done (read_with_service, (Some 1%positive, None)).
Proof. vm_compute. reflexivity. Defined.

Lemma Read_mountpath_only_run :
  Read (decoder_of manifest_mountpath_only []) [] =
  Done (read_mountpath_only, (Some 1%positive, None)).
Proof. vm_compute. reflexivity. Defined.

Lemma UpdateNamespace_spec_witness :
  heap_two !! 1%positive = Some (set_RemotePort 2222 (set_Namespace "dev" manifest_workdir)) ∧
  "staging" ≠ "" ∧
  ∃ h' err, UpdateNamespace heap_two (Some 1%positive) "staging" = Done (h', err) ∧
    (err ≠ None ↔
       Namespace (set_RemotePort 2222 (set_Namespace "dev" manifest_workdir)) ≠ "" ∧
       Namespace (set_RemotePort 2222 (set_Namespace "dev" manifest_workdir)) ≠ "staging") ∧
    (err ≠ None → h' = heap_two) ∧
    (err = None →
       h' = <[1%positive :=
               set_Namespace "staging"
                 (set_RemotePort 2222 (set_Namespace "dev" manifest_workdir))]> heap_two ∧
       Namespace (set_Namespace "staging"
                    (set_RemotePort 2222 (set_Namespace "dev" manifest_workdir))) = "staging").
Proof.
  split; [reflexivity|]. split; [discriminate|].
  apply (proj2 (UpdateNamespace_spec heap_two (Some 1%positive) "staging")
           1%positive _ eq_refl); [reflexivity|discriminate].
Defined.

(** The manifest namespace [dev] against [-n staging]: an error, and the
    store is left as it was. *)
Example UpdateNamespace_mismatch :
  UpdateNamespace heap_two (Some 1%positive) "staging" =
  Done (heap_two,
        Some (Errorf "the namespace in the okteto manifest 'dev' does not match the namespace 'staging'")).
Proof. reflexivity. Qed.

Lemma ToTranslationRule_main_and_service_witness :
  deref heap_two (Some 1%positive) =
    Done (set_RemotePort 2222 (set_Namespace "dev" manifest_workdir)) ∧
  ∃ r, ToTranslationRule (decoder_of Read_init []) heap_two (Some 1%positive) (Some 1%positive)
         = Done r ∧
    (Some 1%positive = Some 1%positive →
       Healthchecks r = false ∧
       r_Command r = ["/var/okteto/bin/start.sh"] ∧
       (Args r = ["-r"] ↔
          (0 < RemotePort (set_RemotePort 2222 (set_Namespace "dev" manifest_workdir)) ∨
           (0 < length (RemoteForward
                          (set_RemotePort 2222 (set_Namespace "dev" manifest_workdir))))%nat))) ∧
    (Some 1%positive ≠ Some 1%positive → Healthchecks r = true).
Proof.
  split; [reflexivity|].
  apply (ToTranslationRule_main_and_service (decoder_of Read_init []) heap_two
           (Some 1%positive) (Some 1%positive) _ _ eq_refl eq_refl).
Defined.

(** The rule of the service at location 2, translated for the main Dev at
    location 1. *)
Example ToTranslationRule_service_run :
  Healthchecks <$>
    (match ToTranslationRule (decoder_of Read_init []) heap_two (Some 2%positive)
             (Some 1%positive) with Done r => Some r | Panic => None end) = Some true.
Proof. reflexivity. Qed.

Lemma Read_services_stripped_witness :
  Read (decoder_of manifest_workdir [manifest_service]) [] =
    Done (read_with_service, (Some 1%positive, None)) ∧
  ∃ l d, Some 1%positive = Some l ∧ read_with_service !! l = Some d ∧
    ∀ s, s ∈ Services d →
      ∃ ls sd, s = Some ls ∧ read_with_service !! ls = Some sd ∧
        Namespace sd = "" ∧ Forward sd = [] ∧ RemoteForward sd = [] ∧
        Volumes sd = [] ∧ Services sd = [].
Proof.
  split; [exact Read_with_service_run|].
  exact (Read_services_stripped _ _ _ _ Read_with_service_run).
Defined.

(** The service of the fixture declared a namespace, a forward and a
    volume; after [Read] they are gone. *)
Example Read_with_service_result :
  (Services <$> read_with_service !! 1%positive) = Some [Some 2%positive] ∧
  ((fun s => (Namespace s, Forward s, Volumes s, MountPath s)) <$>
     read_with_service !! 2%positive) = Some ("", [], [], "/okteto").
Proof. vm_compute. split; reflexivity. Qed.

Lemma Read_defaults_witness :
  Read (decoder_of manifest_workdir [manifest_service]) [] =
    Done (read_with_service, (Some 1%positive, None)) ∧
  ∃ h0 d0 l d,
    yaml_UnmarshalStrict (decoder_of manifest_workdir [manifest_service]) []
      1%positive {[ 1%positive := Read_init ]} = inl h0 ∧
    h0 !! 1%positive = Some d0 ∧ Some 1%positive = Some l ∧
    read_with_service !! l = Some d ∧
    Command d ≠ [] ∧ MountPath d ≠ "" ∧
    (Command d0 = [] → Command d = ["sh"]) ∧
    (MountPath d0 = "" → WorkDir d0 = "" → MountPath d = "/okteto" ∧ WorkDir d = "/okteto") ∧
    (MountPath d0 = "" → WorkDir d0 ≠ "" → MountPath d = WorkDir d ∧ WorkDir d = WorkDir d0) ∧
    (WorkDir d = "" ↔ WorkDir d0 = "" ∧ MountPath d0 ≠ "").
Proof.
  split; [exact Read_with_service_run|].
  exact (Read_defaults _ _ _ _ Read_with_service_run).
Defined.

(** C9 as stated fails: a manifest that declares [mountpath: /app] and no
    workdir is accepted by [Read], and the Dev it returns has an empty work
    directory. *)
Lemma Read_workdir_empty_counterexample :
  ∃ h d,
    Read (decoder_of manifest_mountpath_only []) [] = Done (h, (Some 1%positive, None)) ∧
    h !! 1%positive = Some d ∧
    Command d = ["sh"] ∧ MountPath d = "/app" ∧ WorkDir d = "".
Proof.
  exists read_mountpath_only. eexists.
  split; [exact Read_mountpath_only_run|].
  split; [vm_compute; reflexivity|]. repeat split.
Qed.

End ModelExamples.

(** *** Package [path] on the examples of its documentation *)

Section PathExamples.

Example path_Clean_doc :
  path.Clean <$> ["a/c"; "a//c"; "a/c/."; "a/c/b/.."; "/../a/c"; "/../a/b/../././/c"; "";
                  "../a"; "a/../.."; "/"; "."] =
  ["a/c"; "a/c"; "a/c"; "a/c"; "/a/c"; "/a/c"; "."; "../a"; ".."; "/"; "."].
Proof. vm_compute. reflexivity. Qed.

Example path_Join_doc :
  path.Join <$> [["a"; "b"; "c"]; ["a"; "b/c"]; ["a/b"; "c"]; ["a/b"; "../../../xyz"];
                 [""; ""]; ["a"; ""]; [""; "a"]; ["api"; "data-0"; ""]] =
  ["a/b/c"; "a/b/c"; "a/b/c"; "../xyz"; ""; "a"; "a"; "api/data-0"].
Proof. vm_compute. reflexivity. Qed.

Example path_Dir_Base_doc :
  path.Dir <$> ["/a/b/c"; "a/b/c"; "/a/"; "a/"; "/"; ""; "okteto.yml"] =
    ["/a/b"; "a/b"; "/a"; "a"; "/"; "."; "."] ∧
  path.Base <$> ["/a/b"; "/"; ""; "a/b/"; "okteto.yml"] = ["b"; "/"; "."; "b"; "okteto.yml"].
Proof. vm_compute. split; reflexivity. Qed.

End PathExamples.

(** ** Package [pkg/model]: validation, names, forced pull *)

Section ValidateProofs.
Import model fixtures model_vocab.
Context (X : externals) (F : files).

Lemma validatePullPolicy_nil (p : PullPolicy) :
  validatePullPolicy p = None ↔ supported_policy p.
Proof.
  unfold validatePullPolicy, supported_policy, PullAlways, PullIfNotPresent, PullNever.
  repeat case_bool_decide; split; try done; try tauto;
    try (intros [?|[?|?]]; done).
Qed.

Lemma validate_services_nil (h : heap) (ss : list ptr) :
  validate_services h ss = Done None →
  ∀ s, s ∈ ss → ∃ l d, s = Some l ∧ h !! l = Some d ∧ supported_policy (ImagePullPolicy d).
Proof.
  induction ss as [|s ss IH]; intros Hrun s' Hs'; [by apply elem_of_nil in Hs'|].
  cbn [validate_services] in Hrun.
  destruct (deref h s) as [d|] eqn:Hd; [|discriminate Hrun].
  rewrite bind_Done in Hrun. apply deref_Some in Hd as (l & -> & Hl).
  destruct (validatePullPolicy (ImagePullPolicy d)) as [e|] eqn:Hp; [discriminate Hrun|].
  apply validatePullPolicy_nil in Hp.
  apply elem_of_cons in Hs' as [->|Hs']; [eauto|by apply IH].
Qed.

Lemma prefix_hyphen (l : list ascii) : ["-"%char] `prefix_of` l ↔ head l = Some "-"%char.
Proof.
  split.
  - intros [k ->]. done.
  - destruct l as [|c l]; [done|]. intros [= ->]. by exists l.
Qed.

Lemma suffix_hyphen (l : list ascii) : ["-"%char] `suffix_of` l ↔ list.last l = Some "-"%char.
Proof.
  split.
  - intros [k ->]. by rewrite last_snoc.
  - intros Hl. destruct l as [|c l _] using rev_ind; [done|].
    rewrite last_snoc in Hl. injection Hl as ->. by exists l.
Qed.

(** What [validate] has checked when it returns nil. *)
Lemma validate_nil (h : heap) (dev : ptr) :
  validate h dev = Done None →
  ∃ l d, dev = Some l ∧ h !! l = Some d ∧
    Name d ≠ "" ∧
    Forall (fun c => outside_kube_name c = false) (chars (Name d)) ∧
    head (chars (Name d)) ≠ Some "-"%char ∧
    list.last (chars (Name d)) ≠ Some "-"%char ∧
    SubPath d = "" ∧
    supported_policy (ImagePullPolicy d) ∧
    validate_services h (Services d) = Done None.
Proof.
  unfold validate. intros Hrun.
  destruct (deref h dev) as [d|] eqn:Hd; [|discriminate Hrun].
  rewrite bind_Done in Hrun. apply deref_Some in Hd as (l & -> & Hl).
  exists l, d. split; [done|]. split; [done|].
  case_bool_decide as Hname; [discriminate Hrun|].
  destruct (ValidKubeNameRegex_MatchString (Name d)) eqn:Hre; [discriminate Hrun|].
  destruct (strings_HasPrefix (Name d) "-") eqn:Hpre; [discriminate Hrun|].
  destruct (strings_HasSuffix (Name d) "-") eqn:Hsuf; [discriminate Hrun|].
  cbn [orb] in Hrun. case_bool_decide as Hsub; [discriminate Hrun|].
  destruct (validatePullPolicy (ImagePullPolicy d)) as [e|] eqn:Hp; [discriminate Hrun|].
  split; [done|]. split.
  { unfold ValidKubeNameRegex_MatchString in Hre. apply Forall_forall. intros c Hc.
    destruct (outside_kube_name c) eqn:Ho; [|done].
    assert (existsb outside_kube_name (chars (Name d)) = true) as Hex; [|congruence].
    apply existsb_exists. exists c. split; [exact Hc|done]. }
  split.
  { unfold strings_HasPrefix in Hpre. apply bool_decide_eq_false in Hpre.
    intros Hh. apply Hpre. by apply prefix_hyphen. }
  split.
  { unfold strings_HasSuffix in Hsuf. apply bool_decide_eq_false in Hsuf.
    intros Hh. apply Hsuf. by apply suffix_hyphen. }
  split; [done|].
  split; [by apply validatePullPolicy_nil|done].
Qed.

(** Every Dev that [Get] returns has a name made of lower case letters,
    digits and hyphens, not empty and neither starting nor ending with a
    hyphen; it declares no subpath; its pull policy and the pull policy of
    each of its services is one of Always, IfNotPresent, Never; and its
    DevPath is the base name of the path it was read from. *)
Theorem Get_accepted (devPath : string) (h : heap) (p : ptr) :
  Get X F devPath = Done (h, (p, None)) →
  ∃ l d, p = Some l ∧ h !! l = Some d ∧
    Name d ≠ "" ∧
    Forall (fun c => outside_kube_name c = false) (chars (Name d)) ∧
    head (chars (Name d)) ≠ Some "-"%char ∧
    list.last (chars (Name d)) ≠ Some "-"%char ∧
    SubPath d = "" ∧
    supported_policy (ImagePullPolicy d) ∧
    (∀ s, s ∈ Services d →
       ∃ ls sd, s = Some ls ∧ h !! ls = Some sd ∧ supported_policy (ImagePullPolicy sd)) ∧
    DevPath d = filepath_Base F devPath.
Proof.
  unfold Get. intros Hrun.
  destruct (ioutil_ReadFile F devPath) as [b|e]; [|discriminate Hrun].
  destruct (Read X b) as [[h0 [dev err]]|] eqn:HRead; [|discriminate Hrun].
  rewrite bind_Done in Hrun. destruct err as [e|]; [discriminate Hrun|].
  destruct (validate h0 dev) as [[e|]|] eqn:Hval; try discriminate Hrun.
  rewrite bind_Done in Hrun.
  apply validate_nil in Hval as (l & d & -> & Hl & H1 & H2 & H3 & H4 & H5 & H6 & H7).
  unfold deref in Hrun. rewrite Hl, bind_Done in Hrun.
  destruct (filepath_Abs F (filepath_Dir F devPath)) as [dir|e]; [|discriminate Hrun].
  apply Done_inj in Hrun. apply pair_equal_spec in Hrun as [<- [= <-]].
  eexists l, _. split; [done|]. cbn [store]. rewrite lookup_insert_eq.
  split; [done|]. do 6 (split; [done|]). split; [|done].
  intros s Hs. destruct (validate_services_nil _ _ H7 s Hs) as (ls & sd & -> & Hsd & Hp).
  destruct (decide (l = ls)) as [->|Hne].
  - eexists ls, _. rewrite lookup_insert_eq. split; [done|]. split; [done|].
    assert (sd = d) as -> by congruence. done.
  - exists ls, sd. by rewrite lookup_insert_ne.
Qed.

End ValidateProofs.

Section NameProofs.
Import model.

Lemma substring_0_length (n : nat) (s : string) :
  (String.length (String.substring 0 n s) ≤ n)%nat.
Proof.
  revert s. induction n as [|n IH]; intros [|c s]; simpl; try lia.
  specialize (IH s). lia.
Qed.

Lemma substring_0_prefix (n : nat) (s : string) :
  String.prefix (String.substring 0 n s) s = true.
Proof.
  revert s. induction n as [|n IH]; intros [|c s]; simpl; try done.
  rewrite IH. by destruct (ascii_dec c c).
Qed.

Lemma prefix_refl (s : string) : String.prefix s s = true.
Proof. induction s as [|c s IH]; simpl; [done|]. rewrite IH. by destruct (ascii_dec c c). Qed.


Lemma template_name_index (i j : Z) :
  GetVolumeTemplateName i = GetVolumeTemplateName j → i = j.
Proof.
  unfold GetVolumeTemplateName, Sprintf_d. intros Heq.
  apply (inj (String.app "pvc-")) in Heq. by apply (inj pretty) in Heq.
Qed.

(** Two volume indices never get the same template name. *)
Theorem GetVolumeTemplateName_inj (i j : Z) :
  GetVolumeTemplateName i = GetVolumeTemplateName j → i = j.
Proof. apply template_name_index. Qed.

End NameProofs.

Section RuleProofs.
Import model.
Context (X : externals).

Lemma rule_volumes_spec (h : heap) (main : ptr) (vs : list Volume) :
  ∀ i acc r, rule_volumes X h main i vs acc = Done r →
  vm_MountPath <$> r = ((vm_MountPath <$> acc) ++ (v_MountPath <$> vs))%list ∧
  (Forall (fun v => vm_Name v = OktetoVolumeName) acc →
   Forall (fun v => vm_Name v = OktetoVolumeName) r).
Proof.
  induction vs as [|v vs IH]; intros i acc r Hrun; cbn [rule_volumes] in Hrun.
  - apply Done_inj in Hrun as <-. by rewrite app_nil_r.
  - destruct (fullSubPath X h main (i + 1) (v_SubPath v)) as [sp|]; [|discriminate Hrun].
    rewrite bind_Done in Hrun. apply IH in Hrun as [Hm Hn]. split.
    + rewrite Hm, fmap_app, <- app_assoc. done.
    + intros Hacc. apply Hn. apply Forall_app. split; [done|]. by apply Forall_singleton.
Qed.

(** The mounts of a translation rule: all are on the [okteto] volume; the
    first is the mount path of the Dev, the main container then mounts
    [/var/syncthing], and the declared volumes follow in the order of the
    manifest.  The main container gets the marker variable after the declared
    environment and the Dev's path as marker; a service gets neither. *)
Theorem ToTranslationRule_mounts (h : heap) (dev main : ptr) (d : Dev) (r : TranslationRule) :
  deref h dev = Done d →
  ToTranslationRule X h dev main = Done r →
  Forall (fun v => vm_Name v = OktetoVolumeName) (r_Volumes r) ∧
  vm_MountPath <$> r_Volumes r =
    (MountPath d :: (if bool_decide (main = dev) then [oktetoSyncthingMountPath] else []) ++
     (v_MountPath <$> Volumes d))%list ∧
  r_Environment r =
    (Environment d ++
     (if bool_decide (main = dev)
      then [mkEnvVar oktetoMarkerPathVariable (path_Join X [MountPath d; DevPath d])]
      else []))%list ∧
  Marker r = (if bool_decide (main = dev) then DevPath d else "").
Proof.
  intros Hd. unfold ToTranslationRule. rewrite Hd, bind_Done. intros Hrun.
  destruct (fullSubPath X h main 0 (SubPath d)) as [sp0|]; [|discriminate Hrun].
  rewrite bind_Done in Hrun. case_bool_decide as Heq.
  - destruct (syncthingSubPath X h dev) as [ssp|]; [|discriminate Hrun].
    rewrite bind_Done in Hrun.
    destruct (RemoteModeEnabled h main) as [remote|]; [|discriminate Hrun].
    rewrite bind_Done in Hrun.
    destruct (rule_volumes X h main 0 (Volumes d) _) as [vols|] eqn:Hv; [|discriminate Hrun].
    rewrite bind_Done in Hrun. apply Done_inj in Hrun as <-.
    apply rule_volumes_spec in Hv as [Hm Hn]. cbn [r_Volumes r_Environment Marker].
    split; [apply Hn; by repeat constructor|]. split; [exact Hm|done].
  - destruct (rule_volumes X h main 0 (Volumes d) _) as [vols|] eqn:Hv; [|discriminate Hrun].
    rewrite bind_Done in Hrun. apply Done_inj in Hrun as <-.
    apply rule_volumes_spec in Hv as [Hm Hn]. cbn [r_Volumes r_Environment Marker].
    split; [apply Hn; by repeat constructor|]. split; [exact Hm|]. by rewrite app_nil_r.
Qed.

End RuleProofs.

Section ForcePullProofs.
Import model fixtures model_vocab.
Context (X : externals).

(** The loop of [setDefaults], for any property that its last assignments
    establish: when the loop ends without an error the property holds of
    every service; every struct of the final store has it or is untouched;
    no struct disappears. *)
Lemma setDefaults_services_establishes (P : Dev → Prop) :
  (∀ d, P (service_defaults_2 (service_defaults_1 d))) →
  ∀ (ss : list ptr) (h h' : heap),
  setDefaults_services h ss = Done (h', None) →
  (∀ s, s ∈ ss → ∃ l sd, s = Some l ∧ h' !! l = Some sd ∧ P sd) ∧
  (∀ l d', h' !! l = Some d' → P d' ∨ h !! l = Some d') ∧
  (∀ l, is_Some (h !! l) → is_Some (h' !! l)).
Proof.
  intros HP. induction ss as [|s rest IH]; intros h h' Hrun.
  - apply Done_inj, pair_equal_spec in Hrun as [-> _]. split_and!; [|auto..].
    intros s Hs. by apply elem_of_nil in Hs.
  - rewrite setDefaults_services_cons in Hrun.
    destruct (deref h s) as [d|] eqn:Hd; [|discriminate Hrun].
    rewrite bind_Done in Hrun. apply deref_Some in Hd as (l0 & -> & Hl0).
    case_bool_decide as Herr; [discriminate Hrun|]. cbn [store] in Hrun.
    apply IH in Hrun as (HA & HB & HC).
    assert (∃ sd, h' !! l0 = Some sd ∧ P sd) as (sd0 & Hsd0 & Hst0).
    { destruct (HC l0) as [sd Hsd]; [rewrite lookup_insert_eq; eauto|].
      exists sd. split; [done|]. destruct (HB _ _ Hsd) as [?|Hin]; [done|].
      rewrite lookup_insert_eq in Hin. apply (inj Some) in Hin as <-. apply HP. }
    split_and!.
    + intros s Hs. apply elem_of_cons in Hs as [->|Hs]; [eauto|by apply HA].
    + intros l d' Hl. destruct (HB _ _ Hl) as [?|Hin]; [by left|].
      destruct (decide (l0 = l)) as [->|Hne].
      * left. congruence.
      * right. by rewrite lookup_insert_ne in Hin.
    + intros l Hl. apply HC. destruct (decide (l0 = l)) as [->|Hne].
      * rewrite lookup_insert_eq. eauto.
      * by rewrite lookup_insert_ne.
Qed.

Lemma service_defaults_annotations (d : Dev) :
  Annotations (service_defaults_2 (service_defaults_1 d)) ≠ None.
Proof.
  change (Annotations (service_defaults_2 (service_defaults_1 d)))
    with (Annotations (service_defaults_1 d)).
  unfold service_defaults_1.
  generalize (default_labels (default_mountpath (default_pull_policy (default_paths d)))).
  intros x. unfold default_annotations. case_bool_decide; [done|]. done.
Qed.

Lemma dev_defaults_annotations (d : Dev) : Annotations (dev_defaults d) ≠ None.
Proof.
  unfold dev_defaults, service_defaults_1.
  generalize (default_labels (default_mountpath (default_pull_policy
                (default_paths (default_command d))))).
  intros x. unfold default_annotations. case_bool_decide; [done|]. done.
Qed.

(** After a successful [Read] the Dev and each of its services have an
    annotation map. *)
Lemma Read_annotations (bytes : list Byte.byte) (h : heap) (p : ptr) :
  Read X bytes = Done (h, (p, None)) →
  ∃ l d, p = Some l ∧ h !! l = Some d ∧ Annotations d ≠ None ∧
    ∀ s, s ∈ Services d → ∃ ls sd, s = Some ls ∧ h !! ls = Some sd ∧ Annotations sd ≠ None.
Proof.
  intros Hrun.
  apply Read_success_inv in Hrun as (h0 & d0 & d1 & _ & _ & -> & _ & _ & _ & Hloop).
  pose proof (setDefaults_services_establishes (fun d => Annotations d ≠ None)
                service_defaults_annotations _ _ _ Hloop) as (HA & HB & HC).
  pose proof (setDefaults_services_inv _ _ _ Hloop) as (HA' & HB' & _).
  destruct (HC 1%positive) as [d Hd]; [rewrite lookup_insert_eq; eauto|].
  exists 1%positive, d. split; [done|]. split; [done|].
  destruct (HB' _ _ Hd) as [Hst|Hin].
  - destruct Hst as (_ & _ & _ & _ & Hsv). rewrite Hsv. split.
    + destruct (HB _ _ Hd) as [?|Hin]; [done|].
      rewrite lookup_insert_eq in Hin. apply (inj Some) in Hin as <-.
      apply dev_defaults_annotations.
    + intros s Hs. by apply elem_of_nil in Hs.
  - rewrite lookup_insert_eq in Hin. apply (inj Some) in Hin as <-. split.
    + apply dev_defaults_annotations.
    + intros s Hs. destruct (HA s Hs) as (ls & sd & -> & Hsd & Hst). eauto.
Qed.

Lemma force_pulled_intro (uuid : string) (d : Dev) (a : gmap string string) :
  force_pulled uuid
    (set_Annotations (Some (<[OktetoRestartAnnotation := uuid]> a))
       (set_ImagePullPolicy PullAlways d)).
Proof. split; [done|]. eexists. split; [done|]. apply lookup_insert_eq. Qed.

(** The loop of [LoadForcePull] over services that all have an annotation
    map. *)
Lemma LoadForcePull_services_spec (uuid : string) (ss : list ptr) :
  ∀ (h : heap),
  (∀ s, s ∈ ss → ∃ l d, s = Some l ∧ h !! l = Some d ∧ Annotations d ≠ None) →
  ∃ h', LoadForcePull_services h ss uuid = Done h' ∧
    (∀ s, s ∈ ss → ∃ l d, s = Some l ∧ h' !! l = Some d ∧ force_pulled uuid d) ∧
    (∀ l d', h' !! l = Some d' → force_pulled uuid d' ∨ h !! l = Some d') ∧
    (∀ l, is_Some (h !! l) → is_Some (h' !! l)) ∧
    (∀ l d', h' !! l = Some d' → ∃ d0, h !! l = Some d0 ∧ Services d' = Services d0).
Proof.
  induction ss as [|s rest IH]; intros h Hall.
  - exists h. split; [done|]. split_and!; [|auto|auto|eauto].
    intros s Hs. by apply elem_of_nil in Hs.
  - destruct (Hall s) as (l0 & d & -> & Hl0 & Hann); [by left|].
    destruct (Annotations d) as [a|] eqn:Ha; [|done].
    cbn [LoadForcePull_services]. unfold deref. rewrite Hl0, bind_Done.
    change (Annotations (set_ImagePullPolicy PullAlways d)) with (Annotations d).
    rewrite Ha. cbn [map_assign]. rewrite bind_Done. cbn [store].
    set (d' := set_Annotations _ _).
    assert (Hd' : force_pulled uuid d') by apply force_pulled_intro.
    destruct (IH (<[l0 := d']> h)) as (h' & Hrun & HA & HB & HC & HS).
    { intros s Hs. destruct (Hall s) as (l & sd & -> & Hl & Hsa); [by right|].
      destruct (decide (l0 = l)) as [->|Hne].
      - exists l, d'. rewrite lookup_insert_eq. split; [done|]. split; [done|].
        by destruct Hd' as (_ & a' & -> & _).
      - exists l, sd. by rewrite lookup_insert_ne. }
    exists h'. split; [done|].
    assert (∃ sd, h' !! l0 = Some sd ∧ force_pulled uuid sd) as (sd0 & Hsd0 & Hfp0).
    { destruct (HC l0) as [sd Hsd]; [rewrite lookup_insert_eq; eauto|].
      exists sd. split; [done|]. destruct (HB _ _ Hsd) as [?|Hin]; [done|].
      rewrite lookup_insert_eq in Hin. by apply (inj Some) in Hin as <-. }
    split_and!.
    + intros s Hs. apply elem_of_cons in Hs as [->|Hs]; [eauto|by apply HA].
    + intros l dl Hl. destruct (HB _ _ Hl) as [?|Hin]; [by left|].
      destruct (decide (l0 = l)) as [->|Hne].
      * left. congruence.
      * right. by rewrite lookup_insert_ne in Hin.
    + intros l Hl. apply HC. destruct (decide (l0 = l)) as [->|Hne].
      * rewrite lookup_insert_eq. eauto.
      * by rewrite lookup_insert_ne.
    + intros l dl Hl. destruct (HS _ _ Hl) as (d1 & Hd1 & Hsv1).
      destruct (decide (l0 = l)) as [->|Hne].
      * rewrite lookup_insert_eq in Hd1. apply (inj Some) in Hd1 as <-.
        exists d. split; [done|]. by rewrite Hsv1.
      * rewrite lookup_insert_ne in Hd1 by done. eauto.
Qed.

(** [LoadForcePull] on the Dev of a successful [Read] does not panic (the
    annotation maps it writes to exist), and leaves the Dev and each of its
    services with the pull policy Always and the same restart annotation. *)
Theorem LoadForcePull_after_Read (bytes : list Byte.byte) (h : heap) (p : ptr)
    (restartUUID : string) :
  Read X bytes = Done (h, (p, None)) →
  ∃ h' l d, LoadForcePull h p restartUUID = Done h' ∧
    p = Some l ∧ h' !! l = Some d ∧ force_pulled restartUUID d ∧
    ∀ s, s ∈ Services d →
      ∃ ls sd, s = Some ls ∧ h' !! ls = Some sd ∧ force_pulled restartUUID sd.
Proof.
  intros Hrun. apply Read_annotations in Hrun as (l & d & -> & Hl & Hann & Hsv).
  unfold LoadForcePull, deref. rewrite Hl, bind_Done.
  change (Annotations (set_ImagePullPolicy PullAlways d)) with (Annotations d).
  destruct (Annotations d) as [a|] eqn:Ha; [|done].
  cbn [map_assign]. rewrite bind_Done. cbn [store].
  set (d' := set_Annotations _ _).
  assert (Hd' : force_pulled restartUUID d') by apply force_pulled_intro.
  change (Services d') with (Services d).
  destruct (LoadForcePull_services_spec restartUUID (Services d) (<[l := d']> h))
    as (h' & Hloop & HA & HB & HC & HS).
  { intros s Hs. destruct (Hsv s Hs) as (ls & sd & -> & Hls & Hsa).
    destruct (decide (l = ls)) as [->|Hne].
    - exists ls, d'. rewrite lookup_insert_eq. split; [done|]. split; [done|].
      by destruct Hd' as (_ & a' & -> & _).
    - exists ls, sd. by rewrite lookup_insert_ne. }
  destruct (HC l) as [dl Hdl]; [rewrite lookup_insert_eq; eauto|].
  assert (Hfp : force_pulled restartUUID dl).
  { destruct (HB _ _ Hdl) as [?|Hin]; [done|].
    rewrite lookup_insert_eq in Hin. by apply (inj Some) in Hin as <-. }
  exists h', l, dl. split; [done|]. split; [done|]. split; [done|]. split; [done|].
  intros s Hs. apply HA.
  destruct (HS _ _ Hdl) as (d1 & Hd1 & Hsv1).
  rewrite lookup_insert_eq in Hd1. apply (inj Some) in Hd1 as <-.
  rewrite Hsv1 in Hs. exact Hs.
Qed.

End ForcePullProofs.

Section ConflictProofs.
Import model fixtures model_vocab.
Context (X : externals).

Lemma default_labels_len (d : Dev) :
  Name (default_labels d) = Name d ∧ map_len (Labels (default_labels d)) = map_len (Labels d).
Proof.
  unfold default_labels. case_bool_decide as Hc; [|done].
  split; [done|]. rewrite Hc. reflexivity.
Qed.

(** The defaults change neither the name of a struct nor the number of its
    labels. *)
Lemma service_defaults_1_ids (d : Dev) :
  Name (service_defaults_1 d) = Name d ∧
  map_len (Labels (service_defaults_1 d)) = map_len (Labels d).
Proof.
  unfold service_defaults_1.
  assert (H1 : ∀ x, Name (default_paths x) = Name x ∧ Labels (default_paths x) = Labels x)
    by (intros x; unfold default_paths; by case_bool_decide).
  assert (H2 : ∀ x, Name (default_pull_policy x) = Name x ∧
                    Labels (default_pull_policy x) = Labels x)
    by (intros x; unfold default_pull_policy; by case_bool_decide).
  assert (H3 : ∀ x, Name (default_mountpath x) = Name x ∧
                    Labels (default_mountpath x) = Labels x)
    by (intros x; unfold default_mountpath; by case_bool_decide).
  assert (H5 : ∀ x, Name (default_annotations x) = Name x ∧
                    Labels (default_annotations x) = Labels x)
    by (intros x; unfold default_annotations; by case_bool_decide).
  destruct (H1 d) as [N1 L1]. set (d1 := default_paths d) in *. clearbody d1.
  destruct (H2 d1) as [N2 L2]. set (d2 := default_pull_policy d1) in *. clearbody d2.
  destruct (H3 d2) as [N3 L3]. set (d3 := default_mountpath d2) in *. clearbody d3.
  destruct (default_labels_len d3) as [N4 L4]. set (d4 := default_labels d3) in *.
  clearbody d4. destruct (H5 d4) as [N5 L5].
  rewrite N5, N4, N3, N2, N1, L5, L4, L3, L2, L1. done.
Qed.

Lemma service_defaults_1_conflict (d : Dev) :
  name_and_labels (service_defaults_1 d) ↔ name_and_labels d.
Proof.
  unfold name_and_labels. destruct (service_defaults_1_ids d) as [-> ->]. done.
Qed.

(** The loop of [setDefaults] over live pointers ends, and it ends with an
    error exactly when one of the services has a name and labels. *)
Lemma setDefaults_services_error (ss : list ptr) :
  ∀ (h : heap),
  (∀ s, s ∈ ss → ∃ l sd, s = Some l ∧ h !! l = Some sd) →
  ∃ h' err, setDefaults_services h ss = Done (h', err) ∧
    ((err = None ∧ ∀ l sd, Some l ∈ ss → h !! l = Some sd → ¬ name_and_labels sd) ∨
     (err ≠ None ∧ ∃ l sd, Some l ∈ ss ∧ h !! l = Some sd ∧ name_and_labels sd)).
Proof.
  induction ss as [|s rest IH]; intros h Hall.
  - exists h, None. split; [done|]. left. split; [done|].
    intros l sd Hl. by apply elem_of_nil in Hl.
  - destruct (Hall s) as (l0 & d & -> & Hl0); [by left|].
    rewrite setDefaults_services_cons. unfold deref. rewrite Hl0, bind_Done.
    case_bool_decide as Herr.
    + eexists _, _. split; [reflexivity|]. right. split; [done|].
      exists l0, d. split; [by left|]. split; [done|].
      by apply service_defaults_1_conflict.
    + cbn [store].
      assert (Hd : ¬ name_and_labels d)
        by (intros Hc; apply Herr; by apply service_defaults_1_conflict).
      destruct (IH (<[l0 := service_defaults_2 (service_defaults_1 d)]> h))
        as (h' & err & Hrun & Hcases).
      { intros s Hs. destruct (Hall s) as (l & sd & -> & Hl); [by right|].
        destruct (decide (l0 = l)) as [->|Hne].
        - eexists l, _. by rewrite lookup_insert_eq.
        - exists l, sd. by rewrite lookup_insert_ne. }
      exists h', err. split; [done|]. destruct Hcases as [[-> Hno]|[Hne (l & sd & Hl & Hsd & Hc)]].
      * left. split; [done|]. intros l sd Hl Hsd.
        destruct (decide (l0 = l)) as [->|Hne]; [by assert (sd = d) as -> by congruence|].
        apply elem_of_cons in Hl as [[= <-]|Hl]; [done|].
        apply (Hno l sd Hl). by rewrite lookup_insert_ne.
      * right. split; [done|]. destruct (decide (l0 = l)) as [->|Hnl].
        { rewrite lookup_insert_eq in Hsd. apply (inj Some) in Hsd as <-.
          exfalso. apply Herr. exact Hc. }
        rewrite lookup_insert_ne in Hsd by done.
        exists l, sd. split; [by right|done].
Qed.

Lemma dev_defaults_ids (d : Dev) :
  Name (dev_defaults d) = Name d ∧
  map_len (Labels (dev_defaults d)) = map_len (Labels d) ∧
  Services (dev_defaults d) = Services d.
Proof.
  unfold dev_defaults.
  destruct (service_defaults_1_ids (default_command d)) as [-> ->].
  assert (Hs : ∀ x, Services (service_defaults_1 x) = Services x).
  { intros x. unfold service_defaults_1, default_annotations, default_labels,
      default_mountpath, default_pull_policy, default_paths.
    repeat (case_bool_decide; cbn [Services set_Annotations set_Labels set_MountPath
                                   set_ImagePullPolicy set_WorkDir]); done. }
  rewrite Hs. unfold default_command. by case_bool_decide.
Qed.


End ConflictProofs.

(** *** The theorems above on the fixtures *)

Section ModelMoreExamples.
Import model fixtures model_vocab.

Lemma Get_api_run :
  Get (decoder_of manifest_api [manifest_service]) one_manifest "okteto.yml" =
  Done (get_api, (Some 1%positive, None)).
Proof. vm_compute. reflexivity. Defined.

Lemma Read_api_run :
  Read (decoder_of manifest_api [manifest_service]) [] =
  Done (read_api, (Some 1%positive, None)).
Proof. vm_compute. reflexivity. Defined.

Lemma Get_accepted_witness :
  Get (decoder_of manifest_api [manifest_service]) one_manifest "okteto.yml" =
    Done (get_api, (Some 1%positive, None)) ∧
  ∃ l d, Some 1%positive = Some l ∧ get_api !! l = Some d ∧
    Name d ≠ "" ∧
    Forall (fun c => outside_kube_name c = false) (chars (Name d)) ∧
    head (chars (Name d)) ≠ Some "-"%char ∧
    list.last (chars (Name d)) ≠ Some "-"%char ∧
    SubPath d = "" ∧
    supported_policy (ImagePullPolicy d) ∧
    (∀ s, s ∈ Services d →
       ∃ ls sd, s = Some ls ∧ get_api !! ls = Some sd ∧
         supported_policy (ImagePullPolicy sd)) ∧
    DevPath d = filepath_Base one_manifest "okteto.yml".
Proof.
  split; [exact Get_api_run|].
  exact (Get_accepted _ _ _ _ _ Get_api_run).
Defined.

(** Names [Get] turns down: upper case, a leading hyphen, a trailing hyphen,
    the empty name; and a missing file. *)
Example Get_rejects :
  (fun name =>
     snd <$> match Get (decoder_of (mkDev name None None "" "" "" "" [] [] "" "" "" [] None
                                      [] [] 0 (mkResourceRequirements None None) "" "" []) [])
                   one_manifest "okteto.yml" with
             | Done (_, r) => Some r | Panic => None end)
    <$> ["Api"; "-api"; "api-"; ""; "my_api"] =
  [Some (Some errBadName); Some (Some errBadName); Some (Some errBadName);
   Some (Some (Errorf "Name cannot be empty")); Some (Some errBadName)] ∧
  Get (decoder_of manifest_api []) one_manifest "missing.yml" =
  Done (∅, (None, Some (PathError "open" "missing.yml"
                          (Errorf "no such file or directory")))).
Proof. vm_compute. split; reflexivity. Qed.


(** A name of 50 bytes: the stateful set keeps [okteto-] and its first 45
    bytes. *)
Example GetStatefulSetName_cut :
  GetStatefulSetName
    {[ 1%positive := mkDev "a123456789b123456789c123456789d123456789e123456789" None None
                       "" "" "" "" [] [] "" "" "" [] None [] [] 0
                       (mkResourceRequirements None None) "" "" [] ]}
    (Some 1%positive) =
  Done "okteto-a123456789b123456789c123456789d123456789e1234".
Proof. vm_compute. reflexivity. Qed.

Lemma GetVolumeTemplateName_inj_witness :
  GetVolumeTemplateName 3 = GetVolumeTemplateName 3 ∧ 3 = 3.
Proof.
  split; [reflexivity|]. exact (GetVolumeTemplateName_inj 3 3 eq_refl).
Defined.

Lemma ToTranslationRule_main_run :
  ∃ r, ToTranslationRule (decoder_of Read_init []) read_api (Some 1%positive) (Some 1%positive)
       = Done r.
Proof. eexists. vm_compute. reflexivity. Defined.

Lemma ToTranslationRule_mounts_witness :
  ∃ d r,
    deref read_api (Some 1%positive) = Done d ∧
    ToTranslationRule (decoder_of Read_init []) read_api (Some 1%positive) (Some 1%positive)
      = Done r ∧
    Forall (fun v => vm_Name v = OktetoVolumeName) (r_Volumes r) ∧
    vm_MountPath <$> r_Volumes r =
      (MountPath d ::
       (if bool_decide (Some 1%positive = Some 1%positive :> ptr)
        then [oktetoSyncthingMountPath] else []) ++
       (v_MountPath <$> Volumes d))%list ∧
    r_Environment r =
      (Environment d ++
       (if bool_decide (Some 1%positive = Some 1%positive :> ptr)
        then [mkEnvVar oktetoMarkerPathVariable
                (path_Join (decoder_of Read_init []) [MountPath d; DevPath d])]
        else []))%list ∧
    Marker r = (if bool_decide (Some 1%positive = Some 1%positive :> ptr)
                then DevPath d else "").
Proof.
  destruct ToTranslationRule_main_run as [r Hr].
  assert (Hd : ∃ d, deref read_api (Some 1%positive) = Done d)
    by (eexists; vm_compute; reflexivity).
  destruct Hd as [d Hd]. exists d, r. split; [exact Hd|]. split; [exact Hr|].
  exact (ToTranslationRule_mounts _ _ _ _ _ _ Hd Hr).
Defined.

(** The mounts of the main container of the fixture: the mount path, the
    synchroniser's directory, the declared volume. *)
Example ToTranslationRule_mounts_run :
  (fun r => vm_MountPath <$> r_Volumes r) <$>
    (match ToTranslationRule (decoder_of Read_init []) read_api (Some 1%positive)
             (Some 1%positive) with Done r => Some r | Panic => None end) =
  Some ["/okteto"; "/var/syncthing"; "/cache"].
Proof. vm_compute. reflexivity. Qed.

Lemma LoadForcePull_after_Read_witness :
  Read (decoder_of manifest_api [manifest_service]) [] =
    Done (read_api, (Some 1%positive, None)) ∧
  ∃ h' l d, LoadForcePull read_api (Some 1%positive) "6ba7b810-9dad-11d1-80b4-00c04fd430c8"
              = Done h' ∧
    Some 1%positive = Some l ∧ h' !! l = Some d ∧
    force_pulled "6ba7b810-9dad-11d1-80b4-00c04fd430c8" d ∧
    ∀ s, s ∈ Services d →
      ∃ ls sd, s = Some ls ∧ h' !! ls = Some sd ∧
        force_pulled "6ba7b810-9dad-11d1-80b4-00c04fd430c8" sd.
Proof.
  split; [exact Read_api_run|].
  exact (LoadForcePull_after_Read _ _ _ _ _ Read_api_run).
Defined.

(** Without [Read] nothing creates the annotation map, and [LoadForcePull]
    panics on writing to it. *)
Example LoadForcePull_nil_map :
  LoadForcePull {[ 1%positive := manifest_api ]} (Some 1%positive) "u" = Panic.
Proof. reflexivity. Qed.


Example Read_name_and_labels_run :
  snd <$> (match Read (decoder_of manifest_api [service_conflict]) [] with
           | Done (_, r) => Some r | Panic => None end) =
  Some (Some (Errorf
    "'name' and 'labels' cannot be defined at the same time for service 'worker'")).
Proof. vm_compute. reflexivity. Qed.

End ModelMoreExamples.

(** ** Package [k8s] *)

Section K8sProofs.
Import model k8s.

Lemma ParseQuantity_10Gi (lib : resource.library) :
  resource.ParseQuantity lib "10Gi" =
  (resource.mkQuantity (10 * 2 ^ 30 * 1000) resource.BinarySI, None).
Proof. vm_compute. reflexivity. Qed.

(** The loop, started at [i] with enough fuel, appends the claims of the
    indices [i], [i+1], ..., [n]. *)
Lemma claims_loop_spec (q : resource.Quantity) (n : Z) :
  ∀ (fuel : nat) (i : Z) (acc : list apiv1.PersistentVolumeClaim),
  i ≤ n + 1 →
  (Z.to_nat (n + 1 - i) < fuel)%nat →
  claims_loop fuel q i n acc =
  Some (acc ++ (volumeClaim q <$> seqZ i (n + 1 - i)))%list.
Proof.
  induction fuel as [|fuel IH]; intros i acc Hi Hfuel; [lia|].
  simpl. case_bool_decide as Hc.
  - rewrite IH by lia. rewrite (seqZ_cons i) by lia.
    rewrite fmap_cons, <- app_assoc.
    replace (Z.succ i) with (i + 1) by lia.
    replace (Z.pred (n + 1 - i)) with (n + 1 - (i + 1)) by lia. done.
  - replace (n + 1 - i) with 0 by lia. by rewrite app_nil_r.
Qed.

(** C8.  For a Dev with [n] declared volumes the claim templates are
    exactly [n+1] claims; the claim at index [i] is named [pvc-i], has the
    single access mode ReadWriteOnce and requests 10Gi of storage.  This
    holds whatever the quantity library answers on the strings whose
    parsing is not computed here. *)
Theorem translateVolumeClaimTemplates_spec (lib : resource.library)
    (h : heap) (dev : ptr) (d : Dev) :
  deref h dev = Done d →
  ∃ r, translateVolumeClaimTemplates lib h dev = Done (Some r) ∧
    length r = S (length (Volumes d)) ∧
    ∀ i : nat, (i ≤ length (Volumes d))%nat →
      ∃ c, r !! i = Some c ∧
        apiv1.pvc_Name c = "pvc-" +:+ pretty (Z.of_nat i) ∧
        apiv1.AccessModes (apiv1.pvc_Spec c) = ["ReadWriteOnce"] ∧
        apiv1.Requests (apiv1.pvc_Resources (apiv1.pvc_Spec c)) =
          Some {[ "storage" := resource.mkQuantity (10 * 2 ^ 30 * 1000) resource.BinarySI ]}.
Proof.
  intros Hd. unfold translateVolumeClaimTemplates. rewrite Hd, bind_Done.
  rewrite ParseQuantity_10Gi. cbn [fst].
  rewrite claims_loop_spec by lia. rewrite app_nil_l.
  eexists. split; [reflexivity|]. split.
  - rewrite length_fmap, length_seqZ. lia.
  - intros i Hi. eexists. split.
    + rewrite list_lookup_fmap, lookup_seqZ_lt by lia. reflexivity.
    + rewrite Z.add_0_l. repeat split.
Qed.

End K8sProofs.

Section K8sExamples.
Import model fixtures k8s.

Lemma translateVolumeClaimTemplates_spec_witness :
  deref heap_two (Some 2%positive) = Done manifest_service ∧
  ∃ r, translateVolumeClaimTemplates resource.format_errors
         heap_two (Some 2%positive) = Done (Some r) ∧
    length r = S (length (Volumes manifest_service)) ∧
    ∀ i : nat, (i ≤ length (Volumes manifest_service))%nat →
      ∃ c, r !! i = Some c ∧
        apiv1.pvc_Name c = "pvc-" +:+ pretty (Z.of_nat i) ∧
        apiv1.AccessModes (apiv1.pvc_Spec c) = ["ReadWriteOnce"] ∧
        apiv1.Requests (apiv1.pvc_Resources (apiv1.pvc_Spec c)) =
          Some {[ "storage" := resource.mkQuantity (10 * 2 ^ 30 * 1000) resource.BinarySI ]}.
Proof.
  split; [reflexivity|].
  apply (translateVolumeClaimTemplates_spec _ heap_two (Some 2%positive) _ eq_refl).
Defined.

(** One declared volume: the two claims [pvc-0] and [pvc-1]. *)
Example translateVolumeClaimTemplates_names :
  (fmap (M := list) apiv1.pvc_Name <$>
     match translateVolumeClaimTemplates resource.format_errors
             heap_two (Some 2%positive) with
     | Done r => r | Panic => None end) = Some ["pvc-0"; "pvc-1"].
Proof. vm_compute. reflexivity. Qed.

End K8sExamples.

(** ** Package [k8s]: the stateful set *)

Section K8sSetProofs.
Import model k8s k8s_set.
Context (H : helpers).

Lemma init_mounts_names (vs : list Volume) :
  ∀ i acc,
  apiv1.vm_Name <$> init_mounts i vs acc =
  ((apiv1.vm_Name <$> acc) ++
   (GetVolumeTemplateName <$> seqZ (i + 1) (Z.of_nat (length vs))))%list.
Proof.
  induction vs as [|v vs IH]; intros i acc; cbn [init_mounts length].
  - by rewrite app_nil_r.
  - rewrite IH, fmap_app, <- app_assoc. f_equal.
    rewrite Nat2Z.inj_succ, (seqZ_cons (i + 1)) by lia. cbn [fmap list_fmap app].
    replace (Z.succ (i + 1)) with (i + 1 + 1) by lia.
    by replace (Z.pred (Z.succ (Z.of_nat (length vs)))) with (Z.of_nat (length vs)) by lia.
Qed.

(** The claim templates, as a list, with [n] declared volumes. *)
Lemma translateVolumeClaimTemplates_eq (h : heap) (dev : ptr) (d : Dev) :
  deref h dev = Done d →
  translateVolumeClaimTemplates (resource_library H) h dev =
  Done (Some (volumeClaim (fst (resource.ParseQuantity (resource_library H) "10Gi")) <$>
                seqZ 0 (Z.of_nat (length (Volumes d)) + 1))).
Proof.
  intros Hd. unfold translateVolumeClaimTemplates. rewrite Hd, bind_Done.
  rewrite claims_loop_spec by lia. rewrite app_nil_l.
  by replace (Z.of_nat (length (Volumes d)) + 1 - 0) with (Z.of_nat (length (Volumes d)) + 1)
    by lia.
Qed.

Lemma first_claim (h : heap) (dev : ptr) (d : Dev) (r : list apiv1.PersistentVolumeClaim) :
  deref h dev = Done d →
  translateVolumeClaimTemplates (resource_library H) h dev = Done (Some r) →
  GetVolumeTemplateName 0 ∈ apiv1.pvc_Name <$> r.
Proof.
  intros Hd Hr. rewrite (translateVolumeClaimTemplates_eq h dev d Hd) in Hr.
  apply Done_inj in Hr. apply (inj Some) in Hr as <-.
  rewrite (seqZ_cons 0) by lia. by left.
Qed.

(** The claim templates of a Dev have pairwise distinct names. *)
Theorem translateVolumeClaimTemplates_NoDup (h : heap) (dev : ptr) (d : Dev)
    (r : list apiv1.PersistentVolumeClaim) :
  deref h dev = Done d →
  translateVolumeClaimTemplates (resource_library H) h dev = Done (Some r) →
  NoDup (apiv1.pvc_Name <$> r).
Proof.
  intros Hd Hr. rewrite (translateVolumeClaimTemplates_eq h dev d Hd) in Hr.
  apply Done_inj in Hr. apply (inj Some) in Hr as <-.
  rewrite <- list_fmap_compose.
  apply (NoDup_fmap_2 (A := Z)); [|apply NoDup_seqZ].
  intros i j Hij. by apply template_name_index.
Qed.

Lemma init_mounts_claims (h : heap) (dev : ptr) (d : Dev) :
  deref h dev = Done d →
  ∃ c r, translateInitContainer H h dev = Done c ∧
    translateVolumeClaimTemplates (resource_library H) h dev = Done (Some r) ∧
    apiv1.vm_Name <$> c_VolumeMounts c = apiv1.pvc_Name <$> r.
Proof.
  intros Hd. eexists _, _. unfold translateInitContainer. rewrite Hd, bind_Done.
  split; [reflexivity|]. split; [by apply translateVolumeClaimTemplates_eq|].
  cbn [c_VolumeMounts]. rewrite init_mounts_names. cbn [fmap list_fmap app apiv1.vm_Name].
  rewrite <- list_fmap_compose.
  rewrite (seqZ_cons 0) by lia. cbn [fmap list_fmap].
  f_equal. replace (Z.succ 0) with (0 + 1) by lia.
  by replace (Z.pred (Z.of_nat (length (Volumes d)) + 1)) with (Z.of_nat (length (Volumes d)))
    by lia.
Qed.

(** The init container mounts exactly the claims that the templates declare:
    the names of its volume mounts are the names of the claim templates, in
    the same order. *)
Theorem init_container_mounts_claims (h : heap) (dev : ptr) (d : Dev) :
  deref h dev = Done d →
  ∃ c r, translateInitContainer H h dev = Done c ∧
    translateVolumeClaimTemplates (resource_library H) h dev = Done (Some r) ∧
    apiv1.vm_Name <$> c_VolumeMounts c = apiv1.pvc_Name <$> r.
Proof. apply init_mounts_claims. Qed.

(** In the stateful set every volume mount of every container, init
    containers included, names a volume of the pod or a claim template: no
    mount dangles.  The pod runs under the security context of the Dev when
    it has one, under the deployment's otherwise. *)
Theorem translate_mounts_resolve (h : heap) (dev : ptr) (dv : Dev) (d : DeploymentPod)
    (policy : string) :
  deref h dev = Done dv →
  ∃ ss, translate H h dev d policy = Done (Some ss) ∧
    (∀ c m, c ∈ (ss_InitContainers ss ++ ss_Containers ss)%list → m ∈ c_VolumeMounts c →
       apiv1.vm_Name m ∈ ((sv_Name <$> ss_Volumes ss) ++
                          (apiv1.pvc_Name <$> ss_VolumeClaimTemplates ss))%list) ∧
    ss_SecurityContext ss =
      match SecurityContext dv with
      | Some sc => Some (mkPodSecurityContext (RunAsUser sc) (RunAsGroup sc) (FSGroup sc))
      | None => dp_SecurityContext d
      end.
Proof.
  intros Hd. destruct (init_mounts_claims h dev dv Hd) as (c0 & r & Hc0 & Hr & Hnames).
  unfold translate. rewrite Hc0, bind_Done, Hd, bind_Done.
  unfold GetStatefulSetName. rewrite Hd, !bind_Done, Hr, bind_Done.
  eexists. split; [reflexivity|]. split; [|done].
  cbn [ss_InitContainers ss_Containers ss_Volumes ss_VolumeClaimTemplates app fmap list_fmap
       sv_Name].
  intros c m Hc Hm. apply elem_of_cons in Hc as [->|Hc].
  - apply elem_of_cons. right. rewrite <- Hnames. by apply list_elem_of_fmap_2.
  - apply elem_of_cons in Hc as [->|Hc]; [|by apply elem_of_nil in Hc].
    cbn [c_VolumeMounts] in Hm. apply elem_of_cons in Hm as [->|Hm]; [by left|].
    apply elem_of_cons in Hm as [->|Hm]; [|by apply elem_of_nil in Hm].
    apply elem_of_cons. right. by apply (first_claim h dev dv).
Qed.

End K8sSetProofs.

Section K8sSetExamples.
Import model fixtures model_vocab k8s k8s_set.

Lemma translateVolumeClaimTemplates_NoDup_witness :
  ∃ d r, deref read_api (Some 1%positive) = Done d ∧
    translateVolumeClaimTemplates (resource_library plain_helpers) read_api
      (Some 1%positive) = Done (Some r) ∧
    NoDup (apiv1.pvc_Name <$> r).
Proof.
  assert (Hd : ∃ d, deref read_api (Some 1%positive) = Done d)
    by (eexists; vm_compute; reflexivity).
  destruct Hd as [d Hd]. exists d.
  pose proof (translateVolumeClaimTemplates_eq plain_helpers read_api (Some 1%positive) d Hd)
    as Hr.
  eexists. split; [exact Hd|]. split; [exact Hr|].
  exact (translateVolumeClaimTemplates_NoDup plain_helpers read_api (Some 1%positive) d _ Hd Hr).
Defined.

Lemma init_container_mounts_claims_witness :
  ∃ d c r, deref read_api (Some 1%positive) = Done d ∧
    translateInitContainer plain_helpers read_api (Some 1%positive) = Done c ∧
    translateVolumeClaimTemplates (resource_library plain_helpers) read_api (Some 1%positive) = Done (Some r) ∧
    apiv1.vm_Name <$> c_VolumeMounts c = apiv1.pvc_Name <$> r.
Proof.
  assert (Hd : ∃ d, deref read_api (Some 1%positive) = Done d)
    by (eexists; vm_compute; reflexivity).
  destruct Hd as [d Hd]. exists d.
  destruct (init_container_mounts_claims plain_helpers read_api (Some 1%positive) d Hd)
    as (c & r & H1 & H2 & H3).
  exists c, r. done.
Defined.

Lemma translate_mounts_resolve_witness :
  ∃ dv ss, deref read_api (Some 1%positive) = Done dv ∧
    translate plain_helpers read_api (Some 1%positive)
      (mkDeploymentPod None [] None None) "Always" = Done (Some ss) ∧
    (∀ c m, c ∈ (ss_InitContainers ss ++ ss_Containers ss)%list → m ∈ c_VolumeMounts c →
       apiv1.vm_Name m ∈ ((sv_Name <$> ss_Volumes ss) ++
                          (apiv1.pvc_Name <$> ss_VolumeClaimTemplates ss))%list).
Proof.
  assert (Hd : ∃ d, deref read_api (Some 1%positive) = Done d)
    by (eexists; vm_compute; reflexivity).
  destruct Hd as [d Hd]. exists d.
  destruct (translate_mounts_resolve plain_helpers read_api (Some 1%positive) d
              (mkDeploymentPod None [] None None) "Always" Hd) as (ss & H1 & H2 & _).
  exists ss. done.
Defined.

(** One declared volume: the init container mounts [pvc-0] and [pvc-1]. *)
Example translateInitContainer_run :
  (fun c => (fun m => (apiv1.vm_Name m, apiv1.vm_MountPath m)) <$> c_VolumeMounts c) <$>
    (match translateInitContainer plain_helpers read_api (Some 1%positive) with
     | Done c => Some c | Panic => None end) =
  Some [("pvc-0", "/okteto/init"); ("pvc-1", "/cache")].
Proof. vm_compute. reflexivity. Qed.

End K8sSetExamples.

(** ** Package [model] of cnd *)

Section CndProofs.
Import cnd_model.

Lemma set_cnd_label_idem (name : string) (labels : option (gmap string string)) :
  set_cnd_label name (set_cnd_label name labels) = set_cnd_label name labels.
Proof.
  destruct labels as [m|]; unfold set_cnd_label.
  - by rewrite insert_insert_eq.
  - by rewrite insert_singleton_eq.
Qed.

(** The loop over the containers changes no name and drops no container. *)
Lemma update_first_names (dev : Dev) (cs : list apiv1.Container) :
  apiv1.c_Name <$> update_first dev cs = apiv1.c_Name <$> cs.
Proof.
  induction cs as [|c cs IH]; [done|]. simpl. case_bool_decide; [done|].
  rewrite !fmap_cons. by rewrite IH.
Qed.

(** The loop swaps the first selected container and stops. *)
Lemma update_first_split (dev : Dev) (pre post : list apiv1.Container) (c : apiv1.Container) :
  Forall (fun x => ¬ selected dev x) pre → selected dev c →
  update_first dev (pre ++ c :: post) = (pre ++ updateCndContainer dev c :: post)%list.
Proof.
  intros Hpre Hc. induction Hpre as [|x pre Hx _ IH]; cbn [app update_first].
  - by rewrite bool_decide_eq_true_2.
  - rewrite bool_decide_eq_false_2 by exact Hx. by rewrite IH.
Qed.

(** Without a selected container the loop goes on into what follows. *)
Lemma update_first_skip (dev : Dev) (cs rest : list apiv1.Container) :
  Forall (fun x => ¬ selected dev x) cs →
  update_first dev (cs ++ rest) = (cs ++ update_first dev rest)%list.
Proof.
  intros Hcs. induction Hcs as [|x cs Hx _ IH]; cbn [app update_first]; [done|].
  rewrite bool_decide_eq_false_2 by exact Hx. by rewrite IH.
Qed.

Lemma update_first_none (dev : Dev) (cs : list apiv1.Container) :
  Forall (fun x => ¬ selected dev x) cs → update_first dev cs = cs.
Proof.
  intros Hcs. induction Hcs as [|x cs Hx _ IH]; cbn [update_first]; [done|].
  rewrite bool_decide_eq_false_2 by exact Hx. by rewrite IH.
Qed.

Lemma selected_updated (dev : Dev) (c : apiv1.Container) :
  selected dev c → selected dev (updateCndContainer dev c).
Proof. done. Qed.

(** What one translation does to a deployment. *)
Lemma translate_inv (dev : Dev) (d d1 : K8sDeployment) :
  translate dev d = Done d1 →
  d_ObjectMeta d1 =
    mkObjectMeta (Name dev) (set_cnd_label (Name dev) (om_Labels (d_ObjectMeta d))) ∧
  t_ObjectMeta (Template d1) =
    mkObjectMeta (Name dev) (set_cnd_label (Name dev) (om_Labels (t_ObjectMeta (Template d)))) ∧
  (∃ m, Selector d1 = Some (mkLabelSelector (Some m)) ∧ m !! "cnd" = Some (Name dev) ∧
        (Selector d = None → m = {[ "cnd" := Name dev ]}) ∧
        (∀ s, Selector d = Some s → ∃ m0, MatchLabels s = Some m0 ∧ m = <["cnd" := Name dev]> m0)) ∧
  Containers (t_Spec (Template d1)) =
    (update_first dev (Containers (t_Spec (Template d))) ++ [syncthingContainer])%list ∧
  Volumes (t_Spec (Template d1)) =
    (Volumes (t_Spec (Template d)) ++ [apiv1.mkVolume "cnd-sync"])%list.
Proof.
  unfold translate. intros H.
  destruct (Selector d) as [[[m|]]|] eqn:Hsel; simpl in H; try done;
    apply Done_inj in H; subst d1; cbn; (split; [done|]); (split; [done|]);
    (split; [|done]); eexists; (split; [reflexivity|]).
  - split; [apply lookup_insert_eq|]. split; [done|].
    intros s [= <-]. by eexists.
  - split; [apply lookup_singleton_eq|]. split; [done|]. by intros s.
Qed.

Lemma Deployment_inv (S : system) (dev : Dev) (d d1 : K8sDeployment) :
  holds S dev d → Deployment S dev = Done (Some d1, None) → translate dev d = Done d1.
Proof.
  intros [Hopen Hdec]. unfold Deployment. fold (deployment_path S dev).
  rewrite Hopen, Hdec. destruct (translate dev d) as [d'|]; [|done].
  rewrite bind_Done. by intros [= ->].
Qed.

(** C2, as the code has it.  [Deployment] is run on a file that holds the
    deployment [d] and gives [d1], and then on a file that holds [d1].  The
    second run succeeds and gives a deployment [d2] with the name, labels,
    selector and template metadata of [d1]; its volumes are those of [d1]
    with one more [cnd-sync]; its containers are those of [d1] with one more
    [cnd-syncthing] at the end, where the container that the first run
    swapped is swapped again, which gives it a second [cnd-sync] mount.
    When the first run found no container to swap, the second swaps the
    sidecar of the first if the manifest selects it. *)
Theorem translate_twice (S1 S2 : system) (dev : Dev) (d d1 : K8sDeployment) :
  holds S1 dev d →
  Deployment S1 dev = Done (Some d1, None) →
  holds S2 dev d1 →
  ∃ d2, Deployment S2 dev = Done (Some d2, None) ∧
    d_ObjectMeta d2 = d_ObjectMeta d1 ∧
    Selector d2 = Selector d1 ∧
    t_ObjectMeta (Template d2) = t_ObjectMeta (Template d1) ∧
    Volumes (t_Spec (Template d2)) =
      (Volumes (t_Spec (Template d1)) ++ [apiv1.mkVolume "cnd-sync"])%list ∧
    apiv1.c_Name <$> Containers (t_Spec (Template d2)) =
      ((apiv1.c_Name <$> Containers (t_Spec (Template d1))) ++ ["cnd-syncthing"])%list ∧
    list.last (Containers (t_Spec (Template d2))) = Some syncthingContainer ∧
    (∀ pre c post,
       Containers (t_Spec (Template d)) = (pre ++ c :: post)%list →
       Forall (fun x => ¬ selected dev x) pre → selected dev c →
       Containers (t_Spec (Template d1)) =
         (pre ++ updateCndContainer dev c :: post ++ [syncthingContainer])%list ∧
       Containers (t_Spec (Template d2)) =
         (pre ++ updateCndContainer dev (updateCndContainer dev c) :: post ++
          [syncthingContainer; syncthingContainer])%list ∧
       apiv1.c_VolumeMounts (updateCndContainer dev (updateCndContainer dev c)) =
         (apiv1.c_VolumeMounts c ++
          [apiv1.mkVolumeMount "cnd-sync" (Target (Mount dev));
           apiv1.mkVolumeMount "cnd-sync" (Target (Mount dev))])%list) ∧
    (Forall (fun x => ¬ selected dev x) (Containers (t_Spec (Template d))) →
       Containers (t_Spec (Template d1)) =
         (Containers (t_Spec (Template d)) ++ [syncthingContainer])%list ∧
       Containers (t_Spec (Template d2)) =
         (Containers (t_Spec (Template d)) ++
          [if bool_decide (selected dev syncthingContainer)
           then updateCndContainer dev syncthingContainer else syncthingContainer;
           syncthingContainer])%list).
Proof.
  intros Hd H1 Hd1. apply (Deployment_inv S1 dev d d1 Hd) in H1.
  destruct (translate_inv dev d d1 H1) as (Hm & Htm & (m & Hsel & Hcnd & _) & Hcs & Hvs).
  assert (H2 : ∃ d2, translate dev d1 = Done d2).
  { unfold translate. rewrite Hsel. cbn. by eexists. }
  destruct H2 as [d2 H2].
  destruct (translate_inv dev d1 d2 H2)
    as (Hm2 & Htm2 & (m2 & Hsel2 & _ & _ & Hm2') & Hcs2 & Hvs2).
  exists d2. split.
  { destruct Hd1 as [Hopen Hdec]. unfold Deployment. fold (deployment_path S2 dev).
    by rewrite Hopen, Hdec, H2. }
  split. { rewrite Hm2, Hm. cbn. by rewrite set_cnd_label_idem. }
  split.
  { rewrite Hsel2, Hsel. destruct (Hm2' _ Hsel) as (m0 & [= <-] & ->).
    by rewrite insert_id. }
  split. { rewrite Htm2, Htm. cbn. by rewrite set_cnd_label_idem. }
  split; [exact Hvs2|].
  split. { rewrite Hcs2, fmap_app, update_first_names. done. }
  split. { rewrite Hcs2. apply last_snoc. }
  split.
  - intros pre c post Hsplit Hpre Hc.
    rewrite Hcs2, Hcs, Hsplit.
    rewrite (update_first_split dev pre post c Hpre Hc).
    split; [by rewrite <- app_assoc|]. split; [|by cbn; rewrite <- app_assoc].
    rewrite <- app_assoc. cbn [app].
    rewrite (update_first_split dev pre (post ++ [syncthingContainer]) _ Hpre
               (selected_updated dev c Hc)).
    rewrite <- !app_assoc. cbn [app]. by rewrite <- app_assoc.
  - intros Hnone. rewrite Hcs2, Hcs.
    rewrite (update_first_none dev _ Hnone).
    split; [done|].
    rewrite (update_first_skip dev _ _ Hnone). cbn [update_first].
    rewrite <- app_assoc. unfold selected. by case_bool_decide.
Qed.

(** [Deployment] returns an error exactly when the deployment file cannot
    be opened, and that error is the one of [os.Open]; it panics exactly
    when the file opens and the deployment decoded from it has a selector
    without [matchLabels]; in every other case it returns a deployment, also
    when the file does not decode (the error of [Decode] is dropped). *)
Theorem Deployment_outcomes (S : system) (dev : Dev) :
  (∀ e, Deployment S dev = Done (None, Some e) ↔ os_Open S (deployment_path S dev) = Some e) ∧
  (Deployment S dev = Panic ↔
     os_Open S (deployment_path S dev) = None ∧
     ∃ s, Selector (decoded S (deployment_path S dev)) = Some s ∧ MatchLabels s = None) ∧
  (∀ r e, Deployment S dev = Done (r, e) → (r = None ↔ e ≠ None)).
Proof.
  unfold Deployment. fold (deployment_path S dev).
  destruct (os_Open S (deployment_path S dev)) as [err|].
  - split; [|split].
    + intros e. split; [by intros [= ->]|by intros [= ->]].
    + split; [done|]. by intros [[=] _].
    + intros r e [= <- <-]. by split.
  - unfold translate.
    destruct (Selector (decoded S (deployment_path S dev))) as [[[m|]]|];
      cbn [mbind exec_bind]; (split; [|split]);
      try (intros e; split; discriminate);
      try (intros r e [= <- <-]; split; [discriminate|by intros H; destruct H]).
    + split; [discriminate|]. by intros [_ (s & [= <-] & [=])].
    + split; [|done]. intros _. split; [done|]. by eexists.
    + split; [discriminate|]. by intros [_ (s & [=] & _)].
Qed.

Lemma validate_passed (K : disk) (d : Dev) :
  validate K d = Done None →
  os_Stat K (Source (Mount d)) = Info true ∧
  File (Deployment_ (Swap d)) ≠ "" ∧ Image (Deployment_ (Swap d)) ≠ "".
Proof.
  unfold validate. destruct (os_Stat K (Source (Mount d))) as [[]| |]; cbn [negb]; try done.
  by repeat case_bool_decide.
Qed.

(** [ReadDev] reports no invalid manifest.  With a manifest file that can
    be read, it either returns the decoded manifest, with no error, the
    source folder being an existing directory, the deployment file and the
    image not empty, and a relative source folder made to start at the
    folder of the manifest; or it panics, which it does whenever the
    manifest does not decode or does not pass [validate]. *)
Theorem ReadDev_invalid_panics (K : disk) (S : system) (devPath : string)
    (b : list Byte.byte) :
  ioutil_ReadFile K devPath = inl b →
  (∀ r e, ReadDev K S devPath = Done (r, e) →
     e = None ∧
     ∃ d0, yaml_Unmarshal K b loadDev_init = inl d0 ∧
       os_Stat K (Source (Mount d0)) = Info true ∧
       File (Deployment_ (Swap d0)) ≠ "" ∧ Image (Deployment_ (Swap d0)) ≠ "" ∧
       r = Some (fixPath K S d0 devPath)) ∧
  (∀ e, yaml_Unmarshal K b loadDev_init = inr e → ReadDev K S devPath = Panic) ∧
  (∀ d0, yaml_Unmarshal K b loadDev_init = inl d0 → validate K d0 ≠ Done None →
     ReadDev K S devPath = Panic).
Proof.
  intros Hb. unfold ReadDev, loadDev. rewrite Hb.
  destruct (yaml_Unmarshal K b loadDev_init) as [d0|err].
  - destruct (validate K d0) as [[e|]|] eqn:Hv; cbn [mbind exec_bind].
    + split; [done|]. split; [done|]. by intros d1 [= <-] _.
    + apply validate_passed in Hv as (H1 & H2 & H3). split; [|split; [done|]].
      * intros r e [= <- <-]. split; [done|]. by exists d0.
      * intros d1 [= <-] H. destruct H. unfold validate. rewrite H1. cbn [negb].
        by rewrite !bool_decide_eq_false_2.
    + split; [done|]. split; [done|]. by intros d1 [= <-] _.
  - cbn [mbind exec_bind]. split; [done|]. split; [done|]. by intros d0 [=].
Qed.

(** After [fixPath] the source folder is the declared one if that is
    absolute, and else a path joined from the folder of the manifest. *)
Lemma fixPath_keeps (K : disk) (S : system) (dev : Dev) (p : string) :
  Name (fixPath K S dev p) = Name dev ∧ Swap (fixPath K S dev p) = Swap dev ∧
  Target (Mount (fixPath K S dev p)) = Target (Mount dev).
Proof. unfold fixPath. by repeat case_match. Qed.

End CndProofs.

Section CndExamples.
Import cnd_model cnd_fixtures.

Lemma holds_serving (d : K8sDeployment) : holds (serving d) dev_api d.
Proof. split; reflexivity. Defined.

Lemma Deployment_once_run :
  Deployment (serving original_api) dev_api = Done (Some translated_once, None).
Proof. reflexivity. Defined.

Lemma translate_twice_witness :
  holds (serving original_api) dev_api original_api ∧
  Deployment (serving original_api) dev_api = Done (Some translated_once, None) ∧
  holds (serving translated_once) dev_api translated_once ∧
  ∃ d2, Deployment (serving translated_once) dev_api = Done (Some d2, None) ∧
    Containers (t_Spec (Template d2)) =
      [updateCndContainer dev_api
         (updateCndContainer dev_api
            (apiv1.mkContainer "api" "api:1.0" "Always" ["/bin/api"] [] "" [] [] []));
       syncthingContainer; syncthingContainer].
Proof.
  split; [exact (holds_serving original_api)|].
  split; [exact Deployment_once_run|].
  split; [exact (holds_serving translated_once)|].
  destruct (translate_twice (serving original_api) (serving translated_once) dev_api
              original_api translated_once (holds_serving original_api)
              Deployment_once_run (holds_serving translated_once))
    as (d2 & H2 & _ & _ & _ & _ & _ & _ & Hswap & _).
  exists d2. split; [exact H2|].
  destruct (Hswap [] (apiv1.mkContainer "api" "api:1.0" "Always" ["/bin/api"] [] "" [] [] [])
              [] eq_refl (Forall_nil _) (or_introl eq_refl)) as (_ & Hcs2 & _).
  exact Hcs2.
Defined.

(** C2 as stated fails: a second run of [Deployment], on a file that holds
    the deployment the first run gave for the README's manifest, gives three
    containers where the first gave two, the sidecar being there twice, two
    [cnd-sync] volumes where the first gave one, and two [cnd-sync] mounts
    on the swapped container where the first gave one. *)
Lemma translate_not_idempotent_counterexample :
  Deployment (serving original_api) dev_api = Done (Some translated_once, None) ∧
  Deployment (serving translated_once) dev_api = Done (Some translated_twice, None) ∧
  translated_twice ≠ translated_once ∧
  apiv1.c_Name <$> Containers (t_Spec (Template translated_once)) =
    ["api"; "cnd-syncthing"] ∧
  apiv1.c_Name <$> Containers (t_Spec (Template translated_twice)) =
    ["api"; "cnd-syncthing"; "cnd-syncthing"] ∧
  Volumes (t_Spec (Template translated_once)) = [apiv1.mkVolume "cnd-sync"] ∧
  Volumes (t_Spec (Template translated_twice)) =
    [apiv1.mkVolume "cnd-sync"; apiv1.mkVolume "cnd-sync"] ∧
  (apiv1.c_VolumeMounts <$> head (Containers (t_Spec (Template translated_once)))) =
    Some [sync_mount] ∧
  (apiv1.c_VolumeMounts <$> head (Containers (t_Spec (Template translated_twice)))) =
    Some [sync_mount; sync_mount].
Proof.
  split; [reflexivity|]. split; [reflexivity|]. split; [|by vm_compute].
  intros E. apply (f_equal (fun d => length (Containers (t_Spec (Template d))))) in E.
  vm_compute in E. discriminate E.
Qed.

Lemma ReadDev_invalid_panics_witness :
  ioutil_ReadFile (manifest_disk (inl dev_api)) "cnd.yml" = inl [] ∧
  ReadDev (manifest_disk (inl dev_api)) (serving original_api) "cnd.yml" =
    Done (Some (mkDev "api" (Swap dev_api) (mkmount "/home/u/api" "/src")), None) ∧
  ReadDev (manifest_disk (inr (Errorf "yaml: line 2: mapping values are not allowed")))
    (serving original_api) "cnd.yml" = Panic ∧
  ReadDev (manifest_disk (inl (mkDev "api" (Swap dev_api) (mkmount "missing" "/src"))))
    (serving original_api) "cnd.yml" = Panic.
Proof.
  split; [reflexivity|]. split; [by vm_compute|]. split.
  - exact (proj1 (proj2 (ReadDev_invalid_panics (manifest_disk (inr _)) (serving original_api)
                           "cnd.yml" [] eq_refl)) _ eq_refl).
  - apply (proj2 (proj2 (ReadDev_invalid_panics (manifest_disk (inl _)) (serving original_api)
                           "cnd.yml" [] eq_refl)) _ eq_refl).
    by vm_compute.
Defined.

(** A selector that only has match expressions: [Deployment] panics. *)
Example Deployment_panics :
  Deployment
    (serving (mkK8sDeployment (mkObjectMeta "api" None) (Some (mkLabelSelector None))
                (mkPodTemplateSpec (mkObjectMeta "" None) (mkPodSpec [] []))))
    dev_api = Panic.
Proof. reflexivity. Qed.

(** A deployment file that does not exist: the error of [os.Open] is
    returned as it is. *)
Example Deployment_no_file :
  Deployment (serving original_api)
    (mkDev "api" (mkswap (mkdeployment "other.yml" "api" "node:16" [] [])) (mkmount "." "/src")) =
  Done (None, Some (PathError "open" "/home/u/api/other.yml"
                      (Errorf "no such file or directory"))).
Proof. reflexivity. Qed.

End CndExamples.

(** ** Package [cmd] *)

Section WaitProofs.
Import cmd observe.

(** A message on [ErrChan] adds its yellow line and nothing else: the wait
    goes on as if the message had not come. *)
Lemma WaitUntilExitOrInterrupt_errors (msgs : list goerror) (tail : list event) :
  WaitUntilExitOrInterrupt (on_errors msgs ++ tail) =
  ((WaitUntilExitOrInterrupt tail).1, (yellow msgs ++ (WaitUntilExitOrInterrupt tail).2)%list).
Proof.
  unfold on_errors, yellow. induction msgs as [|e msgs IH].
  - simpl. by destruct (WaitUntilExitOrInterrupt tail).
  - change (WaitUntilExitOrInterrupt
              (((fun e => ErrChan_ (Some e)) <$> e :: msgs) ++ tail))
      with (let '(r, out) := WaitUntilExitOrInterrupt
                               (((fun e => ErrChan_ (Some e)) <$> msgs) ++ tail) in
            (r, Recv (ErrChan_ (Some e)) :: LogYellow e :: out)).
    rewrite IH. reflexivity.
Qed.

Lemma WaitUntilExitOrInterrupt_nil_inv (events : list event) :
  (WaitUntilExitOrInterrupt events).1 = Returned None →
  ∃ msgs rest, events = (on_errors msgs ++ Running_ None :: rest)%list.
Proof.
  induction events as [|ev events IH]; simpl; [done|].
  destruct ev as [[e|]|[e|]|]; simpl; try done.
  - intros _. by exists [], events.
  - destruct (WaitUntilExitOrInterrupt events) as [r out] eqn:E. simpl.
    intros ->. destruct (IH eq_refl) as (msgs & rest & ->).
    by exists (e :: msgs), rest.
Qed.

(** C4.  [WaitUntilExitOrInterrupt] returns nil exactly when, after any
    number of messages on the errors channel, the command completes with a
    nil error; it returns [ErrCommandFailed] when the command completes with
    a non-nil error and [ErrLostConnection] when the disconnect channel
    fires; messages on the errors channel are printed in yellow and never
    make it return: with nothing but such messages it is still waiting. *)
Theorem WaitUntilExitOrInterrupt_spec :
  (∀ events,
     (WaitUntilExitOrInterrupt events).1 = Returned None ↔
     ∃ msgs rest, events = (on_errors msgs ++ Running_ None :: rest)%list) ∧
  (∀ msgs e rest,
     (WaitUntilExitOrInterrupt (on_errors msgs ++ Running_ (Some e) :: rest)).1 =
     Returned (Some ErrCommandFailed)) ∧
  (∀ msgs rest,
     (WaitUntilExitOrInterrupt (on_errors msgs ++ Disconnect_ :: rest)).1 =
     Returned (Some ErrLostConnection)) ∧
  (∀ msgs, WaitUntilExitOrInterrupt (on_errors msgs) = (Waiting, yellow msgs)) ∧
  (∀ msgs tail,
     WaitUntilExitOrInterrupt (on_errors msgs ++ tail) =
     ((WaitUntilExitOrInterrupt tail).1,
      (yellow msgs ++ (WaitUntilExitOrInterrupt tail).2)%list)).
Proof.
  split; [|split; [|split; [|split]]].
  - intros events. split; [apply WaitUntilExitOrInterrupt_nil_inv|].
    intros (msgs & rest & ->). by rewrite WaitUntilExitOrInterrupt_errors.
  - intros msgs e rest. by rewrite WaitUntilExitOrInterrupt_errors.
  - intros msgs rest. by rewrite WaitUntilExitOrInterrupt_errors.
  - intros msgs. rewrite <- (app_nil_r (on_errors msgs)).
    rewrite WaitUntilExitOrInterrupt_errors. simpl. by rewrite app_nil_r.
  - apply WaitUntilExitOrInterrupt_errors.
Qed.

Lemma WaitUntilExitOrInterrupt_spec_witness :
  (WaitUntilExitOrInterrupt
     [ErrChan_ (Some (Errorf "port 8080 is busy")); Running_ None; Disconnect_]).1 =
  Returned None.
Proof.
  apply (proj1 WaitUntilExitOrInterrupt_spec
           [ErrChan_ (Some (Errorf "port 8080 is busy")); Running_ None; Disconnect_]).
  exists [Errorf "port 8080 is busy"], [Disconnect_]. reflexivity.
Defined.

(** Two warnings, then the command fails: both are printed, and the error
    returned is the sentinel, not the command's own. *)
Example WaitUntilExitOrInterrupt_run :
  WaitUntilExitOrInterrupt
    [ErrChan_ (Some (Errorf "w1")); ErrChan_ (Some (Errorf "w2"));
     Running_ (Some (Errorf "exit status 2"))] =
  (Returned (Some ErrCommandFailed),
   [Recv (ErrChan_ (Some (Errorf "w1"))); LogYellow (Errorf "w1");
    Recv (ErrChan_ (Some (Errorf "w2"))); LogYellow (Errorf "w2");
    Recv (Running_ (Some (Errorf "exit status 2"))); Println;
    LogInfof "Command execution error: %s" (Errorf "exit status 2")]).
Proof. reflexivity. Qed.

End WaitProofs.

Section ForwardProofs.
Import cmd observe.

Lemma Ret_inj {A} (a b : A) (u v : UpContext) : Ret a u = Ret b v → a = b ∧ u = v.
Proof. by intros [=]. Qed.

Lemma forward_adds_app (l1 l2 : list action) :
  forward_adds (l1 ++ l2) = (forward_adds l1 ++ forward_adds l2)%list.
Proof. apply omap_app. Qed.

Lemma forward_adds_of_pairs (pairs : list (Z * Z)) :
  forward_adds ((fun '(lo, re) => ForwarderAdd lo re) <$> pairs) = pairs.
Proof.
  induction pairs as [|[lo re] pairs IH]; [done|].
  change (forward_adds ((fun '(lo, re) => ForwarderAdd lo re) <$> (lo, re) :: pairs))
    with ((lo, re) :: forward_adds ((fun '(lo, re) => ForwarderAdd lo re) <$> pairs)).
  by rewrite IH.
Qed.

Lemma forward_adds_sends (l : list string) : forward_adds (ReporterSend <$> l) = [].
Proof. induction l as [|m l IH]; [done|]. exact IH. Qed.

(** A loop whose body only checks an error leaves the context alone. *)
Lemma for_range_checks {A} (body : A → M unit) (l : list A) (up : UpContext) :
  (∀ x up, body x up = Ret tt up ∨ ∃ e, body x up = Return_ (Some e) up) →
  for_range l body up = Ret tt up ∨ ∃ e, for_range l body up = Return_ (Some e) up.
Proof.
  intros Hbody. induction l as [|x l IH]; simpl; [by left|].
  unfold bind. destruct (Hbody x up) as [->|[e ->]]; [exact IH|eauto].
Qed.

Lemma check_cases (e : error) (up : UpContext) :
  check e up = Ret tt up ∨ ∃ e', check e up = Return_ (Some e') up.
Proof. destruct e; [right; eauto|by left]. Qed.

Lemma for_range_sends (l : list string) (up : UpContext) :
  for_range l (fun m => emit (ReporterSend m)) up =
  Ret tt (set_trace (trace up ++ (ReporterSend <$> l))%list up).
Proof.
  revert up. induction l as [|m l IH]; intros up; simpl.
  - rewrite app_nil_r. by destruct up.
  - unfold bind, emit, modify. rewrite IH. simpl.
    by rewrite <- app_assoc.
Qed.

(** What one [Forwarder.Add] does to a context that has a forwarder. *)
Lemma Forwarder_Add_cases (lo re : Z) (up : UpContext) (p : PortForwardManager) :
  Forwarder up = Some p →
  ((lo ∉ (ports p).*1) ∧
   Forwarder_Add lo re up =
     Ret tt (set_Forwarder (Some (mkPortForwardManager (ports p ++ [(lo, re)])%list))
               (record (ForwarderAdd lo re) up))) ∨
  ((lo ∈ (ports p).*1) ∧ ∃ e up', Forwarder_Add lo re up = Return_ (Some e) up').
Proof.
  intros Hp. unfold Forwarder_Add, bind, emit, modify, get. simpl. rewrite Hp.
  unfold PortForwardManager_Add. case_bool_decide as Hin; simpl.
  - right. split; [done|]. eauto.
  - left. split; [done|]. reflexivity.
Qed.

(** The loop over the user's forwards, when it gets through: every pair was
    registered, in the order of the manifest. *)
Lemma for_range_adds (fs : list model.ForwardT) :
  ∀ (up up' : UpContext) (p : PortForwardManager),
  Forwarder up = Some p →
  for_range fs (fun f => Forwarder_Add (model.f_Local f) (model.f_Remote f)) up = Ret tt up' →
  let pairs := (fun f => (model.f_Local f, model.f_Remote f)) <$> fs in
  Forwarder up' = Some (mkPortForwardManager (ports p ++ pairs)%list) ∧
  trace up' = (trace up ++ ((fun '(lo, re) => ForwarderAdd lo re) <$> pairs))%list ∧
  Dev up' = Dev up ∧ Sy up' = Sy up.
Proof.
  induction fs as [|f fs IH]; intros up up' p Hp Hrun; simpl in *.
  - injection Hrun as <-. rewrite !app_nil_r. by destruct p.
  - unfold bind in Hrun.
    destruct (Forwarder_Add_cases (model.f_Local f) (model.f_Remote f) up p Hp)
      as [[_ Hadd]|[_ (e & up1 & Hadd)]]; rewrite Hadd in Hrun; [|done].
    eapply IH in Hrun; [|reflexivity]. simpl in Hrun.
    destruct Hrun as (HF & HT & HD & HS).
    rewrite HF, HT, <- !app_assoc. done.
Qed.

Lemma for_range_adds_error (fs : list model.ForwardT) :
  ∀ (up up' : UpContext) (e : error),
  for_range fs (fun f => Forwarder_Add (model.f_Local f) (model.f_Remote f)) up
    = Return_ e up' → e ≠ None.
Proof.
  induction fs as [|f fs IH]; intros up up' e Hrun; simpl in *; [done|].
  unfold bind in Hrun.
  destruct (Forwarder_Add (model.f_Local f) (model.f_Remote f) up) as [[] up1|e1 up1|up1|] eqn:Hadd;
    try done.
  - by eapply IH.
  - injection Hrun as <- <-.
    unfold Forwarder_Add, bind, emit, modify, get in Hadd. simpl in Hadd.
    destruct (Forwarder up) as [p|]; [|done]. simpl in Hadd.
    unfold PortForwardManager_Add in Hadd. case_bool_decide; simpl in Hadd; [|done].
    by injection Hadd as <- _.
Qed.

(** The segment that sets the forwards up, when it returns nil. *)
Lemma devMode_forwards_inv (w : world) (dev : model.Dev) (sy : Syncthing)
    (up up' : UpContext) :
  call (devMode_forwards w dev sy) up = Ret None up' →
  let registered := (user_forwards dev ++
    [(RemotePort sy, ClusterPort); (RemoteGUIPort sy, GUIPort)])%list in
  Forwarder up' = Some (mkPortForwardManager registered) ∧
  forward_adds (trace up') = (forward_adds (trace up) ++ registered)%list ∧
  Dev up' = Dev up.
Proof.
  intros Hrun. unfold call, devMode_forwards in Hrun.
  unfold bind at 1 in Hrun. unfold emit, modify at 1 in Hrun.
  unfold bind at 1 in Hrun. unfold modify at 1 in Hrun.
  unfold bind at 1 in Hrun.
  set (up0 := set_Forwarder (Some NewPortForwardManager) (record GoCleanCommand up)) in Hrun.
  destruct (for_range (model.Forward dev) _ up0) as [[] up1|e1 up1|up1|] eqn:Hloop; try done.
  2:{ apply Ret_inj in Hrun as [-> _]. by apply for_range_adds_error in Hloop. }
  eapply for_range_adds in Hloop; [|reflexivity]. simpl in Hloop.
  destruct Hloop as (HF1 & HT1 & HD1 & HS1).
  unfold bind at 1 in Hrun.
  destruct (Forwarder_Add_cases (RemotePort sy) ClusterPort up1 _ HF1)
    as [[_ Hadd]|[_ (e & up2 & Hadd)]]; rewrite Hadd in Hrun; [|done].
  unfold bind at 1 in Hrun.
  match type of Hrun with context [Forwarder_Add _ _ ?u] => set (up2 := u) in Hrun end.
  destruct (Forwarder_Add_cases (RemoteGUIPort sy) GUIPort up2 _ eq_refl)
    as [[_ Hadd2]|[_ (e & up3 & Hadd2)]]; rewrite Hadd2 in Hrun; [|done].
  unfold bind, emit, modify, get in Hrun. simpl in Hrun.
  assert (Hnone : ∀ (e : error) (u u' : UpContext),
            check e u = Return_ None u' → False) by (intros [?|] ???; done).
  destruct (Forwarder_Start w) as [e|]; simpl in Hrun; [done|].
  match type of Hrun with
  | context [if ?b then _ else _] => destruct b
  end.
  - destruct (ssh_AddEntry w); simpl in Hrun; [done|].
    apply Ret_inj in Hrun as [_ <-]. simpl. fold (user_forwards dev). rewrite <- app_assoc.
    split; [done|]. split; [|done].
    rewrite !forward_adds_app, HT1, !forward_adds_app, forward_adds_of_pairs.
    fold (user_forwards dev). simpl. by rewrite app_nil_r, <- !app_assoc.
  - apply Ret_inj in Hrun as [_ <-]. simpl. fold (user_forwards dev). rewrite <- app_assoc.
    split; [done|]. split; [|done].
    rewrite !forward_adds_app, HT1, !forward_adds_app, forward_adds_of_pairs.
    fold (user_forwards dev). simpl. by rewrite app_nil_r, <- !app_assoc.
Qed.

(** The segment that waits for the pod, when it returns nil. *)
Lemma devMode_pod_inv (w : world) (dev : model.Dev) (sy : Syncthing)
    (up up' : UpContext) :
  call (devMode_pod w dev sy) up = Ret None up' →
  let registered := (user_forwards dev ++
    [(RemotePort sy, ClusterPort); (RemoteGUIPort sy, GUIPort)])%list in
  Forwarder up' = Some (mkPortForwardManager registered) ∧
  forward_adds (trace up') = (forward_adds (trace up) ++ registered)%list ∧
  Dev up' = Dev up.
Proof.
  intros Hrun. unfold call, devMode_pod in Hrun. unfold bind at 1 in Hrun.
  destruct (GetDevPod w) as [e|]; [done|]. cbn [check ret] in Hrun.
  unfold defer_ in Hrun. unfold bind at 1 in Hrun. unfold emit, modify at 1 in Hrun.
  unfold bind at 1 in Hrun. rewrite for_range_sends in Hrun.
  destruct (snd (MonitorDevPod w)) as [pod|e]; [|done].
  unfold bind at 1 in Hrun. unfold modify at 1 in Hrun.
  match type of Hrun with
  | context [devMode_forwards w dev sy ?u] =>
      pose proof (devMode_forwards_inv w dev sy u) as Hfw; unfold call in Hfw;
      destruct (devMode_forwards w dev sy u) as [[] u1|e1 u1|u1|]; try done
  end; apply Ret_inj in Hrun as [He <-]; try subst e1;
    destruct (Hfw _ eq_refl) as (HF & HT & HD).
  all: simpl in *; (split; [done|]); (split; [|done]);
    rewrite forward_adds_app, HT, !forward_adds_app; simpl;
    rewrite forward_adds_sends; by rewrite !app_nil_r.
Qed.

(** The segment that deploys either hands over the synchroniser handle and
    changes nothing else, or returns an error. *)
Lemma devMode_deploy_cases (w : world) (dev : model.Dev) (d_Name : string)
    (create : bool) (up : UpContext) :
  (∃ sy, syncthing_New w = inl sy ∧
         devMode_deploy w dev d_Name create up = Ret sy (set_Sy (Some sy) up)) ∨
  (∃ e up1, devMode_deploy w dev d_Name create up = Return_ (Some e) up1).
Proof.
  unfold devMode_deploy.
  destruct (syncthing_New w) as [sy|e]; [|right; eexists _, _; reflexivity].
  destruct (secrets_Create w) as [e|]; [right; eexists _, _; reflexivity|].
  destruct (GetTranslations w) as [tr|e]; [|right; eexists _, _; reflexivity].
  destruct (TranslateDevMode w) as [e|]; [right; eexists _, _; reflexivity|].
  cbv beta iota delta [bind modify ret check].
  match goal with
  | |- context [for_range tr ?body ?u] =>
      destruct (for_range_checks body tr u) as [->|[e ->]];
        [|destruct (create && bool_decide (length (model.Services dev) = 0%nat));
          [destruct (services_Create w) as [e|]|]
         |right; eexists _, _; reflexivity]
  end.
  - intros name u. case_bool_decide; apply check_cases.
  - right. eexists _, _. reflexivity.
  - left. eexists. split; [done|reflexivity].
  - left. eexists. split; [done|reflexivity].
Qed.

(** C5, as the code has it.  When [devMode] returns nil, the forwards it
    registered are, in this order: every forward of the manifest, then the
    synchroniser's port towards the cluster port 22000, then the
    synchroniser's GUI port towards 8384.  The synchroniser's remote port is
    registered after all the user's forwards, and only the GUI port comes
    after it. *)
Theorem devMode_forward_order (w : world) (d_Name : string) (create : bool)
    (up up' : UpContext) :
  call (devMode w d_Name create) up = Ret None up' →
  ∃ dev sy, Dev up = Some dev ∧ syncthing_New w = inl sy ∧
    forward_adds (trace up') =
      (forward_adds (trace up) ++ user_forwards dev ++
       [(RemotePort sy, ClusterPort); (RemoteGUIPort sy, GUIPort)])%list ∧
    (ports <$> Forwarder up') =
      Some (user_forwards dev ++
            [(RemotePort sy, ClusterPort); (RemoteGUIPort sy, GUIPort)])%list.
Proof.
  unfold call, devMode. intros Hrun.
  unfold bind at 1 in Hrun. unfold updateStateFile, emit, modify at 1 in Hrun.
  unfold bind at 1 in Hrun.
  destruct (IsOktetoAllowed w); [|done]. cbn [ret] in Hrun.
  unfold bind at 1 in Hrun. destruct (volumes_Create w) as [e|]; [done|].
  cbn [check ret] in Hrun. unfold bind at 1 in Hrun. unfold theDev at 1 in Hrun.
  cbn [record set_trace Dev] in Hrun.
  destruct (Dev up) as [dev|] eqn:HDev; [|done].
  destruct (GetDevContainer w) as [c|]; [|done].
  set (dev' := if bool_decide (model.Image (model.set_Container (apiv1.c_Name c) dev) = "")
               then model.set_Image (apiv1.c_Image c)
                      (model.set_Container (apiv1.c_Name c) dev)
               else model.set_Container (apiv1.c_Name c) dev) in Hrun.
  assert (HFw : user_forwards dev' = user_forwards dev)
    by (subst dev'; by case_bool_decide).
  unfold bind at 1 in Hrun. unfold modify at 1 in Hrun.
  unfold bind at 1 in Hrun. unfold get at 1 in Hrun.
  unfold bind at 1 in Hrun.
  match type of Hrun with
  | context [if ?b then return_ _ else _] => destruct b; [done|]
  end.
  cbn [ret] in Hrun. unfold bind at 1 in Hrun.
  unfold updateStateFile, emit, modify at 1 in Hrun. unfold bind at 1 in Hrun.
  match type of Hrun with
  | context [devMode_deploy w dev' d_Name create ?u] =>
      destruct (devMode_deploy_cases w dev' d_Name create u)
        as [(sy & Hsy & Hdep)|(e & u1 & Hdep)]; rewrite Hdep in Hrun; [|done]
  end.
  match type of Hrun with
  | context [devMode_pod w dev' sy ?u] =>
      change (call (devMode_pod w dev' sy) u = Ret None up') in Hrun
  end.
  apply devMode_pod_inv in Hrun as (HF & HT & HD).
  exists dev, sy. split; [done|]. split; [done|].
  rewrite HT, HF, HFw. simpl. split; [|done].
  rewrite !forward_adds_app. simpl. by rewrite !app_nil_r.
Qed.

End ForwardProofs.

Section ForwardExamples.
Import cmd observe worlds.

Lemma devMode_quiet_run :
  call (devMode quiet "api" false) (RunUp_context dev_api) = Ret None after_devMode_quiet.
Proof. vm_compute. reflexivity. Defined.

Lemma devMode_forward_order_witness :
  call (devMode quiet "api" false) (RunUp_context dev_api) = Ret None after_devMode_quiet ∧
  ∃ dev sy, Dev (RunUp_context dev_api) = Some dev ∧ syncthing_New quiet = inl sy ∧
    forward_adds (trace after_devMode_quiet) =
      (forward_adds (trace (RunUp_context dev_api)) ++ user_forwards dev ++
       [(RemotePort sy, ClusterPort); (RemoteGUIPort sy, GUIPort)])%list ∧
    (ports <$> Forwarder after_devMode_quiet) =
      Some (user_forwards dev ++
            [(RemotePort sy, ClusterPort); (RemoteGUIPort sy, GUIPort)])%list.
Proof.
  split; [exact devMode_quiet_run|].
  exact (devMode_forward_order quiet "api" false _ _ devMode_quiet_run).
Defined.

(** C5 as stated fails: in the activation of scenario S1 the last port
    registered is the synchroniser's GUI port (50002 towards 8384), not its
    remote port (50001 towards 22000), which is last but one. *)
Lemma devMode_last_forward_counterexample :
  ∃ up', call (devMode quiet "api" false) (RunUp_context dev_api) = Ret None up' ∧
    forward_adds (trace up') = [(8080, 3000); (50001, 22000); (50002, 8384)] ∧
    list.last (forward_adds (trace up')) = Some (RemoteGUIPort sy_local, GUIPort) ∧
    list.last (forward_adds (trace up')) ≠ Some (RemotePort sy_local, ClusterPort).
Proof.
  exists after_devMode_quiet. split; [exact devMode_quiet_run|].
  vm_compute. repeat split. discriminate.
Qed.

End ForwardExamples.

Section StateFileProofs.
Import cmd observe worlds schedules.

(** C3 fails on the code.  Scenario: the pod is already running, so the pod
    monitor reports nothing, and the reporter goroutine of [devMode] is
    first scheduled after [startLocalSyncthing] has written [startingSync].
    The whole cycle runs to its end, the state file receives [attaching]
    after [startingSync], and the order is not respected. *)
Theorem state_file_regression :
  ∃ c, run late_reporter (initial (main_of quiet dev_api)) = Some c ∧
    todo c = [] ∧ reporter c = RDone ∧ runner c = Running ∧
    file c = [activating; starting; startingSync; attaching; synchronizing; ready] ∧
    no_regression (file c) = false.
Proof. eexists. split; [vm_compute; reflexivity|]. repeat split. Qed.

(** The same cycle when the reporter goroutine runs as soon as it is
    started: the order is respected. *)
Example state_file_prompt :
  file <$> run prompt_reporter (initial (main_of quiet dev_api)) =
    Some [activating; starting; attaching; startingSync; synchronizing; ready].
Proof. vm_compute. reflexivity. Qed.

End StateFileProofs.

(** ** Package [cmd] : what a cycle adds to the trace *)

Section CmdLogic.
Import cmd observe cmd_logic.

Lemma marks_app (l1 l2 : list action) : marks (l1 ++ l2) = (marks l1 ++ marks l2)%list.
Proof. apply omap_app. Qed.

Lemma adds_weaken {A} (m : M A) (Q Q' : kind A → list mark → Prop) :
  adds m Q → (∀ k ms, Q k ms → Q' k ms) → adds m Q'.
Proof.
  intros H HQ up. specialize (H up).
  destruct (m up); [..|done]; destruct H as (l & ? & ?); eauto.
Qed.

Lemma adds_ret {A} (a : A) : adds (ret a) (fun k ms => k = KRet a ∧ ms = []).
Proof. intros up. exists []. by rewrite app_nil_r. Qed.

Lemma adds_return {A} (e : error) :
  adds (@return_ A e) (fun k ms => k = KReturn e ∧ ms = []).
Proof. intros up. exists []. by rewrite app_nil_r. Qed.

Lemma adds_modify (f : UpContext → UpContext) :
  (∀ up, trace (f up) = trace up) →
  adds (modify f) (fun k ms => k = KRet tt ∧ ms = []).
Proof. intros Hf up. exists []. cbn. by rewrite Hf, app_nil_r. Qed.

Lemma adds_emit (a : action) : adds (emit a) (fun k ms => k = KRet tt ∧ ms = marks [a]).
Proof. intros up. by exists [a]. Qed.

(** Sequencing. *)
Lemma adds_bind {A B} (m : M A) (f : A → M B) (Q1 : kind A → list mark → Prop)
    (Q : kind B → list mark → Prop) :
  adds m Q1 →
  (∀ a m1, Q1 (KRet a) m1 → adds (f a) (fun k m2 => Q k (m1 ++ m2)%list)) →
  (∀ e ms, Q1 (KReturn e) ms → Q (KReturn e) ms) →
  (∀ ms, Q1 KBlocked ms → Q KBlocked ms) →
  adds (bind m f) Q.
Proof.
  intros Hm Hf He Hb up. unfold bind. specialize (Hm up).
  destruct (m up) as [a up1|e up1|up1|]; [| | |done].
  - destruct Hm as (l1 & E1 & H1). specialize (Hf a _ H1 up1).
    destruct (f a up1) as [b up2|e up2|up2|]; [..|done];
      destruct Hf as (l2 & E2 & H2); exists (l1 ++ l2)%list;
      rewrite E2, E1, app_assoc, marks_app; by split.
  - destruct Hm as (l & ? & ?). eauto.
  - destruct Hm as (l & ? & ?). eauto.
Qed.

Lemma adds_silent_then {A B} (m : M A) (f : A → M B) (Q : kind B → list mark → Prop) :
  adds m silent → (∀ a, adds (f a) Q) → (∀ e, e ≠ None → Q (KReturn e) []) →
  adds (bind m f) Q.
Proof.
  intros Hm Hf He. apply (adds_bind m f silent Q Hm).
  - intros a m1 [-> _]. exact (Hf a).
  - intros e ms [-> H]. auto.
  - intros ms [_ []].
Qed.

Lemma adds_emit_then {B} (a : action) (rest : M B) (Q : kind B → list mark → Prop) :
  adds rest (fun k ms => Q k (marks [a] ++ ms)%list) → adds (bind (emit a) (fun _ => rest)) Q.
Proof.
  intros Hr. apply (adds_bind _ _ _ Q (adds_emit a)).
  - intros _ m1 [_ ->]. exact Hr.
  - intros e ms [[=] _].
  - intros ms [[=] _].
Qed.

Lemma adds_call (body : M unit) (Q : kind unit → list mark → Prop)
    (Q' : kind error → list mark → Prop) :
  adds body Q →
  (∀ ms, Q (KRet tt) ms → Q' (KRet None) ms) →
  (∀ e ms, Q (KReturn e) ms → Q' (KRet e) ms) →
  (∀ ms, Q KBlocked ms → Q' KBlocked ms) →
  adds (call body) Q'.
Proof.
  intros Hb H1 H2 H3 up. unfold call. specialize (Hb up).
  destruct (body up) as [[] up1|e up1|up1|]; [..|done];
    destruct Hb as (l & ? & ?); eauto.
Qed.

Lemma adds_defer {A} (a : action) (rest : M A) (Q Q' : kind A → list mark → Prop) :
  adds rest Q →
  (∀ x ms, Q (KRet x) ms → Q' (KRet x) (ms ++ marks [a])%list) →
  (∀ e ms, Q (KReturn e) ms → Q' (KReturn e) (ms ++ marks [a])%list) →
  (∀ ms, Q KBlocked ms → Q' KBlocked ms) →
  adds (defer_ (record a) rest) Q'.
Proof.
  intros Hr H1 H2 H3 up. unfold defer_. specialize (Hr up).
  destruct (rest up) as [x up1|e up1|up1|]; [..|done]; destruct Hr as (l & E & H).
  - exists (l ++ [a])%list. cbn. rewrite E, app_assoc, marks_app. eauto.
  - exists (l ++ [a])%list. cbn. rewrite E, app_assoc, marks_app. eauto.
  - eauto.
Qed.

(** *** Statements that leave no mark *)

Lemma silent_ret {A} (a : A) : adds (ret a) silent.
Proof. apply (adds_weaken _ _ _ (adds_ret a)). by intros k ms [-> ->]. Qed.

Lemma silent_return {A} (e : error) : e ≠ None → adds (@return_ A e) silent.
Proof. intros He. apply (adds_weaken _ _ _ (adds_return e)). by intros k ms [-> ->]. Qed.

Lemma silent_check (e : error) : adds (check e) silent.
Proof. destruct e; [by apply silent_return|apply silent_ret]. Qed.

Lemma silent_modify (f : UpContext → UpContext) :
  (∀ up, trace (f up) = trace up) → adds (modify f) silent.
Proof. intros Hf. apply (adds_weaken _ _ _ (adds_modify f Hf)). by intros k ms [-> ->]. Qed.

Lemma silent_emit (a : action) : mark_of a = None → adds (emit a) silent.
Proof.
  intros Ha. apply (adds_weaken _ _ _ (adds_emit a)). intros k ms [-> ->].
  unfold marks. cbn. by rewrite Ha.
Qed.

Lemma silent_get : adds get silent.
Proof. intros up. exists []. by rewrite app_nil_r. Qed.

Lemma silent_theDev : adds theDev silent.
Proof. intros up. unfold theDev. destruct (Dev up); [|done]. exists []. by rewrite app_nil_r. Qed.

Lemma silent_theSy : adds theSy silent.
Proof. intros up. unfold theSy. destruct (Sy up); [|done]. exists []. by rewrite app_nil_r. Qed.

Lemma silent_bind {A B} (m : M A) (f : A → M B) :
  adds m silent → (∀ a, adds (f a) silent) → adds (bind m f) silent.
Proof. intros Hm Hf. apply adds_silent_then; [done..|]. by intros e He. Qed.

Lemma silent_for_range {A} (l : list A) (body : A → M unit) :
  (∀ x, adds (body x) silent) → adds (for_range l body) silent.
Proof.
  intros Hb. induction l as [|x l IH]; [apply silent_ret|].
  apply silent_bind; [apply Hb|by intros _].
Qed.

Ltac silence :=
  repeat first
    [ apply silent_bind; [|intros ?]
    | apply silent_check
    | apply silent_ret
    | apply silent_return; done
    | apply silent_modify; reflexivity
    | apply silent_emit; reflexivity
    | apply silent_get
    | apply silent_theDev
    | apply silent_theSy
    | apply silent_for_range; intros ? ].

Lemma silent_Forwarder_Add (lo re : Z) : adds (Forwarder_Add lo re) silent.
Proof.
  unfold Forwarder_Add. silence.
  destruct (Forwarder _) as [p|]; [|done].
  destruct (PortForwardManager_Add p lo re) as [p' err]. silence.
Qed.

Lemma adds_devMode_forwards (w : world) (dev : model.Dev) (sy : Syncthing) :
  adds (devMode_forwards w dev sy) (returns (fun _ ms => ms = [])).
Proof.
  unfold devMode_forwards.
  repeat (apply adds_silent_then;
          [first [apply silent_Forwarder_Add
                 |apply silent_for_range; intros ?; apply silent_Forwarder_Add
                 |silence]
          |intros ?|by eexists]).
  - destruct (remoteModeEnabled _); silence.
  - apply (adds_weaken _ _ _ (adds_return None)). intros k ms [-> ->]. by eexists.
Qed.

Lemma adds_sends (l : list string) :
  adds (for_range l (fun m => emit (ReporterSend m)))
       (fun k ms => k = KRet tt ∧ ms = Sent <$> l).
Proof.
  induction l as [|x l IH]; [apply adds_ret|].
  cbn [for_range]. apply adds_emit_then.
  apply (adds_weaken _ _ _ IH). by intros k ms [-> ->].
Qed.

Lemma adds_devMode_pod (w : world) (dev : model.Dev) (sy : Syncthing) :
  adds (devMode_pod w dev sy)
       (returns (fun e ms => (ms = [] ∧ e ≠ None) ∨
                             ms = reporter_marks (fst (MonitorDevPod w)))).
Proof.
  unfold devMode_pod.
  apply adds_silent_then; [silence| |by intros e He; exists e; auto].
  intros _.
  apply (adds_defer _ _
           (returns (fun _ ms => ms = ReporterStarted :: (Sent <$> fst (MonitorDevPod w))))).
  - apply adds_emit_then.
    apply (adds_bind _ _ _ _ (adds_sends _)).
    + intros [] m1 [_ ->].
      destruct (snd (MonitorDevPod w)) as [pod|e].
      * apply adds_silent_then; [silence| |by intros e He; exists e; rewrite app_nil_r].
        intros _. apply (adds_weaken _ _ _ (adds_devMode_forwards w dev sy)).
        intros k ms (e & -> & ->). exists e. by rewrite app_nil_r.
      * apply (adds_weaken _ _ _ (adds_return _)). intros k ms [-> ->].
        eexists. by rewrite app_nil_r.
    + by intros e ms [[=] _].
    + by intros ms [[=] _].
  - by intros x ms (e & [=] & _).
  - intros e ms (e' & [= <-] & ->). exists e. split; [done|]. by right.
  - by intros ms (e & [=] & _).
Qed.

Lemma silent_devMode_deploy (w : world) (dev : model.Dev) (d_Name : string) (create : bool) :
  adds (devMode_deploy w dev d_Name create) silent.
Proof.
  unfold devMode_deploy.
  destruct (syncthing_New w) as [sy|e]; [|silence]. silence.
  destruct (GetTranslations w) as [tr|e]; [|silence]. silence.
  - by case_bool_decide; silence.
  - destruct (create && _); silence.
Qed.

Lemma upto_1 (w : world) : upto 1 w = [Wrote activating].
Proof. reflexivity. Qed.
Lemma upto_2 (w : world) : upto 2 w = [Wrote activating; Wrote starting].
Proof. reflexivity. Qed.
Lemma upto_3 (w : world) :
  upto 3 w = ([Wrote activating; Wrote starting] ++ reporter_marks (fst (MonitorDevPod w)))%list.
Proof. unfold upto. cbn. by rewrite app_nil_r. Qed.
Lemma upto_S (n : nat) (w : world) (ms : list mark) :
  stages w !! n = Some ms → upto (S n) w = (upto n w ++ ms)%list.
Proof.
  intros H. unfold upto. rewrite (take_S_r _ _ _ H), concat_app. cbn.
  by rewrite app_nil_r.
Qed.

(** [devMode] (lines 322-446) goes through the first stages, in order, and
    through the three of them if it returns no error. *)
Lemma adds_devMode (w : world) (d_Name : string) (create : bool) :
  adds (devMode w d_Name create)
       (returns (fun e ms => ∃ n, ms = upto n w ∧ (1 ≤ n ≤ 3)%nat ∧ (e = None → n = 3%nat))).
Proof.
  unfold devMode, updateStateFile.
  apply adds_emit_then.
  assert (E1 : ∀ e, e ≠ None →
     returns (A:=unit) (fun e ms => ∃ n, ms = upto n w ∧ (1 ≤ n ≤ 3)%nat ∧ (e = None → n = 3%nat))
       (KReturn e) (marks [UpdateStateFile activating] ++ [])).
  { intros e He. exists e. split; [done|]. exists 1%nat. split; [done|]. split; [lia|done]. }
  apply adds_silent_then; [by destruct (IsOktetoAllowed w); silence| |exact E1]. intros _.
  apply adds_silent_then; [silence| |exact E1]. intros _.
  apply adds_silent_then; [silence| |exact E1]. intros dev.
  destruct (GetDevContainer w) as [c|];
    [|apply (adds_weaken _ _ _ (adds_return _)); intros k ms [-> ->]; by apply E1].
  apply adds_silent_then; [silence| |exact E1]. intros _.
  apply adds_silent_then; [silence| |exact E1]. intros up.
  apply adds_silent_then; [by destruct (retry up && _); silence| |exact E1]. intros _.
  apply adds_emit_then.
  assert (E2 : ∀ e, e ≠ None →
     returns (A:=unit) (fun e ms => ∃ n, ms = upto n w ∧ (1 ≤ n ≤ 3)%nat ∧ (e = None → n = 3%nat))
       (KReturn e) (marks [UpdateStateFile activating] ++ marks [UpdateStateFile starting] ++ [])).
  { intros e He. exists e. split; [done|]. exists 2%nat. split; [done|]. split; [lia|done]. }
  apply adds_silent_then; [apply silent_devMode_deploy| |exact E2]. intros sy.
  apply (adds_weaken _ _ _ (adds_devMode_pod w _ sy)).
  intros k ms (e & -> & [[-> He]| ->]); [by apply E2|].
  exists e. split; [done|]. exists 3%nat. rewrite upto_3. split; [done|]. split; [lia|done].
Qed.

Lemma adds_startLocalSyncthing (w : world) :
  adds (startLocalSyncthing w) (returns (fun _ ms => ms = [Wrote startingSync])).
Proof.
  unfold startLocalSyncthing, updateStateFile. apply adds_emit_then.
  repeat (apply adds_silent_then; [silence|intros ?|by eexists]).
  destruct (WaitForPing_remote w).
  - apply (adds_weaken _ _ _ (adds_return _)). intros k ms [-> ->]. by eexists.
  - apply adds_silent_then; [silence|intros ?|by eexists].
    apply (adds_weaken _ _ _ (adds_return _)). intros k ms [-> ->]. by eexists.
Qed.

Lemma adds_synchronizeFiles (w : world) :
  adds (synchronizeFiles w) (returns (fun _ ms => ms = [Wrote synchronizing])).
Proof.
  unfold synchronizeFiles, updateStateFile. apply adds_emit_then.
  apply adds_silent_then; [silence|intros sy|by eexists].
  destruct (WaitForCompletion w) as [err|].
  - case_bool_decide; apply (adds_weaken _ _ _ (adds_return _));
      intros k ms [-> ->]; by eexists.
  - repeat (apply adds_silent_then; [silence|intros ?|by eexists]).
    apply (adds_weaken _ _ _ (adds_return _)). intros k ms [-> ->]. by eexists.
Qed.

(** [sync] (lines 448-458) *)
Lemma adds_sync (w : world) :
  adds (sync w)
       (returns (fun e ms => (ms = [Wrote startingSync] ∧ e ≠ None) ∨
                             ms = [Wrote startingSync; Wrote synchronizing])).
Proof.
  unfold sync.
  apply (adds_bind _ _ (fun k ms => ∃ e, k = KRet e ∧ ms = [Wrote startingSync])).
  - apply (adds_call _ _ _ (adds_startLocalSyncthing w)).
    + by intros ms (e & [=] & _).
    + intros e ms (e' & [= <-] & ->). eauto.
    + by intros ms (e & [=] & _).
  - intros err m1 (e & [= <-] & ->).
    apply adds_silent_then; [silence| |by intros e' He; exists e'; auto]. intros _.
    apply (adds_bind _ _ (fun k ms => ∃ e, k = KRet e ∧ ms = [Wrote synchronizing])).
    + apply (adds_call _ _ _ (adds_synchronizeFiles w)).
      * by intros ms (e & [=] & _).
      * intros e ms (e' & [= <-] & ->). eauto.
      * by intros ms (e & [=] & _).
    + intros err2 m2 (e & [= <-] & ->).
      apply adds_silent_then; [silence| |by intros e' He; exists e'; auto]. intros _.
      apply (adds_weaken _ _ _ (adds_return _)). intros k ms [-> ->]. eexists. eauto.
    + by intros e ms (e' & [=] & _).
    + by intros ms (e' & [=] & _).
  - by intros e ms (e' & [=] & _).
  - by intros ms (e' & [=] & _).
Qed.

Lemma marks_wait (events : list event) :
  marks (snd (WaitUntilExitOrInterrupt events)) = [].
Proof.
  induction events as [|[[e|]|[e|]|] events IH]; try done.
  cbn [WaitUntilExitOrInterrupt].
  destruct (WaitUntilExitOrInterrupt events) as [r out]. exact IH.
Qed.

Lemma adds_wait (w : world) :
  adds (wait w) (fun k ms => ms = [] ∧ ∀ e, k ≠ KReturn e).
Proof.
  intros up. unfold wait. pose proof (marks_wait (select_events w)) as H.
  destruct (WaitUntilExitOrInterrupt (select_events w)) as [r out].
  destruct r; [| |done]; exists out; done.
Qed.

Lemma adds_quiet_then {A B} (m : M A) (f : A → M B) (Q : kind B → list mark → Prop) :
  adds m quiet → (∀ a, adds (f a) Q) → adds (bind m f) Q.
Proof.
  intros Hm Hf. apply (adds_bind m f quiet Q Hm).
  - intros a m1 [-> _]. exact (Hf a).
  - by intros e ms [_ [a [=]]].
  - by intros ms [_ [a [=]]].
Qed.

Lemma quiet_emit (a : action) : mark_of a = None → adds (emit a) quiet.
Proof.
  intros Ha. apply (adds_weaken _ _ _ (adds_emit a)). intros k ms [-> ->].
  unfold marks. cbn. rewrite Ha. split; [done|]. by eexists.
Qed.

Lemma quiet_modify (f : UpContext → UpContext) :
  (∀ up, trace (f up) = trace up) → adds (modify f) quiet.
Proof.
  intros Hf. apply (adds_weaken _ _ _ (adds_modify f Hf)). intros k ms [-> ->].
  split; [done|]. by eexists.
Qed.

Ltac hush := first [apply quiet_emit; reflexivity | apply quiet_modify; reflexivity].

Lemma upto_le (n : nat) (w : world) : (6 ≤ n)%nat → upto n w = upto 6 w.
Proof. intros H. unfold upto. by rewrite !take_ge by (cbn; lia). Qed.

(** One turn of the loop of [Activate] (lines 194-260). *)
Lemma adds_Activate_turn (w : world) :
  adds (Activate_turn w) (turn_marks w).
Proof.
  unfold Activate_turn.
  destruct (getCurrentDeployment w) as [[d_Name create]|e].
  2:{ apply (adds_weaken _ _ _ (adds_ret _)). intros k ms [-> ->].
      exists 0%nat. split; [done|]. cbn. lia. }
  apply (adds_bind _ _
    (fun k ms => ∃ e n, k = KRet e ∧ ms = upto n w ∧ (1 ≤ n ≤ 3)%nat ∧ (e = None → n = 3%nat))).
  - apply (adds_call _ _ _ (adds_devMode w d_Name create)).
    + by intros ms (e & [=] & _).
    + intros e ms (e' & [= <-] & n & -> & Hn & He). eauto 6.
    + by intros ms (e & [=] & _).
  - intros err m1 (e & n & [= <-] & -> & Hn & He).
    destruct err as [e|].
    { apply (adds_weaken _ _ _ (adds_ret _)). intros k ms [-> ->].
      exists n. rewrite app_nil_r. split; [done|]. cbn. lia. }
    rewrite (He eq_refl). clear n Hn He.
    apply adds_quiet_then; [hush|]. intros _.
    apply (adds_bind _ _
      (fun k ms => ∃ e, k = KRet e ∧
         ((ms = [Wrote startingSync] ∧ e ≠ None) ∨
          ms = [Wrote startingSync; Wrote synchronizing]))).
    + apply (adds_call _ _ _ (adds_sync w)).
      * by intros ms (e & [=] & _).
      * intros e ms (e' & [= <-] & H). eauto.
      * by intros ms (e & [=] & _).
    + intros err m2 (e & [= <-] & H).
      assert (Hm2 : ∃ n, (upto 3 w ++ m2)%list = upto n w ∧ (4 ≤ n ≤ 5)%nat ∧
                         (err = None → n = 5%nat)).
      { destruct H as [[-> He]| ->].
        - exists 4%nat. split; [|split; [lia|done]].
          by rewrite (upto_S 3 w [Wrote startingSync]).
        - exists 5%nat. split; [|split; [lia|done]].
          rewrite (upto_S 4 w [Wrote synchronizing]) by done.
          rewrite (upto_S 3 w [Wrote startingSync]) by done.
          by rewrite <- app_assoc. }
      destruct Hm2 as (n & En & Hn & He). clear H.
      destruct err as [e|].
      * destruct (negb (pods_Exists_after_sync w)).
        -- apply adds_quiet_then; [hush|]. intros _.
           apply adds_quiet_then; [hush|]. intros _.
           apply (adds_weaken _ _ _ (adds_ret _)). intros k ms [-> ->].
           rewrite app_nil_r, En. exists n. split; [done|]. cbn. lia.
        -- apply (adds_weaken _ _ _ (adds_ret _)). intros k ms [-> ->].
           rewrite app_nil_r, En. exists n. split; [done|]. cbn. lia.
      * rewrite (He eq_refl) in En. clear n Hn He.
        apply adds_quiet_then; [hush|]. intros _.
        apply adds_quiet_then; [hush|]. intros _.
        apply adds_emit_then.
        assert (E6 : (upto 3 w ++ m2 ++ marks [GoRunCommand])%list = upto 6 w).
        { rewrite app_assoc, En. by rewrite (upto_S 5 w [RunnerStarted]). }
        apply (adds_bind _ _ _ _ (adds_wait w)).
        -- intros prevError m3 [-> _].
           destruct (bool_decide (prevError ≠ None) && _).
           ++ apply adds_quiet_then; [hush|]. intros _.
              apply adds_quiet_then; [hush|]. intros _.
              apply (adds_weaken _ _ _ (adds_ret _)). intros k ms [-> ->].
              rewrite !app_nil_r, E6. exists 6%nat. split; [done|]. cbn. lia.
           ++ apply (adds_weaken _ _ _ (adds_ret _)). intros k ms [-> ->].
              rewrite !app_nil_r, E6. exists 6%nat. split; [done|].
              cbn. destruct prevError; lia.
        -- intros e ms [_ H]. by destruct (H e).
        -- intros ms [-> _]. rewrite app_nil_r, E6. exists 6%nat. done.
    + by intros e ms (e' & [=] & _).
    + by intros ms (e' & [=] & _).
  - by intros e ms (e' & n & [=] & _).
  - by intros ms (e' & n & [=] & _).
Qed.

(** A cycle: the turn, and [failed] if it ends with an error. *)
Lemma adds_cycle (w : world) : adds (cycle w) (cycle_marks w).
Proof.
  unfold cycle, updateStateFile.
  apply (adds_bind _ _ _ _ (adds_Activate_turn w)).
  - intros r m1 (n & -> & Hr).
    destruct r as [|[e|]].
    + apply (adds_weaken _ _ _ (adds_ret _)). intros k ms [-> ->].
      exists n. rewrite app_nil_r. by split.
    + apply adds_emit_then.
      apply (adds_weaken _ _ _ (adds_ret _)). intros k ms [-> ->].
      exists n. rewrite app_nil_r. by split.
    + apply (adds_weaken _ _ _ (adds_ret _)). intros k ms [-> ->].
      exists n. rewrite app_nil_r. by split.
  - intros e ms (n & _ & []).
  - intros ms (n & -> & H). exists n. rewrite app_nil_r. by split.
Qed.

(** *** The state file under every schedule *)

Lemma state_writes_marks (l : list action) : state_writes l = omap wrote (marks l).
Proof.
  induction l as [|a l IH]; [done|].
  unfold state_writes, marks in *. destruct a; cbn; by rewrite ?IH.
Qed.

Lemma reporter_actions_marks (l : list action) :
  reporter_actions l = omap action_of (marks l).
Proof.
  induction l as [|a l IH]; [done|].
  unfold reporter_actions in *. rewrite filter_cons, IH.
  destruct a; by cbn.
Qed.

Lemma wrote_reporter_marks (msgs : list string) : omap wrote (reporter_marks msgs) = [].
Proof.
  unfold reporter_marks. cbn. rewrite omap_app. cbn. rewrite app_nil_r.
  induction msgs as [|m msgs IH]; [done|exact IH].
Qed.

Lemma action_of_reporter_marks (msgs : list string) :
  omap action_of (reporter_marks msgs) =
    (GoReporter :: (ReporterSend <$> msgs) ++ [ReporterClose])%list.
Proof.
  unfold reporter_marks. cbn. rewrite omap_app. cbn. do 2 f_equal.
  induction msgs as [|m msgs IH]; [done|]. cbn. by rewrite IH.
Qed.

Lemma upto_form (n : nat) (w : world) :
  (3 ≤ n)%nat →
  upto n w = ([Wrote activating; Wrote starting; ReporterStarted] ++
              (Sent <$> fst (MonitorDevPod w)) ++
              ReporterClosed ::
                take (n - 3) [Wrote startingSync; Wrote synchronizing; RunnerStarted])%list.
Proof.
  intros Hn. destruct (decide (6 ≤ n)%nat) as [H6|H6].
  - rewrite (upto_le n w H6). rewrite take_ge by (cbn; lia).
    unfold upto, reporter_marks. cbn. by rewrite <- app_assoc.
  - assert (n = 3 ∨ n = 4 ∨ n = 5)%nat as Hc by lia.
    destruct Hc as [->|[->| ->]];
      unfold upto, reporter_marks; cbn; by rewrite <- app_assoc.
Qed.

Lemma precedesb_sound (x y : mark) (ms : list mark) :
  precedesb x y ms = true → precedes x y ms.
Proof.
  induction ms as [|z ms IH]; intros H p q E.
  - by destruct p.
  - cbn in H. case_bool_decide as Hy; [done|]. case_bool_decide as Hx.
    + destruct p as [|z' p]; [by simplify_eq/=|]. simplify_eq/=.
      apply elem_of_cons. by left.
    + destruct p as [|z' p]; [by simplify_eq/=|]. simplify_eq/=.
      apply elem_of_cons. right. by eapply IH.
Qed.

Lemma precedesb_sandwich (x y : mark) (pre post : list mark) (msgs : list string) :
  (∀ m, x ≠ Sent m) → (∀ m, y ≠ Sent m) →
  precedesb x y (pre ++ (Sent <$> msgs) ++ post) = precedesb x y (pre ++ post).
Proof.
  intros Hx Hy. induction pre as [|z pre IH].
  - cbn [app]. induction msgs as [|m msgs IHm]; [done|].
    cbn. rewrite bool_decide_eq_false_2 by (intros E; by eapply Hy).
    rewrite bool_decide_eq_false_2 by (intros E; by eapply Hx). exact IHm.
  - cbn. by rewrite IH.
Qed.

Lemma shape_orders (w : world) (n : nat) (tail : list mark) (x y : mark) :
  tail = [] ∨ tail = [Wrote failed] →
  order_of y = Some x → precedes x y (upto n w ++ tail).
Proof.
  intros Ht Hxy. apply precedesb_sound.
  assert (Hx : ∀ m, x ≠ Sent m).
  { intros m ->. destruct y as [[]| | | |]; by cbn in Hxy. }
  assert (Hy : ∀ m, y ≠ Sent m) by (by intros m ->).
  destruct (decide (3 ≤ n)%nat) as [H3|H3].
  - rewrite (upto_form n w H3), <- !app_assoc.
    rewrite precedesb_sandwich by done.
    assert (n - 3 = 0 ∨ n - 3 = 1 ∨ n - 3 = 2 ∨ 3 ≤ n - 3)%nat as Hc by lia.
    destruct Hc as [->|[->|[->|H]]];
      [| | |rewrite take_ge by (cbn; lia)];
      destruct Ht as [-> | ->];
      destruct y as [[]| | | |]; cbn in Hxy; simplify_eq; vm_compute; reflexivity.
  - assert (n = 0 ∨ n = 1 ∨ n = 2)%nat as Hc by lia.
    destruct Hc as [->|[->| ->]];
      destruct Ht as [-> | ->];
      destruct y as [[]| | | |]; cbn in Hxy; simplify_eq; vm_compute; reflexivity.
Qed.

Lemma main_shape (w : world) (dev : model.Dev) :
  ∃ n tail, marks (worlds.main_of w dev) = (upto n w ++ tail)%list ∧
            (tail = [] ∨ tail = [Wrote failed]).
Proof.
  unfold worlds.main_of. pose proof (adds_cycle w (RunUp_context dev)) as H.
  destruct (cycle w (RunUp_context dev)) as [r up'|e up'|up'|]; cbn.
  - destruct H as (l & E & n & Em & _). eexists n, _. split.
    + cbn. rewrite E. exact Em.
    + destruct r as [|[e|]]; auto.
  - by destruct H as (l & _ & n & _ & []).
  - destruct H as (l & E & n & Em & _). exists n, []. split; [|auto].
    cbn. rewrite E. exact Em.
  - exists 0%nat, []. auto.
Qed.

Lemma main_orders (w : world) (dev : model.Dev) (x y : mark) :
  order_of y = Some x → precedes x y (marks (worlds.main_of w dev)).
Proof.
  intros H. destruct (main_shape w dev) as (n & tail & -> & Ht).
  by apply shape_orders.
Qed.

Lemma ordered_snoc (f : list ActivationState) (s : ActivationState) :
  ordered f → (∀ s0, before s = Some s0 → s0 ∈ f) → ordered (f ++ [s]).
Proof.
  intros Hf Hs f1 s' f2 s0 E Hb.
  destruct f2 as [|z f2 _] using rev_ind.
  - apply app_inj_tail in E as [-> ->]. by apply Hs.
  - rewrite app_comm_cons, app_assoc in E. apply app_inj_tail in E as [-> _].
    by eapply Hf.
Qed.

Section Invariant.
Variable main : list action.
Hypothesis main_ordered : ∀ x y, order_of y = Some x → precedes x y (marks main).

Lemma before_past (past rest : list action) (x y : mark) :
  main = (past ++ rest)%list → order_of y = Some x →
  y ∈ marks past → x ∈ marks past.
Proof.
  intros E Hxy Hy. apply list_elem_of_split in Hy as (p & q & Hp).
  assert (x ∈ p) as Hx.
  { apply (main_ordered x y Hxy p (q ++ marks rest)%list).
    rewrite E, marks_app, Hp. by rewrite <- app_assoc. }
  rewrite Hp. apply elem_of_app. by left.
Qed.

Lemma before_next (past rest : list action) (a : action) (x y : mark) :
  main = (past ++ a :: rest)%list → mark_of a = Some y → order_of y = Some x →
  x ∈ marks past.
Proof.
  intros E Ha Hxy.
  apply (main_ordered x y Hxy (marks past) (marks rest)).
  rewrite E, marks_app. unfold marks at 2. cbn. by rewrite Ha.
Qed.

Lemma marks_snoc_elem (past : list action) (a : action) (m : mark) :
  m ∈ marks (past ++ [a]) ↔ m ∈ marks past ∨ mark_of a = Some m.
Proof.
  rewrite marks_app, elem_of_app.
  assert (Ha : marks [a] = match mark_of a with Some m' => [m'] | None => [] end).
  { unfold marks, omap. cbn [list_omap]. by destruct (mark_of a). }
  rewrite Ha. destruct (mark_of a) as [m'|].
  - split; (intros [?|H]; [by left|right]).
    + apply list_elem_of_singleton in H. by subst.
    + injection H as ->. by apply list_elem_of_singleton.
  - split; (intros [?|H]; [by left|]); [by apply elem_of_nil in H|done].
Qed.

(** A step of the goroutine of [Activate] that writes nothing to the file. *)
Lemma main_step_keep (c c' : config) (past rest : list action) (a : action) :
  main = (past ++ a :: rest)%list →
  (∀ s, Wrote s ∈ marks past → s ∈ file c) →
  (reporter c ≠ RNone → ReporterStarted ∈ marks past) →
  (runner c ≠ NotStarted → RunnerStarted ∈ marks past) →
  ordered (file c) →
  (∀ s, mark_of a ≠ Some (Wrote s)) →
  todo c' = rest → file c' = file c →
  (reporter c' ≠ RNone → reporter c ≠ RNone ∨ mark_of a = Some ReporterStarted) →
  (runner c' ≠ NotStarted → runner c ≠ NotStarted ∨ mark_of a = Some RunnerStarted) →
  invariant main c'.
Proof.
  intros E Hw Hr Hn Ho Ha Htodo Hfile Hrep Hrun. split.
  - exists (past ++ [a])%list. rewrite Htodo, Hfile. split_and!.
    + by rewrite <- app_assoc.
    + intros s [Hs|Hs]%marks_snoc_elem; [by apply Hw|by destruct (Ha s)].
    + intros H. apply marks_snoc_elem. destruct (Hrep H); auto.
    + intros H. apply marks_snoc_elem. destruct (Hrun H); auto.
  - by rewrite Hfile.
Qed.

Lemma step_invariant (t : thread) (c c' : config) :
  invariant main c → step t c = Some c' → invariant main c'.
Proof.
  intros [(past & E & Hw & Hr & Hn) Ho] Hstep.
  destruct t; cbn in Hstep.
  - (* the goroutine of Activate *)
    destruct (todo c) as [|a rest] eqn:Htodo; [done|].
    destruct a as [s| |m| | | | | | |e| | | | | | |];
      try (apply (inj Some) in Hstep as <-;
           apply (main_step_keep c _ past rest _ E Hw Hr Hn Ho); cbn; auto; done).
    + (* a write to the state file *)
      apply (inj Some) in Hstep as <-. split.
      * exists (past ++ [UpdateStateFile s])%list. cbn. split_and!.
        -- by rewrite <- app_assoc.
        -- intros s' [Hs'|Hs']%marks_snoc_elem; apply elem_of_app.
           ++ left. by apply Hw.
           ++ right. injection Hs' as ->. by apply list_elem_of_singleton.
        -- intros H. apply marks_snoc_elem. left. by apply Hr.
        -- intros H. apply marks_snoc_elem. left. by apply Hn.
      * cbn. apply ordered_snoc; [exact Ho|]. intros s0 Hb. apply Hw.
        apply (before_next past rest (UpdateStateFile s) (Wrote s0) (Wrote s) E eq_refl).
        cbn. by rewrite Hb.
    + (* a send to the reporter *)
      destruct (reporter c) eqn:Hrep; try done.
      apply (inj Some) in Hstep as <-.
      apply (main_step_keep c _ past rest _ E Hw); cbn; auto; try done.
      rewrite Hrep. auto.
    + (* a receive *)
      destruct e as [err| |];
        [destruct (runner c) eqn:Hrun; try done| |];
        apply (inj Some) in Hstep as <-;
        apply (main_step_keep c _ past rest _ E Hw); cbn; auto; try done;
        rewrite ?Hrun; auto.
  - (* the reporter goroutine *)
    destruct (reporter c) eqn:Hrep; try done.
    + apply (inj Some) in Hstep as <-. split.
      * exists past. cbn. split_and!; [done| |by auto|exact Hn].
        intros s Hs. apply elem_of_app. left. by apply Hw.
      * cbn. apply ordered_snoc; [exact Ho|]. intros s0 [= <-]. apply Hw.
        apply (before_past past (todo c) (Wrote starting) ReporterStarted E eq_refl).
        by apply Hr.
    + destruct (closed c); [|done]. apply (inj Some) in Hstep as <-.
      split; [|exact Ho]. exists past. cbn. split_and!; try done.
      intros _. by apply Hr.
    + assert (HRS : ReporterStarted ∈ marks past) by (by apply Hr).
      case_bool_decide; [|destruct (String.prefix _ _)];
        apply (inj Some) in Hstep as <-.
      * split; [|exact Ho]. exists past. cbn. split_and!; done.
      * split.
        -- exists past. cbn. split_and!; try done.
           intros s Hs. apply elem_of_app. left. by apply Hw.
        -- cbn. apply ordered_snoc; [exact Ho|]. intros s0 [= <-]. apply Hw.
           by apply (before_past past (todo c) (Wrote starting) ReporterStarted E eq_refl).
      * split; [|exact Ho]. exists past. cbn. split_and!; done.
  - (* the goroutine that runs the command *)
    destruct (runner c) eqn:Hrun; try done.
    apply (inj Some) in Hstep as <-. split.
    + exists past. cbn. split_and!; [done| |done|by intros _; apply Hn].
      intros s Hs. apply elem_of_app. left. by apply Hw.
    + cbn. apply ordered_snoc; [exact Ho|]. intros s0 [= <-]. apply Hw.
      apply (before_past past (todo c) (Wrote synchronizing) RunnerStarted E eq_refl).
      by apply Hn.
Qed.

Lemma run_invariant (schedule : list thread) (c c' : config) :
  invariant main c → run schedule c = Some c' → invariant main c'.
Proof.
  revert c. induction schedule as [|t schedule IH]; intros c Hc Hrun; cbn in Hrun.
  - by apply (inj Some) in Hrun as <-.
  - destruct (step t c) as [c1|] eqn:Hstep; [|done].
    apply (IH c1); [|done]. by eapply step_invariant.
Qed.

Lemma initial_invariant : invariant main (initial main).
Proof.
  split.
  - exists []. cbn. split_and!; try done. intros s Hs. by apply elem_of_nil in Hs.
  - intros f1 s f2 s0 E. by destruct f1.
Qed.

End Invariant.

End CmdLogic.

(** ** Package [cmd] : the cycle, on every world *)

Section CycleProofs.
Import cmd observe cmd_logic.

Lemma wrote_sent (msgs : list string) : omap wrote (Sent <$> msgs) = [].
Proof. induction msgs as [|m msgs IH]; [done|exact IH]. Qed.

Lemma action_of_sent (msgs : list string) :
  omap action_of (Sent <$> msgs) = ReporterSend <$> msgs.
Proof. induction msgs as [|m msgs IH]; [done|]. cbn. by rewrite IH. Qed.

(** The states among the marks of the first [n] stages. *)
Lemma wrote_upto (n : nat) (w : world) :
  omap wrote (upto n w) =
  take (match n with 0 => 0 | 1 => 1 | 2 | 3 => 2 | 4 => 3 | _ => 4 end)%nat
    [activating; starting; startingSync; synchronizing].
Proof.
  destruct (decide (3 ≤ n)%nat) as [H3|H3].
  - rewrite (upto_form n w H3), !omap_app, wrote_sent.
    assert (n = 3 ∨ n = 4 ∨ n = 5 ∨ 6 ≤ n)%nat as Hc by lia.
    destruct Hc as [->|[->|[->|H6]]]; [reflexivity..|].
    rewrite (take_ge _ (n - 3)) by (cbn; lia).
    do 6 (destruct n as [|n]; [lia|]). reflexivity.
  - assert (n = 0 ∨ n = 1 ∨ n = 2)%nat as Hc by lia.
    destruct Hc as [->|[->| ->]]; reflexivity.
Qed.




End CycleProofs.

Section CycleExamples.
Import cmd observe cmd_logic worlds schedules.

Lemma cycle_quiet_run :
  ∃ up', cycle quiet (RunUp_context dev_api) = Ret (Exit None) up'.
Proof. eexists. vm_compute. reflexivity. Defined.


Lemma devMode_usual_run :
  ∃ up', call (devMode usual "api" false) (RunUp_context dev_api) = Ret None up'.
Proof. eexists. vm_compute. reflexivity. Defined.


Lemma late_reporter_run :
  ∃ c, run late_reporter (initial (main_of quiet dev_api)) = Some c ∧
       file c = ([activating; starting; startingSync] ++ attaching :: [synchronizing; ready])%list.
Proof. eexists. split; vm_compute; reflexivity. Defined.


(** A cycle that fails in [devMode] because the namespace does not allow
    it: [activating], then [failed]. *)
Example cycle_not_allowed :
  state_writes <$>
    trace_of (cycle (mkWorld (inl ("api", false)) false None None true (inr ErrNotFound)
                       None (inr ErrNotFound) None (fun _ _ => None) None None
                       ([], inr ErrNotFound) None None None None None None None None None
                       true true [])
                (RunUp_context dev_api)) =
  Some [activating; failed].
Proof. vm_compute. reflexivity. Qed.

End CycleExamples.

(** ** Package [encoding/json]: what is written is read back *)

Section JsonProofs.
Import json.

Lemma sapp_cons (x : ascii) (a b : string) : String x a +:+ b = String x (a +:+ b).
Proof. reflexivity. Qed.

Lemma sapp_nil_l (a : string) : "" +:+ a = a.
Proof. reflexivity. Qed.

Lemma sapp_assoc (a b c : string) : (a +:+ b) +:+ c = a +:+ (b +:+ c).
Proof. induction a as [|x a IH]; [done|]. by rewrite !sapp_cons, IH. Qed.

Lemma sapp_nil_r (a : string) : a +:+ "" = a.
Proof. induction a as [|x a IH]; [done|]. by rewrite sapp_cons, IH. Qed.

Lemma length_sapp (a b : string) :
  String.length (a +:+ b) = (String.length a + String.length b)%nat.
Proof. induction a as [|x a IH]; [done|]. rewrite sapp_cons. cbn. by rewrite IH. Qed.

Lemma digit_val_char (r : N) : (r < 10)%N → digit_val (pretty_N_char r) = Some r.
Proof.
  intros Hr.
  assert (r = 0 ∨ r = 1 ∨ r = 2 ∨ r = 3 ∨ r = 4 ∨ r = 5 ∨ r = 6 ∨ r = 7 ∨ r = 8 ∨ r = 9)%N
    as Hc by lia.
  destruct Hc as [->|[->|[->|[->|[->|[->|[->|[->|[->| ->]]]]]]]]]; reflexivity.
Qed.

Lemma pretty_go_app (x : N) (s t : string) :
  pretty_N_go x s +:+ t = pretty_N_go x (s +:+ t).
Proof.
  revert s. induction (N.lt_wf_0 x) as [x _ IH]; intros s.
  assert (x = 0 ∨ 0 < x)%N as [->|Hx] by lia; [by rewrite !pretty_N_go_0|].
  rewrite (pretty_N_go_step x s), (pretty_N_go_step x (s +:+ t)) by done.
  by rewrite IH by (by apply N.div_lt).
Qed.

Lemma read_pretty_go (x : N) (s : string) :
  read_digits 0 (pretty_N_go x s) = read_digits x s.
Proof.
  revert s. induction (N.lt_wf_0 x) as [x _ IH]; intros s.
  assert (x = 0 ∨ 0 < x)%N as [->|Hx] by lia; [by rewrite pretty_N_go_0|].
  rewrite pretty_N_go_step by done. rewrite IH by (by apply N.div_lt).
  cbn [read_digits]. rewrite digit_val_char by (by apply N.mod_lt).
  f_equal. symmetry. by apply N.div_mod.
Qed.

Lemma read_digits_end (acc : N) (rest : string) :
  ends_number rest → read_digits acc rest = (acc, rest).
Proof. destruct rest as [|c r]; [done|]. cbn. by intros ->. Qed.

Lemma pretty_go_head (x : N) (s : string) :
  (0 < x)%N → ∃ c r, pretty_N_go x s = String c r ∧ is_Some (digit_val c).
Proof.
  revert s. induction (N.lt_wf_0 x) as [x _ IH]; intros s Hx.
  rewrite pretty_N_go_step by done.
  destruct (N.eq_0_gt_0_cases (x `div` 10)) as [->|Hd].
  - rewrite pretty_N_go_0. eexists _, _. split; [done|].
    rewrite digit_val_char by (by apply N.mod_lt). by eexists.
  - apply IH; [by apply N.div_lt|done].
Qed.

Lemma read_digits_pretty (n : N) (rest : string) :
  ends_number rest → read_digits 0 (pretty n +:+ rest) = (n, rest).
Proof.
  intros Hrest. unfold pretty, pretty_N. case_decide as Hn.
  - subst n. rewrite sapp_cons, sapp_nil_l. cbn [read_digits].
    change (digit_val "0") with (Some 0%N). cbn beta iota. by apply read_digits_end.
  - rewrite pretty_go_app, sapp_nil_l, read_pretty_go. by apply read_digits_end.
Qed.

Lemma pretty_head (n : N) (rest : string) :
  ∃ c r, pretty n +:+ rest = String c r ∧ is_Some (digit_val c).
Proof.
  unfold pretty, pretty_N. case_decide as Hn.
  - eexists _, _. split; [by rewrite sapp_cons|]. by eexists.
  - rewrite pretty_go_app. apply pretty_go_head. lia.
Qed.

Lemma read_number_pretty (z : Z) (rest : string) :
  ends_number rest → read_number (pretty z +:+ rest) = Some (Number z, rest).
Proof.
  intros Hrest. destruct z as [|p|p].
  - change (pretty 0 +:+ rest) with (String "0" rest). unfold read_number.
    rewrite bool_decide_eq_false_2 by done.
    rewrite bool_decide_eq_true_2 by (by eexists).
    cbn [read_digits]. change (digit_val "0") with (Some 0%N). cbn beta iota.
    by rewrite read_digits_end.
  - change (pretty (Z.pos p)) with (pretty (N.pos p)).
    pose proof (read_digits_pretty (N.pos p) rest Hrest) as Hread.
    destruct (pretty_head (N.pos p) rest) as (c & r & E & Hc).
    rewrite E in *. unfold read_number.
    rewrite bool_decide_eq_false_2 by (intros ->; by destruct Hc).
    rewrite bool_decide_eq_true_2 by done. by rewrite Hread.
  - change (pretty (Z.neg p) +:+ rest) with (String "-" (pretty (N.pos p) +:+ rest)).
    pose proof (read_digits_pretty (N.pos p) rest Hrest) as Hread.
    destruct (pretty_head (N.pos p) rest) as (c & r & E & Hc).
    rewrite E in *. unfold read_number.
    rewrite bool_decide_eq_true_2 by done.
    rewrite bool_decide_eq_true_2 by done. by rewrite Hread.
Qed.

Lemma read_string_escape (c : ascii) (r : string) :
  read_string (escape c +:+ r) =
    ('(str, rest) ← read_string r; Some (String c str, rest)).
Proof. destruct c as [[] [] [] [] [] [] [] []]; reflexivity. Qed.

Lemma read_string_escape_all (s rest : string) :
  read_string (escape_all s +:+ String quote rest) = Some (s, rest).
Proof.
  induction s as [|c s IH].
  - cbn [escape_all]. rewrite sapp_nil_l. cbn [read_string].
    by rewrite bool_decide_eq_true_2.
  - cbn [escape_all]. rewrite sapp_assoc, read_string_escape, IH. done.
Qed.

(** Induction on values, through the arrays and the objects. *)
Lemma value_rect' (P : value → Prop) :
  P Null → (∀ b, P (Bool b)) → (∀ n, P (Number n)) → (∀ s, P (Str s)) →
  (∀ l, Forall P l → P (Array l)) →
  (∀ l, Forall (fun kv => P kv.2) l → P (Object l)) →
  ∀ v, P v.
Proof.
  intros HN HB HZ HS HA HO. fix IH 1.
  intros [|b|n|s|l|l]; [apply HN|apply HB|apply HZ|apply HS| |].
  - apply HA. induction l as [|x l IHl]; constructor; [apply IH|exact IHl].
  - apply HO. induction l as [|[k x] l IHl]; constructor; [apply IH|exact IHl].
Qed.

Lemma parse_number_head (c : ascii) :
  bool_decide (is_Some (digit_val c)) || bool_decide (c = "-"%char) = true →
  ∀ fuel r, parse (S fuel) (String c r) = read_number (String c r).
Proof.
  destruct c as [[] [] [] [] [] [] [] []]; intros H;
    try (vm_compute in H; discriminate H); intros fuel r; reflexivity.
Qed.

Lemma parse_array_head (c : ascii) :
  c ≠ "]"%char →
  ∀ fuel r, parse (S fuel) (String "[" (String c r)) =
            ('(l, rest) ← parse_elements fuel (String c r); Some (Array l, rest)).
Proof.
  destruct c as [[] [] [] [] [] [] [] []]; intros H; try done; intros fuel r; reflexivity.
Qed.

(** The first character of the text of a value does not close an array. *)
Lemma print_head (v : value) (rest : string) :
  ∃ c r, print v +:+ rest = String c r ∧ c ≠ "]"%char.
Proof.
  destruct v as [|[]|n|s|l|l]; try (by eexists _, _).
  destruct n as [|p|p].
  - by eexists _, _.
  - change (print (Number (Z.pos p))) with (pretty (N.pos p)).
    destruct (pretty_head (N.pos p) rest) as (c & r & -> & Hc).
    eexists _, _. split; [done|]. intros ->. by destruct Hc.
  - by eexists _, _.
Qed.

Lemma parse_number (z : Z) (fuel : nat) (rest : string) :
  ends_number rest → parse (S fuel) (pretty z +:+ rest) = Some (Number z, rest).
Proof.
  intros Hrest. rewrite <- (read_number_pretty z rest Hrest).
  destruct z as [|p|p].
  - by apply parse_number_head.
  - change (pretty (Z.pos p)) with (pretty (N.pos p)).
    destruct (pretty_head (N.pos p) rest) as (c & r & -> & Hc).
    apply parse_number_head. by rewrite bool_decide_eq_true_2.
  - by apply parse_number_head.
Qed.

Lemma parse_string (s : string) (fuel : nat) (rest : string) :
  parse (S fuel) (print_string s +:+ rest) = Some (Str s, rest).
Proof.
  unfold print_string. rewrite sapp_cons, sapp_assoc, sapp_cons, sapp_nil_l.
  change (parse (S fuel) (String quote (escape_all s +:+ String quote rest)))
    with ('(str, r) ← read_string (escape_all s +:+ String quote rest); Some (Str str, r)).
  by rewrite read_string_escape_all.
Qed.

Lemma parse_elements_print (l : list value) :
  Forall read_back l → l ≠ [] →
  ∀ fuel rest, (foldr (fun x n => S (size x + n)) O l ≤ fuel)%nat →
    parse_elements fuel (String.concat "," (map print l) +:+ String "]" rest) = Some (l, rest).
Proof.
  induction 1 as [|x l Hx Hl IH]; intros Hne fuel rest Hfuel; [done|].
  cbn [foldr] in Hfuel. destruct fuel as [|fuel]; [lia|].
  destruct l as [|y l].
  - cbn [map String.concat parse_elements].
    rewrite (Hx fuel (String "]" rest)) by (done || cbn in *; lia). done.
  - change (String.concat "," (map print (x :: y :: l)))
      with (print x +:+ "," +:+ String.concat "," (map print (y :: l))).
    rewrite !sapp_assoc, sapp_cons, sapp_nil_l. cbn [parse_elements].
    rewrite (Hx fuel) by (done || lia). cbn [mbind option_bind].
    rewrite IH by (done || lia). done.
Qed.

Lemma parse_members_print (l : list (string * value)) :
  Forall (fun kv => read_back kv.2) l → l ≠ [] →
  ∀ fuel rest, (foldr (fun x n => S (size x.2 + n)) O l ≤ fuel)%nat →
    parse_members fuel
      (String.concat "," (map (fun kv => print_string kv.1 +:+ ":" +:+ print kv.2) l)
       +:+ String "}" rest) = Some (l, rest).
Proof.
  induction 1 as [|[k x] l Hx Hl IH]; intros Hne fuel rest Hfuel; [done|].
  cbn [foldr snd] in Hfuel. destruct fuel as [|fuel]; [lia|].
  assert (Hkey : ∀ tail,
    parse_members (S fuel) (print_string k +:+ tail) =
      match tail with
      | String ":" r =>
          '(v, r) ← parse fuel r;
          match r with
          | String "," r => '(l, rest) ← parse_members fuel r; Some ((k, v) :: l, rest)
          | String "}" r => Some ([(k, v)], r)
          | _ => None
          end
      | _ => None
      end).
  { intros tail. unfold print_string.
    rewrite sapp_cons, sapp_assoc, sapp_cons, sapp_nil_l. cbn [parse_members].
    rewrite bool_decide_eq_true_2 by done. by rewrite read_string_escape_all. }
  destruct l as [|y l].
  - cbn [map String.concat fst snd]. rewrite !sapp_assoc, Hkey, sapp_cons, sapp_nil_l.
    cbn in Hx. rewrite (Hx fuel (String "}" rest)) by (done || cbn in *; lia). done.
  - change (String.concat "," (map (fun kv => print_string kv.1 +:+ ":" +:+ print kv.2)
                                 ((k, x) :: y :: l)))
      with ((print_string k +:+ ":" +:+ print x) +:+ "," +:+
            String.concat "," (map (fun kv => print_string kv.1 +:+ ":" +:+ print kv.2)
                                 (y :: l))).
    rewrite !sapp_assoc, Hkey, !sapp_cons, !sapp_nil_l.
    cbn in Hx. rewrite (Hx fuel) by (done || lia). cbn [mbind option_bind].
    rewrite IH by (done || lia). done.
Qed.

(** The text of a value, read with enough fuel, gives the value back and
    leaves what follows the text. *)
Lemma parse_print (v : value) : read_back v.
Proof.
  induction v as [|b|n|s|l IH|l IH] using value_rect'; intros fuel rest Hfuel Hrest;
    (destruct fuel as [|fuel]; [cbn in Hfuel; lia|]).
  - reflexivity.
  - by destruct b.
  - by apply parse_number.
  - apply parse_string.
  - cbn [print]. destruct l as [|x l]; [reflexivity|].
    rewrite !sapp_cons, sapp_nil_l, sapp_assoc, sapp_cons, sapp_nil_l.
    destruct (print_head x ("," +:+ String.concat "," (map print l) +:+ String "]" rest))
      as (c & r & E & Hc).
    assert (E' : ∃ c r, String.concat "," (map print (x :: l)) +:+ String "]" rest
                        = String c r ∧ c ≠ "]"%char).
    { destruct l as [|y l].
      - apply print_head.
      - change (String.concat "," (map print (x :: y :: l)))
          with (print x +:+ "," +:+ String.concat "," (map print (y :: l))).
        rewrite sapp_assoc. apply print_head. }
    clear c r E Hc. destruct E' as (c & r & E & Hc).
    pose proof (parse_elements_print (x :: l) IH ltac:(done) fuel rest) as Hl.
    rewrite E in *. rewrite parse_array_head by done.
    rewrite Hl by (cbn [size] in Hfuel; lia). done.
  - cbn [print]. destruct l as [|[k x] l]; [reflexivity|].
    rewrite !sapp_cons, sapp_nil_l, sapp_assoc, sapp_cons, sapp_nil_l.
    pose proof (parse_members_print ((k, x) :: l) IH ltac:(done) fuel rest) as Hl.
    assert (E : ∃ r, String.concat ","
                       (map (fun kv => print_string kv.1 +:+ ":" +:+ print kv.2) ((k, x) :: l))
                     +:+ String "}" rest = String quote r).
    { destruct l as [|y l]; eexists; reflexivity. }
    destruct E as [r E]. rewrite E in *.
    change (parse (S fuel) (String "{" (String quote r)))
      with ('(l, rest) ← parse_members fuel (String quote r); Some (Object l, rest)).
    rewrite Hl by (cbn [size] in Hfuel; lia). done.
Qed.

Lemma pretty_nonempty (z : Z) : (1 ≤ String.length (pretty z))%nat.
Proof.
  destruct z as [|p|p].
  - vm_compute. lia.
  - change (pretty (Z.pos p)) with (pretty (N.pos p)).
    destruct (pretty_head (N.pos p) "") as (c & r & E & _).
    rewrite sapp_nil_r in E. rewrite E. cbn [String.length]. lia.
  - change (pretty (Z.neg p)) with (String "-" (pretty (N.pos p))).
    cbn [String.length]. lia.
Qed.

Lemma size_length (v : value) : (size v ≤ String.length (print v))%nat.
Proof.
  induction v as [|b|n|s|l IH|l IH] using value_rect'.
  - cbn. lia.
  - destruct b; cbn; lia.
  - apply pretty_nonempty.
  - cbn. lia.
  - cbn [print size]. rewrite !length_sapp. cbn [String.length].
    enough (foldr (fun x n => S (size x + n)) O l ≤
            S (String.length (String.concat "," (map print l))))%nat by lia.
    induction IH as [|x l Hx Hl IHl]; [cbn; lia|].
    destruct l as [|y l]; [cbn in *; lia|].
    change (String.concat "," (map print (x :: y :: l)))
      with (print x +:+ "," +:+ String.concat "," (map print (y :: l))).
    rewrite !length_sapp. cbn [foldr String.length] in *. lia.
  - cbn [print size]. rewrite !length_sapp. cbn [String.length].
    enough (foldr (fun x n => S (size x.2 + n)) O l ≤
            S (String.length (String.concat ","
                 (map (fun kv => print_string kv.1 +:+ ":" +:+ print kv.2) l))))%nat by lia.
    induction IH as [|[k x] l Hx Hl IHl]; [cbn; lia|].
    destruct l as [|y l].
    + cbn [map String.concat foldr fst snd] in *. rewrite !length_sapp. cbn in *. lia.
    + change (String.concat "," (map (fun kv => print_string kv.1 +:+ ":" +:+ print kv.2)
                                   ((k, x) :: y :: l)))
        with ((print_string k +:+ ":" +:+ print x) +:+ "," +:+
              String.concat "," (map (fun kv => print_string kv.1 +:+ ":" +:+ print kv.2)
                                   (y :: l))).
      rewrite !length_sapp. cbn [foldr String.length fst snd] in *. lia.
Qed.

(** Reading the text written for a value gives the value. *)
Lemma read_print (v : value) : read (print v) = Some v.
Proof.
  unfold read. pose proof (parse_print v (S (String.length (print v))) "") as H.
  rewrite sapp_nil_r in H. rewrite H; [done| |done].
  pose proof (size_length v). lia.
Qed.

End JsonProofs.

(** ** The overlay *)

Section OverlayProofs.
Import overlay.

Lemma mapM_encode {A B} (f : A → B) (g : B → option A) (l : list A) :
  (∀ a, g (f a) = Some a) → mapM g (f <$> l) = Some l.
Proof.
  intros Hgf. induction l as [|a l IH]; [done|].
  cbn [fmap list_fmap mapM]. rewrite Hgf. cbn [mbind option_bind].
  fold (f <$> l). rewrite IH. done.
Qed.

Lemma json_mount_ok (m : VolumeMount) : json_mount (mount_json m) = Some m.
Proof. by destruct m. Qed.

Lemma json_strings_ok (l : list string) : json_strings (strings_json l) = Some l.
Proof. unfold json_strings, strings_json. cbn. by apply mapM_encode. Qed.

Lemma json_env_ok (l : list (string * string)) : json_env (env_json l) = Some l.
Proof.
  unfold json_env, env_json. cbn [json.as_array mbind option_bind].
  apply (mapM_encode (fun kv : string * string => _)). by intros [k w].
Qed.

Lemma json_resources_ok (l : list (string * string)) :
  json_resources (resources_json l) = Some l.
Proof.
  unfold json_resources, resources_json. cbn [json.as_object mbind option_bind].
  apply (mapM_encode (fun kv : string * string => _)). by intros [k w].
Qed.

Lemma json_ports_ok (l : list Z) : json_ports (ports_json l) = Some l.
Proof.
  unfold json_ports, ports_json. cbn [json.as_array mbind option_bind].
  by apply (mapM_encode (fun p : Z => _)).
Qed.

Lemma json_probes_ok (p : option string) : json_probes (probes_json p) = Some p.
Proof. by destruct p. Qed.

Lemma json_container_ok (c : Container) : json_container (container_json c) = Some c.
Proof.
  destruct c. unfold json_container, container_json.
  cbn [json.as_object json.member String.eqb Ascii.eqb Bool.eqb mbind option_bind
       json.as_string json.as_array
       c_Name c_Image c_ImagePullPolicy c_Command c_Args c_WorkingDir c_Env c_VolumeMounts
       c_Ports c_Requests c_Limits c_Probes].
  rewrite !json_strings_ok, json_env_ok. cbn [mbind option_bind].
  rewrite (mapM_encode mount_json json_mount _ json_mount_ok). cbn [mbind option_bind].
  rewrite json_ports_ok. cbn [mbind option_bind].
  rewrite !json_resources_ok. cbn [mbind option_bind].
  by rewrite json_probes_ok.
Qed.

Lemma json_volume_ok (v : Volume) : json_volume (volume_json v) = Some v.
Proof. by destruct v. Qed.

Lemma json_spec_ok (p : PodSpec) : json_spec (spec_json p) = Some p.
Proof.
  destruct p. unfold json_spec, spec_json.
  cbn [json.as_object json.member String.eqb Ascii.eqb Bool.eqb mbind option_bind
       json.as_array InitContainers Containers Volumes].
  rewrite !(mapM_encode container_json json_container _ json_container_ok).
  cbn [mbind option_bind].
  by rewrite (mapM_encode volume_json json_volume _ json_volume_ok).
Qed.

(** The JSON written for a pod specification reads back as that pod
    specification. *)
Lemma unmarshal_marshal (p : PodSpec) : unmarshal (marshal p) = Some p.
Proof.
  unfold unmarshal, marshal. rewrite read_print. cbn [mbind option_bind].
  apply json_spec_ok.
Qed.

Lemma dev_patch_name (main s : ContainerSpec) (is_main : bool) (c : Container) :
  c_Name (dev_patch main s is_main c) = c_Name c.
Proof. by destruct is_main. Qed.

(** Patching the target changes one container and no name. *)
Lemma patch_target_names (name : string) (f : Container → Container) :
  (∀ c, c_Name (f c) = c_Name c) →
  ∀ cs cs', patch_target name f cs = Some cs' → c_Name <$> cs' = c_Name <$> cs.
Proof.
  intros Hf. induction cs as [|c cs IH]; intros cs' H; simpl in H; [done|].
  case_bool_decide.
  - injection H as <-. by rewrite !fmap_cons, Hf.
  - destruct (patch_target name f cs) as [cs0|]; [|done].
    injection H as <-. rewrite !fmap_cons. f_equal. by apply IH.
Qed.

Lemma patch_target_total (name : string) (f : Container → Container) (cs : list Container) :
  has_target name cs → is_Some (patch_target name f cs).
Proof.
  intros [[-> Hne]|Hin].
  - destruct cs as [|c cs]; [done|]. cbn [patch_target].
    case_bool_decide as Hc; [eauto|]. exfalso. apply Hc. by left.
  - induction cs as [|c cs IH]; [by apply elem_of_nil in Hin|].
    cbn [patch_target]. case_bool_decide as Hc; [eauto|].
    rewrite fmap_cons in Hin. apply elem_of_cons in Hin as [->|Hin].
    + exfalso. apply Hc. by right.
    + destruct (IH Hin) as [cs' ->]. simpl. eauto.
Qed.

(** Whether a name selects a container depends on the names only. *)
Lemma has_target_names (name : string) (cs cs' : list Container) :
  c_Name <$> cs' = c_Name <$> cs → has_target name cs → has_target name cs'.
Proof.
  intros Hn [[-> Hne]|Hin].
  - left. split; [done|]. intros ->. by destruct cs.
  - right. by rewrite Hn.
Qed.

Lemma patch_services_names (main : ContainerSpec) (ss : list ContainerSpec) :
  ∀ cs cs', patch_services main ss cs = Some cs' → c_Name <$> cs' = c_Name <$> cs.
Proof.
  induction ss as [|s ss IH]; intros cs cs' H; cbn [patch_services] in H.
  - by injection H as <-.
  - destruct (patch_target (s_Container s) (dev_patch main s false) cs) as [cs1|] eqn:H1;
      [|done].
    cbn [mbind option_bind] in H. rewrite (IH _ _ H).
    eapply patch_target_names; [|exact H1]. intros c. apply dev_patch_name.
Qed.

Lemma patch_services_total (main : ContainerSpec) (ss : list ContainerSpec) :
  ∀ cs, (∀ sv, sv ∈ ss → has_target (s_Container sv) cs) →
  is_Some (patch_services main ss cs).
Proof.
  induction ss as [|s ss IH]; intros cs Hall; simpl; [eauto|].
  destruct (patch_target_total (s_Container s) (dev_patch main s false) cs)
    as [cs' Hcs']; [apply Hall; by left|].
  rewrite Hcs'. simpl. apply IH. intros sv Hsv.
  eapply has_target_names; [|apply Hall; by right].
  eapply patch_target_names; [|exact Hcs']. intros c. apply dev_patch_name.
Qed.

(** The translation of the pod specification of a valid pair: the overlay
    is there. *)
Lemma translate_spec_valid (d : Deployment) (s : DevSpec) :
  valid d s →
  ∃ p, translate_spec s (d_Spec d) = Some p ∧
    InitContainers p = (InitContainers (d_Spec d) ++ [init_container (s_Main s)])%list ∧
    c_Name <$> Containers p = ((c_Name <$> Containers (d_Spec d)) ++ [c_Name sidecar])%list ∧
    list.last (Containers p) = Some sidecar ∧
    Volumes p = (Volumes (d_Spec d) ++ overlay_volumes (s_Main s))%list.
Proof.
  intros (Hfresh & Hmain & Hsvc). unfold translate_spec.
  destruct (patch_target_total (s_Container (s_Main s))
              (dev_patch (s_Main s) (s_Main s) true) (Containers (d_Spec d)) Hmain)
    as [cs1 Hcs1].
  rewrite Hcs1. cbn [mbind option_bind].
  pose proof (patch_target_names _ _ (dev_patch_name (s_Main s) (s_Main s) true) _ _ Hcs1)
    as Hn1.
  destruct (patch_services_total (s_Main s) (s_Services s) cs1) as [cs2 Hcs2].
  { intros sv Hsv. eapply has_target_names; [exact Hn1|by apply Hsvc]. }
  rewrite Hcs2. cbn [mbind option_bind].
  eexists. split; [reflexivity|]. cbn [InitContainers Containers Volumes].
  split; [done|]. split; [|split; [apply last_snoc|done]].
  rewrite fmap_app. by rewrite (patch_services_names _ _ _ _ Hcs2), Hn1.
Qed.

Lemma captured_lookup (s : DevSpec) (a : gmap string string) (v : string) :
  with_restart s (<[OriginalSpecAnnotation := v]> a) !! OriginalSpecAnnotation = Some v.
Proof.
  unfold with_restart. destruct (s_Annotations (s_Main s) !! RestartAnnotation).
  - rewrite lookup_insert_ne by done. apply lookup_insert_eq.
  - apply lookup_insert_eq.
Qed.

Lemma captured_delete (s : DevSpec) (a : gmap string string) (v : string) :
  a !! OriginalSpecAnnotation = None →
  delete OriginalSpecAnnotation (with_restart s (<[OriginalSpecAnnotation := v]> a))
  = with_restart s a.
Proof.
  intros Ha. unfold with_restart. destruct (s_Annotations (s_Main s) !! RestartAnnotation).
  - rewrite delete_insert_ne by done. by rewrite delete_insert_eq, delete_id.
  - by rewrite delete_insert_eq, delete_id.
Qed.

Lemma translate_valid (d : Deployment) (s : DevSpec) (p : PodSpec) :
  d_Annotations d !! OriginalSpecAnnotation = None →
  translate_spec s (d_Spec d) = Some p →
  translate d s =
    Some (mkDeployment (d_Name d) (d_Namespace d)
            (with_restart s (<[OriginalSpecAnnotation := marshal (d_Spec d)]>
                               (d_Annotations d))) p).
Proof. intros Hfresh Hp. unfold translate. by rewrite Hp, Hfresh. Qed.

Lemma restore_captured (name ns : string) (a : gmap string string) (p p0 : PodSpec)
    (v : string) :
  a !! OriginalSpecAnnotation = Some v → unmarshal v = Some p0 →
  restore (mkDeployment name ns a p) =
    Some (mkDeployment name ns (delete OriginalSpecAnnotation a) p0).
Proof.
  intros Ha Hv. unfold restore. cbn [d_Annotations d_Name d_Namespace]. rewrite Ha.
  cbn [mbind option_bind]. by rewrite Hv.
Qed.

Lemma with_restart_same (s : DevSpec) (a : gmap string string) :
  with_restart s a = a ↔
  ∀ uuid, s_Annotations (s_Main s) !! RestartAnnotation = Some uuid →
          a !! RestartAnnotation = Some uuid.
Proof.
  unfold with_restart.
  destruct (s_Annotations (s_Main s) !! RestartAnnotation) as [u|].
  - split.
    + intros E uuid [= <-]. rewrite <- E. apply lookup_insert_eq.
    + intros H. apply insert_id. by apply H.
  - split; [by intros _ uuid|done].
Qed.


End OverlayProofs.

Section OverlayExamples.
Import overlay overlay_fixtures.

Lemma valid_api (s : DevSpec) :
  s_Container (s_Main s) = "" → s_Services s = [] → valid deployment_api s.
Proof.
  intros Hc Hs. split; [reflexivity|]. split.
  - left. split; [exact Hc|discriminate].
  - intros sv Hsv. rewrite Hs in Hsv. by apply elem_of_nil in Hsv.
Defined.



(** The annotation that captures the pod specification of scenario S1. *)
Example marshal_api :
  marshal (mkPodSpec [] [mkContainer "api" "api:1.0" "" [] [] "" [] [] [3000] [] [] None] []) =
  "{" +:+ String json.quote "initContainers" +:+ String json.quote ":[],"
  +:+ String json.quote "containers" +:+ String json.quote ":[{"
  +:+ String json.quote "name" +:+ String json.quote ":"
  +:+ String json.quote "api" +:+ String json.quote ","
  +:+ String json.quote "image" +:+ String json.quote ":"
  +:+ String json.quote "api:1.0" +:+ String json.quote ","
  +:+ String json.quote "imagePullPolicy" +:+ String json.quote ":"
  +:+ String json.quote "" +:+ String json.quote ","
  +:+ String json.quote "command" +:+ String json.quote ":[],"
  +:+ String json.quote "args" +:+ String json.quote ":[],"
  +:+ String json.quote "workingDir" +:+ String json.quote ":"
  +:+ String json.quote "" +:+ String json.quote ","
  +:+ String json.quote "env" +:+ String json.quote ":[],"
  +:+ String json.quote "volumeMounts" +:+ String json.quote ":[],"
  +:+ String json.quote "ports" +:+ String json.quote ":[{"
  +:+ String json.quote "containerPort" +:+ String json.quote ":3000}],"
  +:+ String json.quote "resources" +:+ String json.quote ":{"
  +:+ String json.quote "requests" +:+ String json.quote ":{},"
  +:+ String json.quote "limits" +:+ String json.quote ":{}},"
  +:+ String json.quote "probes" +:+ String json.quote ":null}],"
  +:+ String json.quote "volumes" +:+ String json.quote ":[]}".
Proof. vm_compute. reflexivity. Qed.

End OverlayExamples.
